(** * bed2gtf: a shallow embedding of [bed2gtf.py] and its properties

    The development follows the layout of the script: Python primitives
    (list indexing, [range], exceptions), the frame calculator
    ([exon_frames]), the codon locator ([find_first_codon],
    [find_last_codon]), the coordinate walker ([move_pos]), the GTF line
    builders and the per-record driver ([run]).

    Integers are Python's unbounded integers, hence [Z].  Python lists of
    integers are [list Z]; dictionaries are [gmap].  A raised exception is
    a value of [exn]; functions that can raise return a [result]. *)

From Stdlib Require Import ZArith Lia List Bool Ascii.
From stdpp Require Import base tactics option list gmap strings pretty.

Local Open Scope Z_scope.

(** ** Exceptions and the error monad *)

(** The two messages of [move_pos]: "can't find {pos}" and
    "can't move {orig_pos} by {dist}". *)
Inductive value_error : Type :=
| cant_find (pos : Z)
| cant_move (orig_pos dist : Z).

Inductive exn : Type :=
| AssertionError
| IndexError
| KeyError (key : string)
| TypeError
| ValueError (msg : value_error).

Inductive result (A : Type) : Type :=
| Ok (a : A)
| Raise (e : exn).
Arguments Ok {A} a.
Arguments Raise {A} e.

Global Instance result_ret : MRet result := fun A a => Ok a.
Global Instance result_bind : MBind result := fun A B k m =>
  match m with
  | Ok a => k a
  | Raise e => Raise e
  end.

Definition err_msg (m : value_error) : string :=
  match m with
  | cant_find pos => "can't find " +:+ pretty pos
  | cant_move orig_pos dist =>
      "can't move " +:+ pretty orig_pos +:+ " by " +:+ pretty dist
  end.

(** ** Python primitives *)

Definition len {A} (l : list A) : Z := Z.of_nat (length l).

(** [l[i]]: negative indices count from the end, anything out of range
    raises [IndexError]. *)
Definition getitem {A} (l : list A) (i : Z) : result A :=
  let j := if i <? 0 then len l + i else i in
  if j <? 0 then Raise IndexError
  else match l !! Z.to_nat j with
       | Some x => Ok x
       | None => Raise IndexError
       end.

(** [l[i] = v] *)
Definition setitem {A} (l : list A) (i : Z) (v : A) : result (list A) :=
  let j := if i <? 0 then len l + i else i in
  if (j <? 0) || (len l <=? j) then Raise IndexError
  else Ok (<[Z.to_nat j := v]> l).

(** [range(start, stop, step)] for a non-zero step. *)
Definition py_range (start stop step : Z) : list Z :=
  let n := if 0 <? step then (stop - start + step - 1) / step
           else (start - stop - step - 1) / (- step) in
  map (fun k => start + Z.of_nat k * step) (seq 0 (Z.to_nat n)).

(** A [for] loop whose body updates an accumulator and may raise. *)
Fixpoint for_each {A S} (body : S -> A -> result S) (s : S) (xs : list A)
  : result S :=
  match xs with
  | [] => Ok s
  | x :: xs' => s' ← body s x ; for_each body s' xs'
  end.

(** A [for] loop whose body may also [break] or [return]. *)
Inductive flow (S R : Type) : Type :=
| Continue (s : S)
| Break (s : S)
| Return (r : R).
Arguments Continue {S R} s.
Arguments Break {S R} s.
Arguments Return {S R} r.

Fixpoint for_loop {A S R} (body : S -> A -> result (flow S R)) (s : S)
    (xs : list A) : result (S + R) :=
  match xs with
  | [] => Ok (inl s)
  | x :: xs' =>
      c ← body s x ;
      match c with
      | Continue s' => for_loop body s' xs'
      | Break s' => Ok (inl s')
      | Return r => Ok (inr r)
      end
  end.

(** A [while] loop, unrolled at most [fuel] times. *)
Fixpoint while_loop {S} (fuel : nat) (cond : S -> bool)
    (body : S -> result S) (s : S) : result S :=
  match fuel with
  | O => Ok s
  | Datatypes.S fuel' =>
      if cond s then s' ← body s ; while_loop fuel' cond body s' else Ok s
  end.

(** ** IsoformTable *)

(** Characters are taken as code points below 256.  [str.isspace] on that
    range: the controls 9 to 13 and 28 to 31, the blank, U+0085 and
    U+00A0. *)
Definition isspace (c : ascii) : bool :=
  let n := nat_of_ascii c in
  ((9 <=? n) && (n <=? 13))%nat || ((28 <=? n) && (n <=? 32))%nat ||
  (n =? 133)%nat || (n =? 160)%nat.

(** [s.lstrip()] and [s.rstrip()] *)
Fixpoint lstrip (s : string) : string :=
  match s with
  | EmptyString => EmptyString
  | String c s' => if isspace c then lstrip s' else s
  end.

Fixpoint rstrip (s : string) : string :=
  match s with
  | EmptyString => EmptyString
  | String c s' =>
      match rstrip s' with
      | EmptyString => if isspace c then EmptyString else String c EmptyString
      | r => String c r
      end
  end.

(** [s.strip()] *)
Definition strip (s : string) : string := rstrip (lstrip s).

(** [s.split(sep)] for a one-character separator: at least one field. *)
Fixpoint split (sep : ascii) (s : string) : list string :=
  match s with
  | EmptyString => [EmptyString]
  | String c s' =>
      if Ascii.eqb c sep then EmptyString :: split sep s'
      else match split sep s' with
           | f :: fs => String c f :: fs
           | [] => [String c EmptyString]
           end
  end.

(** [s.startswith(p)] *)
Definition startswith (s p : string) : bool := String.prefix p s.

Definition tab_char : ascii := "009"%char.

(** The body of the loop of [hashmap]: the right-hand side [fields[0]] is
    evaluated before the key [fields[1].rstrip()]. *)
Definition hashmap_body (isoforms : gmap string string) (line : string)
  : result (gmap string string) :=
  if startswith line "Gene" then Ok isoforms
  else
    let fields := split tab_char (strip line) in
    value ← getitem fields 0 ;
    key ← getitem fields 1 ;
    Ok (<[rstrip key := value]> isoforms).

(** [hashmap], on the lines of the file at [path]. *)
Definition hashmap (lines : list string) : result (gmap string string) :=
  let isoforms := ∅ in
  for_each hashmap_body isoforms lines.

(** ** FrameCalculator *)

Definition check_exon_frame (exonStart exonEnd cdsStart cdsEnd : Z) : Z * Z :=
  let start := Z.max exonStart cdsStart in
  let end_ := Z.min exonEnd cdsEnd in
  (start, end_).

(** One iteration of the loop of [exon_frames]; the loop state is the pair
    of the local variables [frames] and [cds]. *)
Definition exon_frames_body (cdsStart cdsEnd : Z) (exonStart exonEnd : list Z)
    (st : list Z * Z) (exon : Z) : result (list Z * Z) :=
  let '(frames, cds) := st in
  es ← getitem exonStart exon ;
  ee ← getitem exonEnd exon ;
  let '(cdsExonStart, cdsExonEnd) := check_exon_frame es ee cdsStart cdsEnd in
  if cdsExonStart <? cdsExonEnd then
    frames' ← setitem frames exon (cds mod 3) ;
    Ok (frames', cds + (cdsExonEnd - cdsExonStart))
  else
    frames' ← setitem frames exon (-1) ;
    Ok (frames', cds).

(** The whole loop: returns the final [frames] together with the running
    count [cds]. *)
Definition exon_frames_loop (cdsStart cdsEnd : Z) (exonStart exonEnd : list Z)
    (strand : string) : result (list Z * Z) :=
  let frames := replicate (length exonStart) 0 in
  let cds := 0 in
  let start := if String.eqb strand "+" then 0 else len exonStart - 1 in
  let end_ := if String.eqb strand "+" then len exonStart else -1 in
  let step := if String.eqb strand "+" then 1 else -1 in
  for_each (exon_frames_body cdsStart cdsEnd exonStart exonEnd)
           (frames, cds) (py_range start end_ step).

Definition exon_frames (cdsStart cdsEnd : Z) (exonStart exonEnd : list Z)
    (strand : string) : result (list Z) :=
  '(frames, _) ← exon_frames_loop cdsStart cdsEnd exonStart exonEnd strand ;
  Ok frames.

(** ** CodonLocator *)

(** A codon descriptor is the six-element list
    [start1; end1; start2; end2; exon1; exon2]. *)
Definition zero_codon : list Z := replicate 6 0.

(** [codon[:2] = [a, b]] *)
Definition set_slice2 (codon : list Z) (a b : Z) : list Z :=
  a :: b :: drop 2 codon.

Definition find_first_codon (frames : list Z) (strand : string)
    (cdsStart cdsEnd : Z) (exonStart exonEnd : list Z) : result (list Z) :=
  let codon := zero_codon in
  let exon_index := 0 in
  scan ← for_loop (fun (exon_index : Z) fr =>
                     f ← getitem frames fr ;
                     if 0 <=? f then Ok (Break fr) else Ok (Return codon))
                  exon_index (py_range 0 (len frames - 1) 1) ;
  match scan with
  | inr r => Ok r
  | inl exon_index =>
      es ← getitem exonStart exon_index ;
      ee ← getitem exonEnd exon_index ;
      let '(cdsExonStart, cdsExonEnd) :=
        check_exon_frame es ee cdsStart cdsEnd in
      f ← getitem frames exon_index ;
      let frame := if String.eqb strand "+" then f
                   else (f + (cdsExonEnd - cdsExonStart)) mod 3 in
      if negb (frame =? 0) then Ok zero_codon
      else
        let codon :=
          set_slice2 codon cdsStart (cdsStart + Z.min (cdsEnd - cdsStart) 3) in
        codon ← setitem codon 4 exon_index ;
        c1 ← getitem codon 1 ;
        c0 ← getitem codon 0 ;
        if c1 - c0 <? 3 then
          codon ← setitem codon 5 exon_index ;
          codon ← setitem codon 4 (exon_index + 1) ;
          codon ← setitem codon 2 cdsStart ;
          c1 ← getitem codon 1 ;
          c0 ← getitem codon 0 ;
          let needed := 3 - (c1 - c0) in
          if cdsEnd - cdsStart <? needed then Ok zero_codon
          else
            c2 ← getitem codon 2 ;
            codon ← setitem codon 3 (c2 + needed) ;
            Ok codon
        else Ok codon
  end.

Definition find_last_codon (frames : list Z) (strand : string)
    (cdsStart cdsEnd : Z) (exonStart exonEnd : list Z) : result (list Z) :=
  let codon := zero_codon in
  let exon_index := 0 in
  scan ← for_loop (fun (exon_index : Z) fr =>
                     f ← getitem frames fr ;
                     if 0 <=? f then Ok (Break fr) else Ok (Return zero_codon))
                  exon_index (py_range (len frames - 1) (-1) (-1)) ;
  match scan with
  | inr r => Ok r
  | inl exon_index =>
      es ← getitem exonStart exon_index ;
      ee ← getitem exonEnd exon_index ;
      let '(cdsExonStart, cdsExonEnd) :=
        check_exon_frame es ee cdsStart cdsEnd in
      f ← getitem frames exon_index ;
      let frame := if String.eqb strand "-" then f
                   else (f + (cdsExonEnd - cdsExonStart)) mod 3 in
      if negb (frame =? 0) then Ok codon
      else
        let codon := set_slice2 codon (Z.max cdsStart (cdsEnd - 3)) cdsEnd in
        codon ← setitem codon 4 exon_index ;
        c1 ← getitem codon 1 ;
        c0 ← getitem codon 0 ;
        if c1 - c0 <? 3 then
          codon ← setitem codon 5 exon_index ;
          codon ← setitem codon 4 (exon_index - 1) ;
          codon ← setitem codon 2 cdsStart ;
          c1 ← getitem codon 1 ;
          c0 ← getitem codon 0 ;
          let needed := 3 - (c1 - c0) in
          if cdsEnd - cdsStart <? needed then Ok zero_codon
          else
            c2 ← getitem codon 2 ;
            codon ← setitem codon 3 (c2 + needed) ;
            Ok codon
        else Ok codon
  end.

Definition codon_complete (codon : list Z) : result bool :=
  c1 ← getitem codon 1 ;
  c0 ← getitem codon 0 ;
  c3 ← getitem codon 3 ;
  c2 ← getitem codon 2 ;
  Ok ((c1 - c0) + (c3 - c2) =? 3).

(** ** CoordinateWalker *)

(** [exonStarts[exon] <= pos <= exonEnds[exon]]: a chained comparison, so
    [exonEnds[exon]] is read only when the first comparison holds. *)
Definition in_exon (exon pos : Z) (exonStarts exonEnds : list Z)
  : result bool :=
  s ← getitem exonStarts exon ;
  if s <=? pos then e ← getitem exonEnds exon ; Ok (pos <=? e)
  else Ok false.

(** The state of the [while] loop of [move_pos]. *)
Record walk : Type := Walk { w_exon : Z; w_pos : Z; w_steps : Z }.

Definition move_cond (exonCount : Z) (w : walk) : bool :=
  (0 <=? w_exon w) && (w_exon w <? exonCount) && (0 <? w_steps w).

Definition move_body (exonCount : Z) (exonStart exonEnd : list Z)
    (direction : Z) (w : walk) : result walk :=
  let '(Walk exon pos steps) := w in
  inside ← in_exon exon (pos + direction) exonStart exonEnd ;
  if (inside : bool) then Ok (Walk exon (pos + direction) (steps - 1))
  else if 0 <=? direction then
    let exon := exon + 1 in
    if exon <? exonCount then
      pos ← getitem exonStart exon ; Ok (Walk exon pos steps)
    else Ok (Walk exon pos steps)
  else
    let exon := exon - 1 in
    if 0 <=? exon then
      e ← getitem exonEnd exon ; Ok (Walk exon (e - 1) (steps - 1))
    else Ok (Walk exon pos steps).

(** The body of the [for] loop that looks for the exon holding [pos]. *)
Definition find_exon_body (exonStart exonEnd : list Z) (pos : Z)
    (exon : option Z) (i : Z) : result (flow (option Z) unit) :=
  inside ← in_exon i pos exonStart exonEnd ;
  if (inside : bool) then Ok (Break (Some i)) else Ok (Continue exon).

(** Every iteration either consumes a step or moves to the next exon in the
    walking direction, so [steps + exonCount] iterations are enough; see
    [move_fuel_enough] below. *)
Definition move_fuel (exonCount steps : Z) : nat :=
  Z.to_nat (steps + exonCount).

Definition move_pos (txStart txEnd exonCount : Z) (exonStart exonEnd : list Z)
    (pos dist : Z) : result Z :=
  let orig_pos := pos in
  if negb ((txStart <=? pos) && (pos <=? txEnd)) then Raise AssertionError
  else
    found ← for_loop (find_exon_body exonStart exonEnd pos)
                     None (py_range 0 exonCount 1) ;
    match found with
    | inr _ => Raise (ValueError (cant_find pos))
    | inl None => Raise (ValueError (cant_find pos))
    | inl (Some exon) =>
        let steps := Z.abs dist in
        let direction := if 0 <=? dist then 1 else -1 in
        w ← while_loop (move_fuel exonCount steps) (move_cond exonCount)
                       (move_body exonCount exonStart exonEnd direction)
                       (Walk exon pos steps) ;
        if 0 <? w_steps w then Raise (ValueError (cant_move orig_pos dist))
        else Ok (w_pos w)
    end.

(** ** FeatureEmitter *)

(** One output line, column by column; [render] lays the columns out as the
    script writes them.  The start column already holds [start + 1]; the
    ninth column is kept as the list of its [key "value";] attributes. *)
Record gtf_line : Type := GtfLine {
  g_chrom : string;
  g_source : string;
  g_type : string;
  g_start : Z;
  g_end : Z;
  g_score : string;
  g_strand : string;
  g_phase : string;
  g_attributes : list (string * string)
}.

Definition tab : string := String "009"%char EmptyString.
Definition newline : string := String "010"%char EmptyString.
Definition dquote : string := String "034"%char EmptyString.

(** Every attribute is written as [key "value"; ] with a trailing blank,
    except [exon_id], which ends the line without one. *)
Definition render_attr (kv : string * string) : string :=
  kv.1 +:+ " " +:+ dquote +:+ kv.2 +:+ dquote +:+ ";" +:+
  (if String.eqb kv.1 "exon_id" then EmptyString else " ").

Definition render (l : gtf_line) : string :=
  g_chrom l +:+ tab +:+ g_source l +:+ tab +:+ g_type l +:+ tab +:+
  pretty (g_start l) +:+ tab +:+ pretty (g_end l) +:+ tab +:+
  g_score l +:+ tab +:+ g_strand l +:+ tab +:+ g_phase l +:+ tab +:+
  foldr (fun kv acc => render_attr kv +:+ acc) EmptyString (g_attributes l)
  +:+ newline.

(** The mutable state of a conversion run: the lines written to the output
    file so far, and the module-level dictionary [GENES]. *)
Record world : Type := World {
  file : list gtf_line;
  GENES : gmap string bool
}.

(** Computations that write lines or touch [GENES]; what was written before
    an exception stays written. *)
Definition io (A : Type) : Type := world -> result A * world.

Global Instance io_ret : MRet io := fun A a w => (Ok a, w).
Global Instance io_bind : MBind io := fun A B k m w =>
  match m w with
  | (Ok a, w') => k a w'
  | (Raise e, w') => (Raise e, w')
  end.

Definition lift {A} (r : result A) : io A := fun w => (r, w).

Definition assert (b : bool) : io unit :=
  lift (if b then Ok tt else Raise AssertionError).

(** [file.write(gtf_line)] *)
Definition write (l : gtf_line) : io unit :=
  fun w => (Ok tt, World (file w ++ [l]) (GENES w)).

(** Reading [GENES], the test [k in GENES.keys()] and the assignment
    [GENES[k] = v]. *)
Definition get_GENES : io (gmap string bool) := fun w => (Ok (GENES w), w).

Definition has_key (m : gmap string bool) (k : string) : bool :=
  match m !! k with
  | Some _ => true
  | None => false
  end.

Definition set_GENES (k : string) (v : bool) : io unit :=
  fun w => (Ok tt, World (file w) (<[k := v]> (GENES w))).

Definition file_text (w : world) : string :=
  foldr (fun l acc => render l +:+ acc) EmptyString (file w).

Definition build_gene_line (source geneName chrom strand type : string)
    (start end_ : Z) : io unit :=
  _ ← assert (start <=? end_) ;
  let gene_id := geneName in
  write (GtfLine chrom source type (start + 1) end_ "." strand "."
           [("gene_id", gene_id)]).

(** The conversion of a frame into the phase column. *)
Definition phase_of_frame (frame : Z) : string :=
  if frame <? 0 then "." else if frame =? 0 then "0"
  else if frame =? 1 then "2" else "1".

Definition build_gtf_line (source name chrom strand geneName type_g : string)
    (start end_ exon frame exonCount : Z) : io unit :=
  _ ← assert (start <=? end_) ;
  let phase := phase_of_frame frame in
  let gene_id := geneName in
  let attrs := [("gene_id", gene_id); ("transcript_id", name)] in
  let attrs :=
    if 0 <=? exon then
      if String.eqb strand "-" then
        attrs ++ [("exon_number", pretty (exonCount - exon));
                  ("exon_id", name +:+ "." +:+ pretty (exonCount - exon))]
      else
        attrs ++ [("exon_number", pretty (exon + 1));
                  ("exon_id", name +:+ "." +:+ pretty (exon + 1))]
    else attrs in
  write (GtfLine chrom source type_g (start + 1) end_ "." strand phase attrs).

Definition when (b : bool) (m : io unit) : io unit :=
  if b then m else mret tt.

Definition write_features (i : Z) (source name chrom strand geneName : string)
    (firstUtrEnd cdsStart cdsEnd lastUtrStart frame : Z)
    (exonStart exonEnd : list Z) (exonCount : Z) : io unit :=
  exonStart ← lift (getitem exonStart i) ;
  exonEnd ← lift (getitem exonEnd i) ;
  _ ← when (exonStart <? firstUtrEnd)
        (let end_ := Z.min exonEnd firstUtrEnd in
         build_gtf_line source name chrom strand geneName
           (if String.eqb strand "+" then "5UTR" else "3UTR")
           exonStart end_ i (-1) exonCount) ;
  _ ← when ((cdsStart <? exonEnd) && (exonStart <? cdsEnd))
        (let start := Z.max exonStart cdsStart in
         let end_ := Z.min exonEnd cdsEnd in
         build_gtf_line source name chrom strand geneName "CDS"
           start end_ i frame exonCount) ;
  when (lastUtrStart <? exonEnd)
    (let start := Z.max lastUtrStart exonStart in
     build_gtf_line source name chrom strand geneName
       (if String.eqb strand "+" then "3UTR" else "5UTR")
       start exonEnd i (-1) exonCount).

Definition write_codon (source name chrom strand geneName type_g : string)
    (codon : list Z) (exonCount : Z) : io unit :=
  c0 ← lift (getitem codon 0) ;
  c1 ← lift (getitem codon 1) ;
  c4 ← lift (getitem codon 4) ;
  _ ← build_gtf_line source name chrom strand geneName type_g
        c0 c1 c4 0 exonCount ;
  c2 ← lift (getitem codon 2) ;
  c3 ← lift (getitem codon 3) ;
  when (c2 <? c3)
    (c2 ← lift (getitem codon 2) ;
     c1 ← lift (getitem codon 1) ;
     c5 ← lift (getitem codon 5) ;
     c0 ← lift (getitem codon 0) ;
     build_gtf_line source name chrom strand geneName type_g
       c2 c1 c5 (c1 - c0) exonCount).

(** ** RecordPipeline *)

(** One input line after tokenisation: the twelve tab-separated fields with
    the numeric ones converted by [int] and the two comma-separated lists
    converted by [list(map(int, s.split(',')[:-1]))].  [bed_sizes] is the
    eleventh field (named [exonEnd] in [run] before it is overwritten) and
    [bed_starts] the twelfth. *)
Record bed_record : Type := BedRecord {
  bed_chrom : string;
  bed_txStart : Z;
  bed_txEnd : Z;
  bed_name : string;
  bed_strand : string;
  bed_cdsStart : Z;
  bed_cdsEnd : Z;
  bed_exonCount : Z;
  bed_sizes : list Z;
  bed_starts : list Z
}.

(** [enumerate(l)] *)
Definition enumerate {A} (l : list A) : list (Z * A) :=
  zip (map Z.of_nat (seq 0 (length l))) l.

(** A list comprehension whose element expression may raise. *)
Fixpoint comprehension {A B} (f : A -> result B) (l : list A)
  : result (list B) :=
  match l with
  | [] => Ok []
  | x :: l' => y ← f x ; ys ← comprehension f l' ; Ok (y :: ys)
  end.

(** A [for] loop over [xs] in the [io] monad. *)
Fixpoint for_io {A} (xs : list A) (body : A -> io unit) : io unit :=
  match xs with
  | [] => mret tt
  | x :: xs' => _ ← body x ; for_io xs' body
  end.

(** [isoforms[name]] *)
Definition lookup_isoform (isoforms : gmap string string) (name : string)
  : result string :=
  match isoforms !! name with
  | Some g => Ok g
  | None => Raise (KeyError name)
  end.

(** Absolute exon coordinates (the two comprehensions of [run]). *)
Definition absolute_exons (txStart : Z) (starts sizes : list Z)
  : result (list Z * list Z) :=
  let exonStart := map (fun x => txStart + x) starts in
  exonEnd ← comprehension
              (fun '(i, x) => s ← getitem exonStart i ; Ok (s + x))
              (enumerate sizes) ;
  Ok (exonStart, exonEnd).

Definition run (r : bed_record) (isoforms : gmap string string) : io unit :=
  let chrom := bed_chrom r in
  let txStart := bed_txStart r in
  let txEnd := bed_txEnd r in
  let name := bed_name r in
  let strand := bed_strand r in
  let cdsStart := bed_cdsStart r in
  let cdsEnd := bed_cdsEnd r in
  let exonCount := bed_exonCount r in
  geneName ← lift (lookup_isoform isoforms name) ;
  (* with [exonCount == 0] the two exon fields stay unconverted strings and
     the first iteration of [exon_frames] raises: [TypeError] from [max] of
     a string and an integer, or already [IndexError] when the sizes field
     is too short to be indexed there.  A record does not keep the raw
     fields, so this branch stands for both; nothing is written in either
     case, and no property depends on which of the two is raised. *)
  '(exonStart, exonEnd) ←
    lift (if negb (exonCount =? 0)
          then absolute_exons txStart (bed_starts r) (bed_sizes r)
          else Raise TypeError) ;
  let source := "test" in
  frames ← lift (exon_frames cdsStart cdsEnd exonStart exonEnd strand) ;
  first_codon ←
    lift (find_first_codon frames strand cdsStart cdsEnd exonStart exonEnd) ;
  last_codon ←
    lift (find_last_codon frames strand cdsStart cdsEnd exonStart exonEnd) ;
  let first_utr_end := cdsStart in
  let last_utr_start := cdsEnd in
  cdsEnd ← lift (if String.eqb strand "+" then
                   complete ← codon_complete last_codon ;
                   if (complete : bool) then
                     move_pos txStart txEnd exonCount exonStart exonEnd
                       last_utr_start (-3)
                   else Ok cdsEnd
                 else Ok cdsEnd) ;
  cdsStart ← lift (if String.eqb strand "-" then
                     complete ← codon_complete first_codon ;
                     if (complete : bool) then
                       move_pos txStart txEnd exonCount exonStart exonEnd
                         first_utr_end 3
                     else Ok cdsStart
                   else Ok cdsStart) ;
  genes ← get_GENES ;
  _ ← when (negb (has_key genes geneName))
        (_ ← build_gene_line source geneName chrom strand "gene"
               txStart txEnd ;
         set_GENES geneName true) ;
  _ ← build_gtf_line source name chrom strand geneName "transcript"
        txStart txEnd (-1) (-1) exonCount ;
  _ ← for_io (py_range 0 exonCount 1) (fun x =>
         es ← lift (getitem exonStart x) ;
         ee ← lift (getitem exonEnd x) ;
         _ ← build_gtf_line source name chrom strand geneName "exon"
               es ee x (-1) exonCount ;
         when (cdsStart <? cdsEnd)
           (fr ← lift (getitem frames x) ;
            write_features x source name chrom strand geneName
              first_utr_end cdsStart cdsEnd last_utr_start fr
              exonStart exonEnd exonCount)) ;
  if negb (String.eqb strand "-") then
    c ← lift (codon_complete first_codon) ;
    _ ← when c (write_codon source name chrom strand geneName "start_codon"
                  first_codon exonCount) ;
    c ← lift (codon_complete last_codon) ;
    when c (write_codon source name chrom strand geneName "stop_codon"
              last_codon exonCount)
  else
    c ← lift (codon_complete last_codon) ;
    _ ← when c (write_codon source name chrom strand geneName "start_codon"
                  last_codon exonCount) ;
    c ← lift (codon_complete first_codon) ;
    when c (write_codon source name chrom strand geneName "stop_codon"
              first_codon exonCount).

(** [main]: the records of the input file, in order; the first exception
    ends the run. *)
Definition run_all (rs : list bed_record) (isoforms : gmap string string)
  : io unit :=
  for_io rs (fun r => run r isoforms).

(** * Specification-level notions *)

Definition Zsum (l : list Z) : Z := foldr Z.add 0 l.

(** The exons of a record as a list of intervals. *)
Definition exon_intervals (exonStart exonEnd : list Z) : list (Z * Z) :=
  zip exonStart exonEnd.

(** ** Coding bases *)

(** The number of positions shared by [[s, e)] and [[cdsStart, cdsEnd)]. *)
Definition overlap (s e cdsStart cdsEnd : Z) : Z :=
  Z.max 0 (Z.min e cdsEnd - Z.max s cdsStart).

(** Exons are non-empty, ascending and do not overlap. *)
Fixpoint ascending (exons : list (Z * Z)) : Prop :=
  match exons with
  | [] => True
  | (s, e) :: rest =>
      s < e ∧
      match rest with
      | (s', _) :: _ => e <= s'
      | [] => True
      end ∧
      ascending rest
  end.

(** The invariants of a transcript record. *)
Definition record_invariants (txStart txEnd cdsStart cdsEnd : Z)
    (exonStart exonEnd : list Z) : Prop :=
  length exonStart = length exonEnd ∧
  ascending (exon_intervals exonStart exonEnd) ∧
  txStart <= cdsStart ∧ cdsStart <= cdsEnd ∧ cdsEnd <= txEnd.

(** The positions of [[cdsStart, cdsEnd)] that fall in the introns, the
    gaps between consecutive exons. *)
Fixpoint intron_overlaps (cdsStart cdsEnd : Z) (exons : list (Z * Z)) : Z :=
  match exons with
  | [] => 0
  | (_, e) :: rest =>
      match rest with
      | (s', _) :: _ => overlap e s' cdsStart cdsEnd
      | [] => 0
      end + intron_overlaps cdsStart cdsEnd rest
  end.

(** The value of the local variable [cds] when [exon_frames] returns. *)
Definition running_count (cdsStart cdsEnd : Z) (exonStart exonEnd : list Z)
    (strand : string) : result Z :=
  '(_, cds) ← exon_frames_loop cdsStart cdsEnd exonStart exonEnd strand ;
  Ok cds.

(** ** Codon search *)

(** What a frame says about its exon: -1 for an exon without CDS bases,
    a value in 0..2 for an exon with some. *)
Definition frame_ok (s e cdsStart cdsEnd f : Z) : Prop :=
  (f = -1 ∧ Z.min e cdsEnd <= Z.max s cdsStart) ∨
  (0 <= f < 3 ∧ Z.max s cdsStart < Z.min e cdsEnd).

(** The part of [find_first_codon] that follows the scan loop, for the exon
    the loop selected. *)
Definition first_codon_at (frames : list Z) (strand : string)
    (cdsStart cdsEnd : Z) (exonStart exonEnd : list Z) (exon_index : Z)
  : result (list Z) :=
  let codon := zero_codon in
  es ← getitem exonStart exon_index ;
  ee ← getitem exonEnd exon_index ;
  let '(cdsExonStart, cdsExonEnd) := check_exon_frame es ee cdsStart cdsEnd in
  f ← getitem frames exon_index ;
  let frame := if String.eqb strand "+" then f
               else (f + (cdsExonEnd - cdsExonStart)) mod 3 in
  if negb (frame =? 0) then Ok zero_codon
  else
    let codon :=
      set_slice2 codon cdsStart (cdsStart + Z.min (cdsEnd - cdsStart) 3) in
    codon ← setitem codon 4 exon_index ;
    c1 ← getitem codon 1 ;
    c0 ← getitem codon 0 ;
    if c1 - c0 <? 3 then
      codon ← setitem codon 5 exon_index ;
      codon ← setitem codon 4 (exon_index + 1) ;
      codon ← setitem codon 2 cdsStart ;
      c1 ← getitem codon 1 ;
      c0 ← getitem codon 0 ;
      let needed := 3 - (c1 - c0) in
      if cdsEnd - cdsStart <? needed then Ok zero_codon
      else
        c2 ← getitem codon 2 ;
        codon ← setitem codon 3 (c2 + needed) ;
        Ok codon
    else Ok codon.

(** The same for [find_last_codon]. *)
Definition last_codon_at (frames : list Z) (strand : string)
    (cdsStart cdsEnd : Z) (exonStart exonEnd : list Z) (exon_index : Z)
  : result (list Z) :=
  let codon := zero_codon in
  es ← getitem exonStart exon_index ;
  ee ← getitem exonEnd exon_index ;
  let '(cdsExonStart, cdsExonEnd) := check_exon_frame es ee cdsStart cdsEnd in
  f ← getitem frames exon_index ;
  let frame := if String.eqb strand "-" then f
               else (f + (cdsExonEnd - cdsExonStart)) mod 3 in
  if negb (frame =? 0) then Ok codon
  else
    let codon := set_slice2 codon (Z.max cdsStart (cdsEnd - 3)) cdsEnd in
    codon ← setitem codon 4 exon_index ;
    c1 ← getitem codon 1 ;
    c0 ← getitem codon 0 ;
    if c1 - c0 <? 3 then
      codon ← setitem codon 5 exon_index ;
      codon ← setitem codon 4 (exon_index - 1) ;
      codon ← setitem codon 2 cdsStart ;
      c1 ← getitem codon 1 ;
      c0 ← getitem codon 0 ;
      let needed := 3 - (c1 - c0) in
      if cdsEnd - cdsStart <? needed then Ok zero_codon
      else
        c2 ← getitem codon 2 ;
        codon ← setitem codon 3 (c2 + needed) ;
        Ok codon
    else Ok codon.

(** The phase of an exon as the two searches compute it: the frame itself
    when the search runs along the strand named by [along], the frame plus
    the exon's CDS bases, modulo 3, otherwise. *)
Definition search_phase (strand along : string) (s e cdsStart cdsEnd f : Z)
  : Z :=
  if String.eqb strand along then f
  else (f + (Z.min e cdsEnd - Z.max s cdsStart)) mod 3.

(** The reading under which a search is absent exactly when no exon is
    coding. *)
Definition absent_iff_noncoding (frames codon : list Z) : Prop :=
  codon = zero_codon ↔ Forall (fun f => f = -1) frames.

(** ** The walker *)

(** The exon lists agree with [exonCount] and no exon is empty. *)
Definition exons_wf (exonCount : Z) (exonStart exonEnd : list Z) : Prop :=
  len exonStart = exonCount ∧ len exonEnd = exonCount ∧
  ∀ (i : nat) s e, exonStart !! i = Some s → exonEnd !! i = Some e → s < e.

(** [pos] lies in exon [i] in the sense of [in_exon] (both ends included). *)
Definition lies_in (exonStart exonEnd : list Z) (pos : Z) (i : nat) : Prop :=
  ∃ s e, exonStart !! i = Some s ∧ exonEnd !! i = Some e ∧ s <= pos <= e.

Definition in_no_exon (exonStart exonEnd : list Z) (pos : Z) : Prop :=
  ∀ i, ¬ lies_in exonStart exonEnd pos i.

Definition first_exon_of (exonStart exonEnd : list Z) (pos : Z) (k : nat)
  : Prop :=
  lies_in exonStart exonEnd pos k ∧
  ∀ j, (j < k)%nat → ¬ lies_in exonStart exonEnd pos j.

Definition exon_lengths (exonStart exonEnd : list Z) : list Z :=
  zip_with (fun s e => e - s) exonStart exonEnd.

(** The distance that can be walked from [pos] in exon [k] before the exon
    list runs out: forwards, up to the end of exon [k] and through all later
    exons; backwards, down to the start of exon [k] and through all earlier
    exons. *)
Definition reach (exonStart exonEnd : list Z) (dist : Z) (k : nat) (pos : Z)
  : Z :=
  if 0 <=? dist then
    (exonEnd !!! k - pos) + Zsum (drop (S k) (exon_lengths exonStart exonEnd))
  else
    (pos - exonStart !!! k) + Zsum (take k (exon_lengths exonStart exonEnd)).

(** The number of exon bases that precede [pos] when [pos] lies in exon
    [k]: the coordinate of [pos] along the spliced transcript. *)
Definition transcript_offset (exonStart exonEnd : list Z) (k : nat) (pos : Z)
  : Z :=
  Zsum (take k (exon_lengths exonStart exonEnd)) + (pos - exonStart !!! k).

Definition at_offset (exonStart exonEnd : list Z) (pos off : Z) : Prop :=
  ∃ k, lies_in exonStart exonEnd pos k ∧
       transcript_offset exonStart exonEnd k pos = off.

Definition exons_exhausted (exonStart exonEnd : list Z) (pos dist : Z)
  : Prop :=
  ∃ k, first_exon_of exonStart exonEnd pos k ∧
       reach exonStart exonEnd dist k pos < Z.abs dist.

(** The reading of the walk under which every jump to an adjacent exon is
    free: an iteration that stays in its exon consumes one unit of
    distance, an iteration that changes exon consumes none. *)
Definition jumps_are_free (exonCount : Z) (exonStart exonEnd : list Z)
    (direction : Z) (w : walk) : Prop :=
  ∀ w', move_cond exonCount w = true →
        move_body exonCount exonStart exonEnd direction w = Ok w' →
        (w_exon w' = w_exon w → w_steps w' = w_steps w - 1) ∧
        (w_exon w' ≠ w_exon w → w_steps w' = w_steps w).

Definition is_value_error {A} (r : result A) : Prop :=
  ∃ m, r = Raise (ValueError m).

(** ** The blocks of [run] *)

(** The stop-codon trim of [cdsEnd] on the plus strand and of [cdsStart] on
    the minus strand. *)
Definition trim_cdsEnd (strand : string) (txStart txEnd exonCount : Z)
    (exonStart exonEnd last_codon : list Z) (cdsEnd : Z) : result Z :=
  if String.eqb strand "+" then
    complete ← codon_complete last_codon ;
    if (complete : bool) then
      move_pos txStart txEnd exonCount exonStart exonEnd cdsEnd (-3)
    else Ok cdsEnd
  else Ok cdsEnd.

Definition trim_cdsStart (strand : string) (txStart txEnd exonCount : Z)
    (exonStart exonEnd first_codon : list Z) (cdsStart : Z) : result Z :=
  if String.eqb strand "-" then
    complete ← codon_complete first_codon ;
    if (complete : bool) then
      move_pos txStart txEnd exonCount exonStart exonEnd cdsStart 3
    else Ok cdsStart
  else Ok cdsStart.

(** The guarded emission of the gene line. *)
Definition emit_gene (source geneName chrom strand : string)
    (txStart txEnd : Z) : io unit :=
  genes ← get_GENES ;
  when (negb (has_key genes geneName))
    (_ ← build_gene_line source geneName chrom strand "gene" txStart txEnd ;
     set_GENES geneName true).

(** The body of the loop over the exons. *)
Definition emit_exon (source name chrom strand geneName : string)
    (first_utr_end cdsStart cdsEnd last_utr_start : Z)
    (frames exonStart exonEnd : list Z) (exonCount x : Z) : io unit :=
  es ← lift (getitem exonStart x) ;
  ee ← lift (getitem exonEnd x) ;
  _ ← build_gtf_line source name chrom strand geneName "exon"
        es ee x (-1) exonCount ;
  when (cdsStart <? cdsEnd)
    (fr ← lift (getitem frames x) ;
     write_features x source name chrom strand geneName
       first_utr_end cdsStart cdsEnd last_utr_start fr
       exonStart exonEnd exonCount).

(** The final emission of the codon records. *)
Definition emit_codons (source name chrom strand geneName : string)
    (first_codon last_codon : list Z) (exonCount : Z) : io unit :=
  if negb (String.eqb strand "-") then
    c ← lift (codon_complete first_codon) ;
    _ ← when c (write_codon source name chrom strand geneName "start_codon"
                  first_codon exonCount) ;
    c ← lift (codon_complete last_codon) ;
    when c (write_codon source name chrom strand geneName "stop_codon"
              last_codon exonCount)
  else
    c ← lift (codon_complete last_codon) ;
    _ ← when c (write_codon source name chrom strand geneName "start_codon"
                  last_codon exonCount) ;
    c ← lift (codon_complete first_codon) ;
    when c (write_codon source name chrom strand geneName "stop_codon"
              first_codon exonCount).

(** Everything [run] writes after the gene line. *)
Definition run_tail (r : bed_record) (geneName : string)
    (exonStart exonEnd frames first_codon last_codon : list Z)
    (cdsStart cdsEnd : Z) : io unit :=
  _ ← build_gtf_line "test" (bed_name r) (bed_chrom r) (bed_strand r)
        geneName "transcript" (bed_txStart r) (bed_txEnd r) (-1) (-1)
        (bed_exonCount r) ;
  _ ← for_io (py_range 0 (bed_exonCount r) 1)
        (emit_exon "test" (bed_name r) (bed_chrom r) (bed_strand r) geneName
           (bed_cdsStart r) cdsStart cdsEnd (bed_cdsEnd r)
           frames exonStart exonEnd (bed_exonCount r)) ;
  emit_codons "test" (bed_name r) (bed_chrom r) (bed_strand r) geneName
    first_codon last_codon (bed_exonCount r).

(** ** Output lines *)

(** [m] only appends lines that satisfy [P] and leaves [GENES] alone. *)
Definition emits {A} (P : gtf_line → Prop) (m : io A) : Prop :=
  ∀ w, ∃ new, file (m w).2 = file w ++ new ∧ Forall P new ∧
              GENES (m w).2 = GENES w.

Definition is_gene_line (g : string) (l : gtf_line) : bool :=
  String.eqb (g_type l) "gene" &&
  match g_attributes l with
  | [(k, v)] => String.eqb k "gene_id" && String.eqb v g
  | _ => false
  end.

Fixpoint count_lines (p : gtf_line → bool) (f : list gtf_line) : nat :=
  match f with
  | [] => 0
  | l :: f' => (if p l then 1 else 0) + count_lines p f'
  end.

(** The gene names of a list of records. *)
Definition gene_names (isoforms : gmap string string) (rs : list bed_record)
  : list string :=
  omap (fun r => isoforms !! bed_name r) rs.

(** Which bounds a feature line is cut from: a CDS line is an exon clipped to
    [[cdsStart, cdsEnd)] and carries the phase of that exon's entry in
    [frames]; a leading UTR line is an exon clipped at [utr_end]; a trailing
    UTR line is an exon clipped at [utr_start]. *)
Definition line_uses_bounds (strand : string) (exonStart exonEnd frames : list Z)
    (utr_end cdsStart cdsEnd utr_start : Z) (l : gtf_line) : Prop :=
  (g_type l = "CDS" →
   ∃ (x : nat) es ee fr,
     exonStart !! x = Some es ∧ exonEnd !! x = Some ee ∧
     frames !! x = Some fr ∧
     g_phase l = phase_of_frame fr ∧
     g_start l = Z.max es cdsStart + 1 ∧ g_end l = Z.min ee cdsEnd) ∧
  (g_type l = (if String.eqb strand "+" then "5UTR" else "3UTR") →
   ∃ (x : nat) es ee,
     exonStart !! x = Some es ∧ exonEnd !! x = Some ee ∧
     g_start l = es + 1 ∧ g_end l = Z.min ee utr_end) ∧
  (g_type l = (if String.eqb strand "+" then "3UTR" else "5UTR") →
   ∃ (x : nat) es ee,
     exonStart !! x = Some es ∧ exonEnd !! x = Some ee ∧
     g_start l = Z.max utr_start es + 1 ∧ g_end l = ee).

Definition lines_use_bounds (strand : string) (exonStart exonEnd frames : list Z)
    (utr_end cdsStart cdsEnd utr_start : Z) (new : list gtf_line) : Prop :=
  Forall (line_uses_bounds strand exonStart exonEnd frames
            utr_end cdsStart cdsEnd utr_start) new.

(** The error contract of the walk: a [ValueError] exactly when the start
    position is in no exon or the exons run out, and a position
    otherwise. *)
Definition fails_exactly_on_position_errors (txStart txEnd exonCount : Z)
    (exonStart exonEnd : list Z) (pos dist : Z) : Prop :=
  let r := move_pos txStart txEnd exonCount exonStart exonEnd pos dist in
  (is_value_error r ↔
   in_no_exon exonStart exonEnd pos ∨
   exons_exhausted exonStart exonEnd pos dist) ∧
  (¬ (in_no_exon exonStart exonEnd pos ∨
      exons_exhausted exonStart exonEnd pos dist) →
   ∃ p, r = Ok p).

(** ** Further notions *)

(** The CDS bases of the exons that come before exon [k] in the direction of
    transcription: the exons to its left on the plus strand, the exons to
    its right otherwise. *)
Definition preceding_cds (cdsStart cdsEnd : Z) (exonStart exonEnd : list Z)
    (strand : string) (k : nat) : Z :=
  let bases := map (fun se => overlap se.1 se.2 cdsStart cdsEnd)
                 (exon_intervals exonStart exonEnd) in
  if String.eqb strand "+" then Zsum (take k bases)
  else Zsum (drop (S k) bases).

(** The descriptors a search can return for exon [k]: nothing; one interval
    of three bases; or, for a CDS of two bases, the two-interval
    descriptor. *)
Definition first_descriptor (cdsStart cdsEnd k : Z) (codon : list Z) : Prop :=
  codon = zero_codon ∨
  (3 <= cdsEnd - cdsStart ∧ codon = [cdsStart; cdsStart + 3; 0; 0; k; 0]) ∨
  (cdsEnd - cdsStart = 2 ∧
   codon = [cdsStart; cdsEnd; cdsStart; cdsStart + 1; k + 1; k]).

Definition last_descriptor (cdsStart cdsEnd k : Z) (codon : list Z) : Prop :=
  codon = zero_codon ∨
  (3 <= cdsEnd - cdsStart ∧ codon = [cdsEnd - 3; cdsEnd; 0; 0; k; 0]) ∨
  (cdsEnd - cdsStart = 2 ∧
   codon = [cdsStart; cdsEnd; cdsStart; cdsStart + 1; k - 1; k]).

(** The bases a line covers: its start column is one-based, its end column
    is the half-open end. *)
Definition line_bases (l : gtf_line) : Z := g_end l - (g_start l - 1).

(** Consecutive exons do not overlap: an exon ends before the next one
    starts. *)
Definition exons_ordered (exonStart exonEnd : list Z) : Prop :=
  ∀ (i : nat) e s',
    exonEnd !! i = Some e → exonStart !! S i = Some s' → e <= s'.

(** The lines of [ls] are non-empty, do not overlap, come in ascending order
    and stay within [[from, to)]. *)
Fixpoint lines_in_order (from : Z) (ls : list gtf_line) (to : Z) : Prop :=
  match ls with
  | [] => from <= to
  | l :: ls' =>
      from <= g_start l - 1 ∧ g_start l - 1 < g_end l ∧
      lines_in_order (g_end l) ls' to
  end.

(** The line [build_gtf_line] writes. *)
Definition built_line (source name chrom strand geneName type_g : string)
    (start end_ exon frame exonCount : Z) : gtf_line :=
  GtfLine chrom source type_g (start + 1) end_ "." strand
    (phase_of_frame frame)
    (if 0 <=? exon then
       if String.eqb strand "-" then
         [("gene_id", geneName); ("transcript_id", name)] ++
         [("exon_number", pretty (exonCount - exon));
          ("exon_id", name +:+ "." +:+ pretty (exonCount - exon))]
       else
         [("gene_id", geneName); ("transcript_id", name)] ++
         [("exon_number", pretty (exon + 1));
          ("exon_id", name +:+ "." +:+ pretty (exon + 1))]
     else [("gene_id", geneName); ("transcript_id", name)]).

(** A record [run] is meant for: its transcript is known, it has as many
    exons as it announces and at least one, it satisfies the invariants of a
    transcript record, and its CDS lies within the span of its exons. *)
Definition well_formed_record (isoforms : gmap string string)
    (r : bed_record) : Prop :=
  is_Some (isoforms !! bed_name r) ∧
  ∃ exonStart exonEnd s0 eL,
    absolute_exons (bed_txStart r) (bed_starts r) (bed_sizes r)
    = Ok (exonStart, exonEnd) ∧
    len exonStart = bed_exonCount r ∧ 0 < bed_exonCount r ∧
    record_invariants (bed_txStart r) (bed_txEnd r)
      (bed_cdsStart r) (bed_cdsEnd r) exonStart exonEnd ∧
    head exonStart = Some s0 ∧ last exonEnd = Some eL ∧
    s0 <= bed_cdsStart r ∧ bed_cdsEnd r <= eL.

(** [m] returns normally from every state. *)
Definition succeeds (m : io unit) : Prop := ∀ w, ∃ w', m w = (Ok tt, w').

(** [m] raises only exceptions that satisfy [P]. *)
Definition raises_only {A} (P : exn → Prop) (m : io A) : Prop :=
  ∀ w e w', m w = (Raise e, w') → P e.

(** The two exceptions of the line builders and of list indexing. *)
Definition assertion_or_index (e : exn) : Prop :=
  e = AssertionError ∨ e = IndexError.

(** What each exception of [run] means. *)
Definition failure_mode (r : bed_record) (isoforms : gmap string string)
    (w w' : world) (e : exn) : Prop :=
  match e with
  | KeyError k => k = bed_name r ∧ isoforms !! bed_name r = None ∧ w' = w
  | TypeError => bed_exonCount r = 0 ∧ w' = w
  | ValueError m =>
      w' = w ∧
      ((bed_strand r = "+" ∧
        (m = cant_find (bed_cdsEnd r) ∨ m = cant_move (bed_cdsEnd r) (-3))) ∨
       (bed_strand r = "-" ∧
        (m = cant_find (bed_cdsStart r) ∨ m = cant_move (bed_cdsStart r) 3)))
  | AssertionError | IndexError => is_Some (isoforms !! bed_name r)
  end.

Fixpoint all_chars (p : ascii → bool) (s : string) : bool :=
  match s with
  | EmptyString => true
  | String c s' => p c && all_chars p s'
  end.

Fixpoint contains (c : ascii) (s : string) : bool :=
  match s with
  | EmptyString => false
  | String c' s' => Ascii.eqb c' c || contains c s'
  end.

(** A name: not empty, and free of whitespace (hence of tabs). *)
Definition is_name (s : string) : Prop :=
  s ≠ EmptyString ∧ all_chars (fun c => negb (isspace c)) s = true.

(** A line of the isoform table for the gene [g] and the transcript [t]:
    the two names separated by a tab, followed by the line end or any other
    whitespace. *)
Definition table_line (line : string) (gt : string * string) : Prop :=
  ∃ ws, all_chars isspace ws = true ∧
        line = gt.1 +:+ String tab_char (gt.2 +:+ ws).

(** A line that is neither a header nor a pair of fields. *)
Definition tabless (line : string) : Prop :=
  startswith line "Gene" = false ∧ contains tab_char (strip line) = false.

(** The bases covered by the lines of type [ty]. *)
Fixpoint bases_of (ty : string) (f : list gtf_line) : Z :=
  match f with
  | [] => 0
  | l :: f' =>
      (if String.eqb (g_type l) ty then line_bases l else 0) + bases_of ty f'
  end.

(** [m] succeeds, leaves [GENES] alone, and the lines it appends hold [c]
    CDS bases and [s] stop-codon bases. *)
Definition tally (m : io unit) (c s : Z) : Prop :=
  ∀ w, ∃ new,
    m w = (Ok tt, World (file w ++ new) (GENES w)) ∧
    bases_of "CDS" new = c ∧ bases_of "stop_codon" new = s.

(** The exon bases to the left of [x]. *)
Definition bases_before (x : Z) (exons : list (Z * Z)) : Z :=
  Zsum (map (fun se => Z.max 0 (Z.min se.2 x - se.1)) exons).

(** * Properties *)

(** ** Python primitives *)

Lemma getitem_nat {A} (l : list A) (n : nat) :
  getitem l (Z.of_nat n) =
  match l !! n with Some x => Ok x | None => Raise IndexError end.
Proof.
  unfold getitem.
  destruct (Z.ltb_spec (Z.of_nat n) 0) as [Hneg|_]; [lia|].
  destruct (Z.ltb_spec (Z.of_nat n) 0) as [Hneg|_]; [lia|].
  by rewrite Nat2Z.id.
Qed.

Lemma getitem_lookup {A} (l : list A) (i : Z) (x : A) :
  0 <= i → l !! Z.to_nat i = Some x → getitem l i = Ok x.
Proof.
  intros Hi Hl. rewrite <- (Z2Nat.id i Hi), getitem_nat. by rewrite Hl.
Qed.

Lemma getitem_Ok_inv {A} (l : list A) (i : Z) (x : A) :
  0 <= i → getitem l i = Ok x → l !! Z.to_nat i = Some x.
Proof.
  intros Hi. rewrite <- (Z2Nat.id i Hi) at 1. rewrite getitem_nat.
  destruct (l !! Z.to_nat i); congruence.
Qed.

(** Indexing into a list whose shape is known. *)
Ltac eval_getitem :=
  repeat match goal with
         | |- context [getitem ?l ?i] =>
             let r := eval cbv in (getitem l i) in
             change (getitem l i) with r
         end.

(** ** The line builders *)

Lemma build_gtf_line_ok source name chrom strand geneName type_g
    start end_ exon frame exonCount w :
  start <= end_ →
  build_gtf_line source name chrom strand geneName type_g
    start end_ exon frame exonCount w =
  (Ok tt,
   World (file w ++
     [GtfLine chrom source type_g (start + 1) end_ "." strand
        (phase_of_frame frame)
        (if 0 <=? exon then
           if String.eqb strand "-" then
             [("gene_id", geneName); ("transcript_id", name)] ++
             [("exon_number", pretty (exonCount - exon));
              ("exon_id", name +:+ "." +:+ pretty (exonCount - exon))]
           else
             [("gene_id", geneName); ("transcript_id", name)] ++
             [("exon_number", pretty (exon + 1));
              ("exon_id", name +:+ "." +:+ pretty (exon + 1))]
         else [("gene_id", geneName); ("transcript_id", name)])])
     (GENES w)).
Proof.
  intros Hle. unfold build_gtf_line, assert, lift, write, mbind, io_bind.
  apply Z.leb_le in Hle. by rewrite Hle.
Qed.

Lemma build_gtf_line_fail source name chrom strand geneName type_g
    start end_ exon frame exonCount w :
  end_ < start →
  build_gtf_line source name chrom strand geneName type_g
    start end_ exon frame exonCount w = (Raise AssertionError, w).
Proof.
  intros Hlt. unfold build_gtf_line, assert, lift, write, mbind, io_bind.
  apply Z.leb_gt in Hlt. by rewrite Hlt.
Qed.

(** C8: the phase column of a line written by [build_gtf_line] is the fixed
    lookup of the frame passed for that line: frame -1 gives ".", frame 0
    gives "0", frame 1 gives "2" and frame 2 gives "1". *)
Theorem phase_column_is_fixed_lookup :
  ∀ source name chrom strand geneName type_g start end_ exon frame
    exonCount w w',
    build_gtf_line source name chrom strand geneName type_g
      start end_ exon frame exonCount w = (Ok tt, w') →
    ∃ l, file w' = file w ++ [l] ∧
         g_type l = type_g ∧
         (frame = -1 → g_phase l = ".") ∧
         (frame = 0 → g_phase l = "0") ∧
         (frame = 1 → g_phase l = "2") ∧
         (frame = 2 → g_phase l = "1").
Proof.
  intros source name chrom strand geneName type_g start end_ exon frame
    exonCount w w' Hrun.
  destruct (Z.le_gt_cases start end_) as [Hle|Hgt].
  - rewrite build_gtf_line_ok in Hrun by done.
    injection Hrun as <-. eexists. split; [done|]. cbn.
    repeat split; intros ->; reflexivity.
  - rewrite build_gtf_line_fail in Hrun by lia. discriminate.
Qed.

Lemma phase_column_is_fixed_lookup_witness :
  let w' := World [GtfLine "chr1" "test" "CDS" 1 297 "." "+" "2"
                     [("gene_id", "g1"); ("transcript_id", "tx1");
                      ("exon_number", "1"); ("exon_id", "tx1.1")]] ∅ in
  build_gtf_line "test" "tx1" "chr1" "+" "g1" "CDS" 0 297 0 1 1 (World [] ∅)
    = (Ok tt, w') ∧
  ∃ l, file w' = [] ++ [l] ∧
       g_type l = "CDS" ∧
       ((1 : Z) = -1 → g_phase l = ".") ∧
       ((1 : Z) = 0 → g_phase l = "0") ∧
       ((1 : Z) = 1 → g_phase l = "2") ∧
       ((1 : Z) = 2 → g_phase l = "1").
Proof.
  split; [reflexivity|].
  apply (phase_column_is_fixed_lookup "test" "tx1" "chr1" "+" "g1" "CDS"
           0 297 0 1 1 (World [] ∅)).
  reflexivity.
Defined.

Lemma write_codon_split source name chrom strand geneName type_g
    c0 c1 c2 c3 c4 c5 exonCount w :
  c2 < c3 →
  write_codon source name chrom strand geneName type_g
    [c0; c1; c2; c3; c4; c5] exonCount w =
  (_ ← build_gtf_line source name chrom strand geneName type_g
         c0 c1 c4 0 exonCount ;
   build_gtf_line source name chrom strand geneName type_g
     c2 c1 c5 (c1 - c0) exonCount) w.
Proof.
  intros Hlt. apply Z.ltb_lt in Hlt.
  unfold write_codon. eval_getitem.
  unfold when, lift, mbind, io_bind.
  destruct (build_gtf_line _ _ _ _ _ _ c0 c1 c4 0 _ w) as [[[]|e] w1];
    [|done].
  by rewrite Hlt.
Qed.

(** C10: when the second interval of a codon descriptor is non-empty
    ([codon[2] < codon[3]]), the second record written by [write_codon]
    starts at [codon[2]] and ends at [codon[1]], the end of the first
    interval (not at [codon[3]]), and the frame passed for it is the length
    of the first interval, [codon[1] - codon[0]]. *)
Theorem write_codon_second_record :
  ∀ source name chrom strand geneName type_g c0 c1 c2 c3 c4 c5 exonCount
    w w',
    c2 < c3 →
    write_codon source name chrom strand geneName type_g
      [c0; c1; c2; c3; c4; c5] exonCount w = (Ok tt, w') →
    ∃ w1 l1 l2,
      build_gtf_line source name chrom strand geneName type_g
        c0 c1 c4 0 exonCount w = (Ok tt, w1) ∧
      build_gtf_line source name chrom strand geneName type_g
        c2 c1 c5 (c1 - c0) exonCount w1 = (Ok tt, w') ∧
      file w' = file w ++ [l1; l2] ∧
      g_type l2 = type_g ∧
      g_start l2 = c2 + 1 ∧
      g_end l2 = c1 ∧
      g_phase l2 = phase_of_frame (c1 - c0).
Proof.
  intros source name chrom strand geneName type_g c0 c1 c2 c3 c4 c5
    exonCount w w' Hlt Hrun.
  rewrite write_codon_split in Hrun by done.
  unfold mbind, io_bind in Hrun.
  destruct (Z.le_gt_cases c0 c1) as [H01|H01];
    [|rewrite build_gtf_line_fail in Hrun by lia; discriminate].
  rewrite build_gtf_line_ok in Hrun by done.
  destruct (Z.le_gt_cases c2 c1) as [H21|H21];
    [|rewrite build_gtf_line_fail in Hrun by lia; discriminate].
  rewrite build_gtf_line_ok in Hrun by done.
  injection Hrun as <-.
  eexists _, _, _. rewrite (build_gtf_line_ok _ _ _ _ _ _ c0) by done.
  split; [reflexivity|].
  rewrite build_gtf_line_ok by done.
  split; [reflexivity|].
  cbn. rewrite <- app_assoc. done.
Qed.

Lemma write_codon_second_record_witness :
  let l1 := GtfLine "chr1" "test" "start_codon" 11 12 "." "-" "0"
              [("gene_id", "g1"); ("transcript_id", "tx1")] in
  let l2 := GtfLine "chr1" "test" "start_codon" 11 12 "." "-" "1"
              [("gene_id", "g1"); ("transcript_id", "tx1");
               ("exon_number", "1"); ("exon_id", "tx1.1")] in
  (10 < 11) ∧
  write_codon "test" "tx1" "chr1" "-" "g1" "start_codon"
    [10; 12; 10; 11; -1; 0] 1 (World [] ∅) = (Ok tt, World [l1; l2] ∅) ∧
  ∃ w1 l1' l2',
    build_gtf_line "test" "tx1" "chr1" "-" "g1" "start_codon"
      10 12 (-1) 0 1 (World [] ∅) = (Ok tt, w1) ∧
    build_gtf_line "test" "tx1" "chr1" "-" "g1" "start_codon"
      10 12 0 (12 - 10) 1 w1 = (Ok tt, World [l1; l2] ∅) ∧
    file (World [l1; l2] ∅) = [] ++ [l1'; l2'] ∧
    g_type l2' = "start_codon" ∧
    g_start l2' = 10 + 1 ∧
    g_end l2' = 12 ∧
    g_phase l2' = phase_of_frame (12 - 10).
Proof.
  intros l1 l2. split; [lia|]. split; [reflexivity|].
  apply (write_codon_second_record "test" "tx1" "chr1" "-" "g1" "start_codon"
           10 12 10 11 (-1) 0 1 (World [] ∅) (World [l1; l2] ∅));
    [lia | reflexivity].
Defined.

(** ** The coordinate walker *)

Lemma py_range_up (n : Z) :
  py_range 0 n 1 = map Z.of_nat (seq 0 (Z.to_nat n)).
Proof.
  unfold py_range. cbn [Z.ltb Z.compare].
  replace ((n - 0 + 1 - 1) / 1) with n by (rewrite Z.div_1_r; lia).
  apply map_ext. intros k. lia.
Qed.

Lemma py_range_down (n : nat) :
  py_range (Z.of_nat n - 1) (-1) (-1) = map Z.of_nat (rev (seq 0 n)).
Proof.
  unfold py_range. cbn [Z.ltb Z.compare].
  replace ((Z.of_nat n - 1 - -1 - -1 - 1) / - (-1)) with (Z.of_nat n)
    by (change (- (-1)) with 1; rewrite Z.div_1_r; lia).
  rewrite Nat2Z.id.
  induction n as [|n IH]; [done|].
  rewrite seq_S at 2. rewrite rev_app_distr. cbn [rev app map Nat.add].
  rewrite <- IH. cbn [seq map]. f_equal; [lia|].
  rewrite <- seq_shift, map_map. apply map_ext. intros k. lia.
Qed.

Lemma getitem_raise {A} (l : list A) i e :
  getitem l i = Raise e → e = IndexError.
Proof.
  unfold getitem. destruct (_ <? 0); [congruence|].
  destruct (l !! _); congruence.
Qed.

Lemma in_exon_raise exon pos exonStart exonEnd e :
  in_exon exon pos exonStart exonEnd = Raise e → e = IndexError.
Proof.
  unfold in_exon, mbind, result_bind.
  destruct (getitem exonStart exon) as [s|e'] eqn:Hs.
  - destruct (s <=? pos); [|congruence].
    destruct (getitem exonEnd exon) as [x|e''] eqn:He; [congruence|].
    intros [= <-]. by eapply getitem_raise.
  - intros [= <-]. by eapply getitem_raise.
Qed.

Lemma in_exon_lookup (i : nat) pos exonStart exonEnd s e :
  exonStart !! i = Some s → exonEnd !! i = Some e →
  in_exon (Z.of_nat i) pos exonStart exonEnd
  = Ok ((s <=? pos) && (pos <=? e)).
Proof.
  intros Hs He. unfold in_exon, mbind, result_bind.
  rewrite !getitem_nat, Hs, He. by destruct (s <=? pos).
Qed.

Lemma in_exon_true_iff (i : nat) pos exonStart exonEnd :
  in_exon (Z.of_nat i) pos exonStart exonEnd = Ok true ↔
  lies_in exonStart exonEnd pos i.
Proof.
  split.
  - unfold in_exon, mbind, result_bind. rewrite !getitem_nat.
    destruct (exonStart !! i) as [s|] eqn:Hs; [|done].
    destruct (Z.leb_spec s pos); [|done].
    destruct (exonEnd !! i) as [e|] eqn:He; [|done].
    intros [= Hpe]. apply Z.leb_le in Hpe. exists s, e. by repeat split.
  - intros (s & e & Hs & He & Hse).
    rewrite (in_exon_lookup _ _ _ _ s e) by done.
    f_equal. apply andb_true_intro. split; lia.
Qed.

Lemma move_body_raise exonCount exonStart exonEnd direction w e :
  move_body exonCount exonStart exonEnd direction w = Raise e →
  e = IndexError.
Proof.
  destruct w as [exon pos steps]. unfold move_body, mbind, result_bind.
  destruct (in_exon _ _ _ _) as [[]|e'] eqn:Hin; [done| |].
  - destruct (0 <=? direction).
    + destruct (_ <? _); [|done].
      destruct (getitem exonStart _) eqn:Hg; [done|].
      intros [= <-]. by eapply getitem_raise.
    + destruct (0 <=? _); [|done].
      destruct (getitem exonEnd _) eqn:Hg; [done|].
      intros [= <-]. by eapply getitem_raise.
  - intros [= <-]. by eapply in_exon_raise.
Qed.

Lemma while_loop_raise {S} (P : exn → Prop) cond (body : S → result S) :
  (∀ s e, body s = Raise e → P e) →
  ∀ fuel s e, while_loop fuel cond body s = Raise e → P e.
Proof.
  intros Hbody. induction fuel as [|fuel IH]; intros s e; cbn; [done|].
  destruct (cond s); [|done].
  unfold mbind, result_bind.
  destruct (body s) as [s'|e'] eqn:Hb.
  - apply IH.
  - intros [= <-]. by eapply Hbody.
Qed.

Lemma find_exon_body_eq exonStart exonEnd pos acc i (b : bool) :
  in_exon i pos exonStart exonEnd = Ok b →
  find_exon_body exonStart exonEnd pos acc i
  = Ok (if b then Break (Some i) else Continue acc).
Proof.
  intros Hb. unfold find_exon_body, mbind, result_bind. rewrite Hb.
  by destruct b.
Qed.

(** The search loop stops at the first exon holding [pos]. *)
Lemma find_exon_finds exonStart exonEnd pos acc (m a i : nat) :
  (a <= i < a + m)%nat →
  in_exon (Z.of_nat i) pos exonStart exonEnd = Ok true →
  (∀ j, (a <= j < i)%nat →
        ∃ b, in_exon (Z.of_nat j) pos exonStart exonEnd = Ok b) →
  ∃ k, (a <= k <= i)%nat ∧
       for_loop (find_exon_body exonStart exonEnd pos) acc
         (map Z.of_nat (seq a m)) = Ok (inl (Some (Z.of_nat k))) ∧
       in_exon (Z.of_nat k) pos exonStart exonEnd = Ok true ∧
       ∀ j, (a <= j < k)%nat →
            in_exon (Z.of_nat j) pos exonStart exonEnd = Ok false.
Proof.
  revert a acc. induction m as [|m IH]; intros a acc Hi Htrue Hprev; [lia|].
  cbn [seq map for_loop].
  destruct (decide (a = i)) as [Heq|Hne].
  - subst i. rewrite (find_exon_body_eq _ _ _ _ _ _ Htrue).
    exists a. repeat split; [lia..|done|intros; lia].
  - destruct (Hprev a) as [b Hb]; [lia|].
    rewrite (find_exon_body_eq _ _ _ _ _ _ Hb).
    unfold mbind, result_bind. destruct b.
    + exists a. repeat split; [lia..|done|intros; lia].
    + destruct (IH (S a) acc) as (k & Hk & Hloop & Hkt & Hkf);
        [lia|done|intros; apply Hprev; lia|].
      exists k. repeat split; [lia..|done|done|].
      intros j Hj. destruct (decide (j = a)) as [->|]; [done|].
      apply Hkf. lia.
Qed.

Lemma find_exon_none exonStart exonEnd pos acc (m a : nat) :
  (∀ j, (a <= j < a + m)%nat →
        in_exon (Z.of_nat j) pos exonStart exonEnd = Ok false) →
  for_loop (find_exon_body exonStart exonEnd pos) acc
    (map Z.of_nat (seq a m)) = Ok (inl acc).
Proof.
  revert a. induction m as [|m IH]; intros a Hall; [done|].
  cbn [seq map for_loop].
  rewrite (find_exon_body_eq _ _ _ _ _ false) by (apply Hall; lia).
  apply IH. intros; apply Hall; lia.
Qed.

Lemma while_loop_done {S} fuel cond (body : S → result S) s :
  cond s = false → while_loop fuel cond body s = Ok s.
Proof. intros Hc. destruct fuel; cbn; [done|]. by rewrite Hc. Qed.

Lemma while_loop_step {S} fuel cond (body : S → result S) s s' :
  cond s = true → body s = Ok s' →
  while_loop (Datatypes.S fuel) cond body s = while_loop fuel cond body s'.
Proof. intros Hc Hb. cbn. by rewrite Hc, Hb. Qed.

(** The measure that justifies [move_fuel]: the steps left plus the exons
    left in the walking direction. *)
Lemma move_body_decreases exonCount exonStart exonEnd direction w w' :
  move_cond exonCount w = true →
  move_body exonCount exonStart exonEnd direction w = Ok w' →
  let measure w :=
    w_steps w + (if 0 <=? direction then exonCount - w_exon w
                 else w_exon w + 1) in
  0 <= w_steps w' ∧ -1 <= w_exon w' <= exonCount ∧ measure w' < measure w.
Proof.
  destruct w as [exon pos steps]. unfold move_cond, move_body; cbn.
  intros Hc. apply andb_prop in Hc as [Hc Hsteps].
  apply andb_prop in Hc as [Hlo Hhi].
  apply Z.leb_le in Hlo. apply Z.ltb_lt in Hhi. apply Z.ltb_lt in Hsteps.
  unfold mbind, result_bind.
  destruct (in_exon _ _ _ _) as [[]|]; [| |done].
  - intros [= <-]; cbn. destruct (0 <=? direction); lia.
  - destruct (Z.leb_spec 0 direction).
    + destruct (Z.ltb_spec (exon + 1) exonCount).
      * destruct (getitem exonStart _); [|done]. intros [= <-]; cbn. lia.
      * intros [= <-]; cbn. lia.
    + destruct (Z.leb_spec 0 (exon - 1)).
      * destruct (getitem exonEnd _); [|done]. intros [= <-]; cbn. lia.
      * intros [= <-]; cbn. lia.
Qed.

(** With [move_fuel] iterations the loop of [move_pos] always reaches its
    exit test: the state it returns fails the loop condition. *)
Lemma move_loop_exits exonCount exonStart exonEnd direction :
  ∀ fuel w w',
    0 <= w_steps w → -1 <= w_exon w <= exonCount →
    w_steps w + (if 0 <=? direction then exonCount - w_exon w
                 else w_exon w + 1) <= Z.of_nat fuel →
    while_loop fuel (move_cond exonCount)
      (move_body exonCount exonStart exonEnd direction) w = Ok w' →
    move_cond exonCount w' = false.
Proof.
  induction fuel as [|fuel IH]; intros w w' Hs He Hm.
  - cbn. intros [= <-]. unfold move_cond.
    destruct (Z.leb_spec 0 (w_exon w)), (Z.ltb_spec (w_exon w) exonCount),
      (Z.ltb_spec 0 (w_steps w)); try done.
    destruct (0 <=? direction); lia.
  - cbn [while_loop].
    destruct (move_cond exonCount w) eqn:Hc; [|by intros [= <-]].
    unfold mbind, result_bind.
    destruct (move_body _ _ _ _ w) as [w1|] eqn:Hb; [|done].
    destruct (move_body_decreases _ _ _ _ _ _ Hc Hb) as (Hs1 & He1 & Hdec).
    apply IH; [done..|]. cbn in Hdec. lia.
Qed.

Lemma move_fuel_enough exonCount exonStart exonEnd direction exon pos dist w' :
  0 <= exon < exonCount →
  while_loop (move_fuel exonCount (Z.abs dist)) (move_cond exonCount)
    (move_body exonCount exonStart exonEnd direction)
    (Walk exon pos (Z.abs dist)) = Ok w' →
  move_cond exonCount w' = false.
Proof.
  intros Hexon. apply move_loop_exits; cbn; [lia..|].
  unfold move_fuel. destruct (0 <=? direction); lia.
Qed.

Lemma Zsum_app l1 l2 : Zsum (l1 ++ l2) = Zsum l1 + Zsum l2.
Proof. unfold Zsum. induction l1 as [|x l1 IH]; cbn; lia. Qed.

Lemma Zsum_cons x l : Zsum (x :: l) = x + Zsum l.
Proof. reflexivity. Qed.

Lemma Zsum_nonneg l : Forall (fun x => 0 <= x) l → 0 <= Zsum l.
Proof. unfold Zsum. induction 1; cbn; lia. Qed.

Section Walk.
Variables (exonCount : Z) (exonStart exonEnd : list Z).
Hypothesis Hwf : exons_wf exonCount exonStart exonEnd.

Let lens := exon_lengths exonStart exonEnd.

Lemma wf_lookup (k : nat) :
  Z.of_nat k < exonCount →
  ∃ s e, exonStart !! k = Some s ∧ exonEnd !! k = Some e ∧ s < e ∧
         lens !! k = Some (e - s).
Proof using Hwf.
  destruct Hwf as (Hls & Hle & Hlt). unfold len in *. intros Hk.
  destruct (lookup_lt_is_Some_2 exonStart k) as [s Hs]; [lia|].
  destruct (lookup_lt_is_Some_2 exonEnd k) as [e He]; [lia|].
  exists s, e. repeat split; [done..|by eapply Hlt|].
  unfold lens, exon_lengths. rewrite lookup_zip_with, Hs. cbn. by rewrite He.
Qed.

Lemma wf_lookup_lt (k : nat) s :
  exonStart !! k = Some s → Z.of_nat k < exonCount.
Proof using Hwf.
  destruct Hwf as (Hls & _). unfold len in *. intros Hs.
  apply lookup_lt_Some in Hs. lia.
Qed.

Lemma lens_nonneg : Forall (fun x => 0 <= x) lens.
Proof using Hwf.
  apply Forall_lookup. intros k x Hx.
  assert (Hk : Z.of_nat k < exonCount).
  { destruct Hwf as (Hls & _). unfold len in *.
    apply lookup_lt_Some in Hx. unfold lens, exon_lengths in Hx.
    rewrite length_zip_with in Hx. lia. }
  destruct (wf_lookup k Hk) as (s & e & _ & _ & Hlt & Hl).
  rewrite Hl in Hx. injection Hx as <-. lia.
Qed.

Lemma lens_length : length lens = Z.to_nat exonCount.
Proof using Hwf.
  destruct Hwf as (Hls & Hle & _). unfold len in *.
  unfold lens, exon_lengths. rewrite length_zip_with. lia.
Qed.
Lemma at_offset_intro (k : nat) pos s e off :
  exonStart !! k = Some s → exonEnd !! k = Some e → s <= pos <= e →
  Zsum (take k lens) + (pos - s) = off →
  at_offset exonStart exonEnd pos off.
Proof.
  intros Hs He Hpos Hoff. exists k. split; [by exists s, e|].
  unfold transcript_offset. by rewrite (list_lookup_total_correct _ _ _ Hs).
Qed.

Lemma walk_forward fuel :
  ∀ (k : nat) pos steps s e,
    exonStart !! k = Some s → exonEnd !! k = Some e →
    s <= pos <= e → 0 <= steps →
    steps + (exonCount - Z.of_nat k) <= Z.of_nat fuel →
    ∃ w', while_loop fuel (move_cond exonCount)
            (move_body exonCount exonStart exonEnd 1)
            (Walk (Z.of_nat k) pos steps) = Ok w' ∧
          (steps <= (e - pos) + Zsum (drop (S k) lens) →
           w_steps w' = 0 ∧
           at_offset exonStart exonEnd (w_pos w')
             (Zsum (take k lens) + (pos - s) + steps)) ∧
          ((e - pos) + Zsum (drop (S k) lens) < steps → 0 < w_steps w').
Proof using Hwf.
  induction fuel as [|fuel IH]; intros k pos steps s e Hs He Hpos Hsteps Hm.
  { pose proof (wf_lookup_lt k s Hs). lia. }
  pose proof (wf_lookup_lt k s Hs) as Hk.
  assert (Hrest : 0 <= Zsum (drop (S k) lens)).
  { apply Zsum_nonneg, Forall_drop, lens_nonneg. }
  destruct (Z.ltb_spec 0 steps) as [Hpos_steps|Hzero].
  2:{ exists (Walk (Z.of_nat k) pos steps).
      rewrite while_loop_done; [|unfold move_cond; cbn; lia].
      cbn. split_and!; [done| |lia].
      intros _. split; [lia|]. apply (at_offset_intro k pos s e); [done..|lia]. }
  assert (Hc : move_cond exonCount (Walk (Z.of_nat k) pos steps) = true).
  { unfold move_cond; cbn. lia. }
  destruct (Z.le_gt_cases (pos + 1) e) as [Hin|Hout].
  - (* the next base is still in exon [k] *)
    assert (Hb : move_body exonCount exonStart exonEnd 1
                   (Walk (Z.of_nat k) pos steps)
                 = Ok (Walk (Z.of_nat k) (pos + 1) (steps - 1))).
    { unfold move_body. rewrite (in_exon_lookup _ _ _ _ s e) by done.
      replace ((s <=? pos + 1) && (pos + 1 <=? e)) with true by lia.
      done. }
    rewrite (while_loop_step _ _ _ _ _ Hc Hb).
    destruct (IH k (pos + 1) (steps - 1) s e) as (w' & Hw & Hle & Hgt);
      [done|done|lia|lia|lia|].
    exists w'. split_and!; [done| |intros; apply Hgt; lia].
    intros Hreach. destruct Hle as [Hzero Hat]; [lia|]. split; [done|].
    by replace (Zsum (take k lens) + (pos - s) + steps)
      with (Zsum (take k lens) + (pos + 1 - s) + (steps - 1)) by lia.
  - (* [pos] is the end of exon [k]: jump to the next exon *)
    assert (Hpe : pos = e) by lia. subst pos.
    destruct (Z.ltb_spec (Z.of_nat k + 1) exonCount) as [Hnext|Hlast].
    + destruct (wf_lookup (S k)) as (s' & e' & Hs' & He' & Hlt' & Hl');
        [lia|].
      destruct (wf_lookup k) as (s0 & e0 & Hs0 & He0 & _ & Hl); [lia|].
      assert (s0 = s) as -> by congruence.
      assert (e0 = e) as -> by congruence.
      assert (Hb : move_body exonCount exonStart exonEnd 1
                     (Walk (Z.of_nat k) e steps)
                   = Ok (Walk (Z.of_nat (S k)) s' steps)).
      { unfold move_body. rewrite (in_exon_lookup _ _ _ _ s e) by done.
        replace ((s <=? e + 1) && (e + 1 <=? e)) with false by lia.
        cbn [mbind result_bind Z.leb Z.compare].
        replace (Z.of_nat k + 1 <? exonCount) with true by lia.
        replace (Z.of_nat k + 1) with (Z.of_nat (S k)) by lia.
        by rewrite getitem_nat, Hs'. }
      rewrite (while_loop_step _ _ _ _ _ Hc Hb).
      destruct (IH (S k) s' steps s' e') as (w' & Hw & Hle & Hgt);
        [done|done|lia|lia|lia|].
      rewrite (drop_S lens _ (S k) Hl'), Zsum_cons.
      rewrite (take_S_r lens _ _ Hl), Zsum_app, Zsum_cons in Hle.
      change (Zsum []) with 0 in Hle.
      exists w'. split_and!; [done| |intros; apply Hgt; lia].
      intros Hreach. destruct Hle as [Hzero Hat]; [lia|]. split; [done|].
      by replace (Zsum (take k lens) + (e - s) + steps)
        with (Zsum (take k lens) + ((e - s) + 0) + (s' - s') + steps) by lia.
    + assert (Hb : move_body exonCount exonStart exonEnd 1
                     (Walk (Z.of_nat k) e steps)
                   = Ok (Walk (Z.of_nat k + 1) e steps)).
      { unfold move_body. rewrite (in_exon_lookup _ _ _ _ s e) by done.
        replace ((s <=? e + 1) && (e + 1 <=? e)) with false by lia.
        cbn [mbind result_bind Z.leb Z.compare].
        by replace (Z.of_nat k + 1 <? exonCount) with false by lia. }
      rewrite (while_loop_step _ _ _ _ _ Hc Hb).
      rewrite while_loop_done; [|unfold move_cond; cbn; lia].
      rewrite drop_ge by (rewrite lens_length; lia).
      eexists. split; [done|]. change (Zsum []) with 0. cbn. split; lia.
Qed.

Lemma walk_backward fuel :
  ∀ (k : nat) pos steps s e,
    exonStart !! k = Some s → exonEnd !! k = Some e →
    s <= pos <= e → 0 <= steps →
    steps + Z.of_nat k + 1 <= Z.of_nat fuel →
    ∃ w', while_loop fuel (move_cond exonCount)
            (move_body exonCount exonStart exonEnd (-1))
            (Walk (Z.of_nat k) pos steps) = Ok w' ∧
          (steps <= (pos - s) + Zsum (take k lens) →
           w_steps w' = 0 ∧
           at_offset exonStart exonEnd (w_pos w')
             (Zsum (take k lens) + (pos - s) - steps)) ∧
          ((pos - s) + Zsum (take k lens) < steps → 0 < w_steps w').
Proof using Hwf.
  induction fuel as [|fuel IH]; intros k pos steps s e Hs He Hpos Hsteps Hm.
  { lia. }
  pose proof (wf_lookup_lt k s Hs) as Hk.
  assert (Hrest : 0 <= Zsum (take k lens)).
  { apply Zsum_nonneg, Forall_take, lens_nonneg. }
  destruct (Z.ltb_spec 0 steps) as [Hpos_steps|Hzero].
  2:{ exists (Walk (Z.of_nat k) pos steps).
      rewrite while_loop_done; [|unfold move_cond; cbn; lia].
      cbn. split_and!; [done| |lia].
      intros _. split; [lia|]. apply (at_offset_intro k pos s e); [done..|lia]. }
  assert (Hc : move_cond exonCount (Walk (Z.of_nat k) pos steps) = true).
  { unfold move_cond; cbn. lia. }
  destruct (Z.le_gt_cases s (pos + -1)) as [Hin|Hout].
  - (* the previous base is still in exon [k] *)
    assert (Hb : move_body exonCount exonStart exonEnd (-1)
                   (Walk (Z.of_nat k) pos steps)
                 = Ok (Walk (Z.of_nat k) (pos + -1) (steps - 1))).
    { unfold move_body. rewrite (in_exon_lookup _ _ _ _ s e) by done.
      replace ((s <=? pos + -1) && (pos + -1 <=? e)) with true by lia.
      done. }
    rewrite (while_loop_step _ _ _ _ _ Hc Hb).
    destruct (IH k (pos + -1) (steps - 1) s e) as (w' & Hw & Hle & Hgt);
      [done|done|lia|lia|lia|].
    exists w'. split_and!; [done| |intros; apply Hgt; lia].
    intros Hreach. destruct Hle as [Hzero Hat]; [lia|]. split; [done|].
    by replace (Zsum (take k lens) + (pos - s) - steps)
      with (Zsum (take k lens) + (pos + -1 - s) - (steps - 1)) by lia.
  - (* [pos] is the start of exon [k]: jump to the previous exon *)
    assert (Hps : pos = s) by lia. subst pos.
    destruct k as [|k].
    + assert (Hb : move_body exonCount exonStart exonEnd (-1)
                     (Walk (Z.of_nat 0) s steps)
                   = Ok (Walk (-1) s steps)).
      { unfold move_body. rewrite (in_exon_lookup _ _ _ _ s e) by done.
        by replace ((s <=? s + -1) && (s + -1 <=? e)) with false by lia. }
      rewrite (while_loop_step _ _ _ _ _ Hc Hb).
      rewrite while_loop_done; [|unfold move_cond; cbn; lia].
      eexists. split; [done|]. change (Zsum (take 0 lens)) with 0.
      cbn. split; lia.
    + destruct (wf_lookup k) as (s' & e' & Hs' & He' & Hlt' & Hl'); [lia|].
      assert (Hb : move_body exonCount exonStart exonEnd (-1)
                     (Walk (Z.of_nat (S k)) s steps)
                   = Ok (Walk (Z.of_nat k) (e' - 1) (steps - 1))).
      { unfold move_body. rewrite (in_exon_lookup _ _ _ _ s e) by done.
        replace ((s <=? s + -1) && (s + -1 <=? e)) with false by lia.
        cbn [mbind result_bind Z.leb Z.compare].
        replace (Z.of_nat (S k) - 1) with (Z.of_nat k) by lia.
        replace (0 <=? Z.of_nat k) with true by lia.
        by rewrite getitem_nat, He'. }
      rewrite (while_loop_step _ _ _ _ _ Hc Hb).
      destruct (IH k (e' - 1) (steps - 1) s' e') as (w' & Hw & Hle & Hgt);
        [done|done|lia|lia|lia|].
      rewrite (take_S_r lens _ _ Hl'), Zsum_app, Zsum_cons.
      change (Zsum []) with 0.
      exists w'. split_and!; [done| |intros; apply Hgt; lia].
      intros Hreach. destruct Hle as [Hzero Hat]; [lia|]. split; [done|].
      by replace (Zsum (take k lens) + (e' - s' + 0) + (s - s) - steps)
        with (Zsum (take k lens) + (e' - 1 - s') - (steps - 1)) by lia.
Qed.
End Walk.

Lemma first_exon_unique exonStart exonEnd pos k k' :
  first_exon_of exonStart exonEnd pos k →
  first_exon_of exonStart exonEnd pos k' → k = k'.
Proof.
  intros [Hk Hmin] [Hk' Hmin'].
  destruct (lt_eq_lt_dec k k') as [[Hlt|Heq]|Hgt]; [|done|].
  - by destruct (Hmin' k Hlt).
  - by destruct (Hmin k' Hgt).
Qed.

Lemma in_exon_total exonCount exonStart exonEnd pos (j : nat) :
  exons_wf exonCount exonStart exonEnd → Z.of_nat j < exonCount →
  ∃ b, in_exon (Z.of_nat j) pos exonStart exonEnd = Ok b.
Proof.
  intros Hwf Hj.
  destruct (wf_lookup _ _ _ Hwf j Hj) as (s & e & Hs & He & _).
  eexists. by apply in_exon_lookup.
Qed.

Lemma find_exon_dec exonStart exonEnd pos (m : nat) :
  (∀ j, (j < m)%nat → ∃ b, in_exon (Z.of_nat j) pos exonStart exonEnd = Ok b) →
  (∀ j, (j < m)%nat → in_exon (Z.of_nat j) pos exonStart exonEnd = Ok false) ∨
  (∃ i, (i < m)%nat ∧ in_exon (Z.of_nat i) pos exonStart exonEnd = Ok true).
Proof.
  induction m as [|m IH]; intros Hall; [left; intros; lia|].
  destruct IH as [Hnone|(i & Hi & Ht)]; [intros; apply Hall; lia| |].
  - destruct (Hall m) as [[] Hb]; [lia| |].
    + right. exists m. split; [lia|done].
    + left. intros j Hj. destruct (decide (j = m)) as [->|]; [done|].
      apply Hnone. lia.
  - right. exists i. split; [lia|done].
Qed.

(** The three outcomes of [move_pos] once its entry assertion holds. *)
Lemma move_pos_cases txStart txEnd exonCount exonStart exonEnd pos dist :
  exons_wf exonCount exonStart exonEnd →
  txStart <= pos <= txEnd →
  let r := move_pos txStart txEnd exonCount exonStart exonEnd pos dist in
  (in_no_exon exonStart exonEnd pos ∧ r = Raise (ValueError (cant_find pos))) ∨
  (∃ k, first_exon_of exonStart exonEnd pos k ∧
        reach exonStart exonEnd dist k pos < Z.abs dist ∧
        r = Raise (ValueError (cant_move pos dist))) ∨
  (∃ k p, first_exon_of exonStart exonEnd pos k ∧
          Z.abs dist <= reach exonStart exonEnd dist k pos ∧
          r = Ok p ∧
          at_offset exonStart exonEnd p
            (transcript_offset exonStart exonEnd k pos + dist)).
Proof.
  intros Hwf Htx r. subst r. unfold move_pos.
  replace ((txStart <=? pos) && (pos <=? txEnd)) with true by lia.
  cbn [negb]. rewrite py_range_up.
  destruct (find_exon_dec exonStart exonEnd pos (Z.to_nat exonCount))
    as [Hnone|(i & Hi & Ht)].
  { intros j Hj. eapply in_exon_total; [done|lia]. }
  - left. split.
    + intros j Hin. pose proof Hin as (s & e & Hs & _).
      apply in_exon_true_iff in Hin.
      pose proof (wf_lookup_lt _ _ _ Hwf j s Hs).
      rewrite Hnone in Hin by lia. done.
    + rewrite find_exon_none by (intros; apply Hnone; lia). done.
  - right.
    destruct (find_exon_finds exonStart exonEnd pos None
                (Z.to_nat exonCount) 0 i)
      as (k & Hk & Hloop & Hkt & Hkf); [lia|done| |].
    { intros j Hj. eapply in_exon_total; [done|lia]. }
    rewrite Hloop. cbn [mbind result_bind].
    assert (Hfirst : first_exon_of exonStart exonEnd pos k).
    { split; [by apply in_exon_true_iff|].
      intros j Hj Hin. apply in_exon_true_iff in Hin.
      rewrite Hkf in Hin by lia. done. }
    apply in_exon_true_iff in Hkt as (s & e & Hs & He & Hse).
    assert (Hreach : reach exonStart exonEnd dist k pos =
              if 0 <=? dist
              then e - pos + Zsum (drop (S k) (exon_lengths exonStart exonEnd))
              else pos - s + Zsum (take k (exon_lengths exonStart exonEnd))).
    { unfold reach.
      by rewrite (list_lookup_total_correct _ _ _ Hs),
        (list_lookup_total_correct _ _ _ He). }
    pose proof (wf_lookup_lt _ _ _ Hwf k s Hs) as Hklt.
    destruct (Z.leb_spec 0 dist) as [Hfwd|Hbwd].
    + destruct (walk_forward _ _ _ Hwf (move_fuel exonCount (Z.abs dist))
                  k pos (Z.abs dist) s e) as (w' & Hw & Hle & Hgt);
        [done|done|done|lia|unfold move_fuel; lia|].
      rewrite Hw. cbn [mbind result_bind].
      destruct (Z.le_gt_cases (Z.abs dist) (reach exonStart exonEnd dist k pos))
        as [Hok|Hko].
      * right. exists k, (w_pos w'). rewrite Hreach in Hok.
        destruct (Hle Hok) as [Hzero Hat]. rewrite Hzero, Hreach.
        split_and!; [done..|].
        unfold transcript_offset.
        rewrite (list_lookup_total_correct _ _ _ Hs).
        by replace (Zsum (take k (exon_lengths exonStart exonEnd))
                    + (pos - s) + dist)
          with (Zsum (take k (exon_lengths exonStart exonEnd))
                + (pos - s) + Z.abs dist) by lia.
      * left. exists k. rewrite Hreach in Hko. pose proof (Hgt Hko).
        rewrite Hreach.
        replace (0 <? w_steps w') with true by lia. done.
    + destruct (walk_backward _ _ _ Hwf (move_fuel exonCount (Z.abs dist))
                  k pos (Z.abs dist) s e) as (w' & Hw & Hle & Hgt);
        [done|done|done|lia|unfold move_fuel; lia|].
      rewrite Hw. cbn [mbind result_bind].
      destruct (Z.le_gt_cases (Z.abs dist) (reach exonStart exonEnd dist k pos))
        as [Hok|Hko].
      * right. exists k, (w_pos w'). rewrite Hreach in Hok.
        destruct (Hle Hok) as [Hzero Hat]. rewrite Hzero, Hreach.
        split_and!; [done..|].
        unfold transcript_offset.
        rewrite (list_lookup_total_correct _ _ _ Hs).
        by replace (Zsum (take k (exon_lengths exonStart exonEnd))
                    + (pos - s) + dist)
          with (Zsum (take k (exon_lengths exonStart exonEnd))
                + (pos - s) - Z.abs dist) by lia.
      * left. exists k. rewrite Hreach in Hko. pose proof (Hgt Hko).
        rewrite Hreach.
        replace (0 <? w_steps w') with true by lia. done.
Qed.

Lemma move_pos_assert_fail txStart txEnd exonCount exonStart exonEnd pos dist :
  ¬ (txStart <= pos <= txEnd) →
  move_pos txStart txEnd exonCount exonStart exonEnd pos dist
  = Raise AssertionError.
Proof.
  intros Hout. unfold move_pos.
  by replace ((txStart <=? pos) && (pos <=? txEnd)) with false by lia.
Qed.

(** A successful walk moves the position by exactly [dist] bases along the
    spliced transcript. *)
Lemma move_pos_walks_distance txStart txEnd exonCount exonStart exonEnd
    pos dist p :
  exons_wf exonCount exonStart exonEnd →
  move_pos txStart txEnd exonCount exonStart exonEnd pos dist = Ok p →
  ∃ k, first_exon_of exonStart exonEnd pos k ∧
       at_offset exonStart exonEnd p
         (transcript_offset exonStart exonEnd k pos + dist).
Proof.
  intros Hwf Hmove.
  destruct (decide (txStart <= pos <= txEnd)) as [Htx|Htx].
  2:{ rewrite move_pos_assert_fail in Hmove by done. discriminate. }
  destruct (move_pos_cases txStart txEnd exonCount exonStart exonEnd
              pos dist Hwf Htx)
    as [[_ Hr]|[(k & _ & _ & Hr)|(k & p' & Hk & _ & Hr & Hat)]];
    rewrite Hr in Hmove; try discriminate.
  injection Hmove as ->. by exists k.
Qed.

(** C7 (amended): [move_pos] has three ways to fail, not two.  When the start
    position is outside [txStart, txEnd] the entry assertion fails with
    [AssertionError].  Otherwise, for exon lists that agree with [exonCount]
    and have no empty exon, it raises [ValueError] exactly when the start
    position lies in no exon ("can't find") or the exons run out before the
    distance is consumed ("can't move"), and in all other cases it returns a
    position. *)
Theorem move_pos_error_contract :
  ∀ txStart txEnd exonCount exonStart exonEnd pos dist,
    exons_wf exonCount exonStart exonEnd →
    let r := move_pos txStart txEnd exonCount exonStart exonEnd pos dist in
    (¬ (txStart <= pos <= txEnd) → r = Raise AssertionError) ∧
    (txStart <= pos <= txEnd →
     fails_exactly_on_position_errors
       txStart txEnd exonCount exonStart exonEnd pos dist ∧
     (r = Raise (ValueError (cant_find pos)) ↔
      in_no_exon exonStart exonEnd pos) ∧
     (r = Raise (ValueError (cant_move pos dist)) ↔
      exons_exhausted exonStart exonEnd pos dist)).
Proof.
  intros txStart txEnd exonCount exonStart exonEnd pos dist Hwf r.
  split; [apply move_pos_assert_fail|].
  intros Htx.
  pose proof (move_pos_cases txStart txEnd exonCount exonStart exonEnd
                pos dist Hwf Htx) as Hcases.
  fold r in Hcases. unfold fails_exactly_on_position_errors. fold r.
  assert (Hexcl1 : ∀ k, in_no_exon exonStart exonEnd pos →
                        first_exon_of exonStart exonEnd pos k → False).
  { intros k Hno [Hin _]. by apply (Hno k). }
  assert (Hexcl2 : ∀ k, exons_exhausted exonStart exonEnd pos dist →
                        first_exon_of exonStart exonEnd pos k →
                        reach exonStart exonEnd dist k pos < Z.abs dist).
  { intros k (k' & Hk' & Hlt) Hk.
    by rewrite (first_exon_unique _ _ _ _ _ Hk Hk'). }
  destruct Hcases
    as [[Hno Hr]|[(k & Hk & Hlt & Hr)|(k & p & Hk & Hle & Hr & _)]];
    rewrite Hr.
  - split_and!.
    + split; [intros _; by left | intros _; by eexists].
    + intros Hn. destruct Hn. by left.
    + done.
    + split; [done|]. intros (k & Hk & _). destruct (Hexcl1 k Hno Hk).
  - assert (Hex : exons_exhausted exonStart exonEnd pos dist)
      by (by exists k).
    split_and!.
    + split; [intros _; by right | intros _; by eexists].
    + intros Hn. destruct Hn. by right.
    + split; [done|]. intros Hno. destruct (Hexcl1 k Hno Hk).
    + done.
  - split_and!.
    + split; [by intros [m Hm]|].
      intros [Hno|Hex]; [destruct (Hexcl1 k Hno Hk)|].
      pose proof (Hexcl2 k Hex Hk). lia.
    + intros _. by exists p.
    + split; [done|]. intros Hno. destruct (Hexcl1 k Hno Hk).
    + split; [done|]. intros Hex. pose proof (Hexcl2 k Hex Hk). lia.
Qed.

Lemma two_exons_wf : exons_wf 2 [0; 200] [100; 300].
Proof.
  split_and!; [done..|].
  intros [|[|i]] s e; cbn; intros [= <-] [= <-]; lia.
Qed.

Lemma move_pos_error_contract_witness :
  exons_wf 2 [0; 200] [100; 300] ∧
  let r := move_pos 0 300 2 [0; 200] [100; 300] 201 (-3) in
  (¬ (0 <= 201 <= 300) → r = Raise AssertionError) ∧
  (0 <= 201 <= 300 →
   fails_exactly_on_position_errors 0 300 2 [0; 200] [100; 300] 201 (-3) ∧
   (r = Raise (ValueError (cant_find 201)) ↔
    in_no_exon [0; 200] [100; 300] 201) ∧
   (r = Raise (ValueError (cant_move 201 (-3))) ↔
    exons_exhausted [0; 200] [100; 300] 201 (-3))).
Proof.
  split; [exact two_exons_wf|].
  exact (move_pos_error_contract 0 300 2 [0; 200] [100; 300] 201 (-3)
           two_exons_wf).
Defined.

(** C7, as stated, fails: with [txStart = 0], [txEnd = 10] and the single
    exon [0, 30], the start position 20 lies in the exon and one step
    forward is available, yet [move_pos] raises [AssertionError] instead of
    returning a position. *)
Lemma move_pos_assertion_counterexample :
  move_pos 0 10 1 [0] [30] 20 1 = Raise AssertionError ∧
  ¬ fails_exactly_on_position_errors 0 10 1 [0] [30] 20 1.
Proof.
  split; [reflexivity|].
  intros [_ Hret]. destruct Hret as [p Hp]; [|discriminate Hp].
  intros [Hno|(k & [Hin _] & Hlt)].
  - apply (Hno 0%nat). exists 0, 30. split_and!; [done..|lia|lia].
  - destruct Hin as (s & e & Hs & _). destruct k as [|k]; [|done].
    vm_compute in Hlt. discriminate Hlt.
Qed.

(** The assertion is reachable from [run]: a record whose [cdsEnd] lies
    beyond [txEnd] stops there, before anything is written. *)
Lemma run_reaches_assertion :
  run (BedRecord "chr1" 0 10 "tx1" "+" 0 30 1 [30] [0])
    {[ "tx1" := "g1" ]} (World [] ∅)
  = (Raise AssertionError, World [] ∅).
Proof. by vm_compute. Qed.

(** C9: [in_exon] includes both ends of an exon, so the end coordinate of
    exon [i] is reported as lying in exon [i]; hence the stop-codon trim of a
    transcript whose [cdsEnd] is an exon end, [move_pos] from that position
    by -3, never raises the "can't find" error. *)
Theorem exon_end_is_inside :
  ∀ txStart txEnd exonCount exonStart exonEnd (i : nat) s e,
    Z.of_nat i < exonCount →
    exonStart !! i = Some s → exonEnd !! i = Some e → s <= e →
    in_exon (Z.of_nat i) e exonStart exonEnd = Ok true ∧
    move_pos txStart txEnd exonCount exonStart exonEnd e (-3)
    ≠ Raise (ValueError (cant_find e)).
Proof.
  intros txStart txEnd exonCount exonStart exonEnd i s e Hi Hs He Hse.
  assert (Hin : in_exon (Z.of_nat i) e exonStart exonEnd = Ok true).
  { rewrite (in_exon_lookup _ _ _ _ s e) by done.
    f_equal. apply andb_true_intro. split; lia. }
  split; [done|].
  unfold move_pos. destruct (negb _); [done|].
  rewrite py_range_up.
  destruct (find_exon_finds exonStart exonEnd e None (Z.to_nat exonCount) 0 i)
    as (k & Hk & Hloop & _); [lia|done| |].
  { intros j Hj.
    destruct (lookup_lt_is_Some_2 exonStart j) as [sj Hsj].
    { apply lookup_lt_Some in Hs. lia. }
    destruct (lookup_lt_is_Some_2 exonEnd j) as [ej Hej].
    { apply lookup_lt_Some in He. lia. }
    eexists. by apply in_exon_lookup. }
  rewrite Hloop. cbn [mbind result_bind].
  destruct (while_loop _ _ _ _) as [w'|err] eqn:Hw.
  - cbn [mbind result_bind]. by destruct (0 <? w_steps w').
  - cbn [mbind result_bind].
    apply (while_loop_raise (fun x => x = IndexError)) in Hw;
      [by subst err|].
    intros w0 e0. apply move_body_raise.
Qed.

Lemma exon_end_is_inside_witness :
  (Z.of_nat 0 < 1) ∧ [0] !! 0%nat = Some 0 ∧ [300] !! 0%nat = Some 300 ∧
  (0 <= 300) ∧
  in_exon (Z.of_nat 0) 300 [0] [300] = Ok true ∧
  move_pos 0 300 1 [0] [300] 300 (-3) ≠ Raise (ValueError (cant_find 300)).
Proof.
  split_and!; [lia|reflexivity|reflexivity|lia|..];
    apply (exon_end_is_inside 0 300 1 [0] [300] 0%nat 0 300);
    first [lia|reflexivity].
Defined.

(** C3, as stated, fails in the backward direction: walking back by one
    from the first base of the second exon jumps to the last base of the
    first exon and that jump consumes the unit of distance. *)
Lemma backward_jump_counterexample :
  move_body 2 [0; 20] [10; 30] (-1) (Walk 1 20 1) = Ok (Walk 0 9 0) ∧
  move_pos 0 30 2 [0; 20] [10; 30] 20 (-1) = Ok 9 ∧
  ¬ jumps_are_free 2 [0; 20] [10; 30] (-1) (Walk 1 20 1).
Proof.
  split_and!; [reflexivity..|].
  intros Hfree.
  destruct (Hfree (Walk 0 9 0) eq_refl eq_refl) as [_ Hjump].
  cbn in Hjump. specialize (Hjump ltac:(lia)). lia.
Qed.

(** C3 (amended): an iteration of the walk that stays in its exon moves one
    base and consumes one unit of distance; a forward jump lands on the
    start of the next exon and consumes nothing; a backward jump lands on
    the last base of the previous exon ([exonEnd - 1]) and consumes one
    unit.  A jump off either end of the exon list changes neither the
    position nor the distance left. *)
Theorem walk_step_costs :
  ∀ exonCount exonStart exonEnd direction w w',
    move_cond exonCount w = true →
    move_body exonCount exonStart exonEnd direction w = Ok w' →
    (w_exon w' = w_exon w →
     w_pos w' = w_pos w + direction ∧ w_steps w' = w_steps w - 1 ∧
     in_exon (w_exon w) (w_pos w') exonStart exonEnd = Ok true) ∧
    (w_exon w' ≠ w_exon w → 0 <= direction →
     w_exon w' = w_exon w + 1 ∧ w_steps w' = w_steps w ∧
     (w_exon w' < exonCount → getitem exonStart (w_exon w') = Ok (w_pos w')) ∧
     (exonCount <= w_exon w' → w_pos w' = w_pos w)) ∧
    (w_exon w' ≠ w_exon w → direction < 0 →
     w_exon w' = w_exon w - 1 ∧
     (0 <= w_exon w' →
      w_steps w' = w_steps w - 1 ∧
      getitem exonEnd (w_exon w') = Ok (w_pos w' + 1)) ∧
     (w_exon w' < 0 → w_steps w' = w_steps w ∧ w_pos w' = w_pos w)).
Proof.
  intros exonCount exonStart exonEnd direction [exon pos steps] w' _.
  unfold move_body, mbind, result_bind.
  destruct (in_exon exon (pos + direction) exonStart exonEnd)
    as [[]|] eqn:Hin; [| |done].
  - intros [= <-]; cbn. split_and!; [done|intros; lia|intros; lia].
  - destruct (Z.leb_spec 0 direction) as [Hd|Hd].
    + destruct (Z.ltb_spec (exon + 1) exonCount) as [Hn|Hn].
      * destruct (getitem exonStart (exon + 1)) as [p|] eqn:Hg; [|done].
        intros [= <-]; cbn. split_and!; [intros; lia| |intros; lia].
        intros _ _. split_and!; [done..|intros; lia].
      * intros [= <-]; cbn. split_and!; [intros; lia| |intros; lia].
        intros _ _. split_and!; [done|done|intros; lia|done].
    + destruct (Z.leb_spec 0 (exon - 1)) as [Hn|Hn].
      * destruct (getitem exonEnd (exon - 1)) as [p|] eqn:Hg; [|done].
        intros [= <-]; cbn. split_and!; [intros; lia|intros; lia|].
        intros _ _. split_and!; [done| |intros; lia].
        intros _. split; [done|]. rewrite Hg. f_equal. lia.
      * intros [= <-]; cbn. split_and!; [intros; lia|intros; lia|].
        intros _ _. split_and!; [done|intros; lia|done].
Qed.

Lemma walk_step_costs_witness :
  move_cond 2 (Walk 1 20 1) = true ∧
  move_body 2 [0; 20] [10; 30] (-1) (Walk 1 20 1) = Ok (Walk 0 9 0) ∧
  (w_exon (Walk 0 9 0) ≠ w_exon (Walk 1 20 1) → -1 < 0 →
   w_exon (Walk 0 9 0) = w_exon (Walk 1 20 1) - 1 ∧
   (0 <= w_exon (Walk 0 9 0) →
    w_steps (Walk 0 9 0) = w_steps (Walk 1 20 1) - 1 ∧
    getitem [10; 30] (w_exon (Walk 0 9 0)) = Ok (w_pos (Walk 0 9 0) + 1)) ∧
   (w_exon (Walk 0 9 0) < 0 →
    w_steps (Walk 0 9 0) = w_steps (Walk 1 20 1) ∧
    w_pos (Walk 0 9 0) = w_pos (Walk 1 20 1))).
Proof.
  split_and!; [reflexivity..|].
  apply (walk_step_costs 2 [0; 20] [10; 30] (-1) (Walk 1 20 1) (Walk 0 9 0));
    reflexivity.
Defined.

(** ** The frame calculator *)

Lemma Zsum_rev l : Zsum (rev l) = Zsum l.
Proof.
  induction l as [|x l IH]; [done|].
  cbn [rev]. rewrite Zsum_app, IH, !Zsum_cons. change (Zsum []) with 0. lia.
Qed.

Lemma overlap_split a m b cdsStart cdsEnd :
  a <= m → m <= b →
  overlap a m cdsStart cdsEnd + overlap m b cdsStart cdsEnd
  = overlap a b cdsStart cdsEnd.
Proof. unfold overlap. lia. Qed.

Lemma overlap_whole a b cdsStart cdsEnd :
  a <= cdsStart → cdsStart <= cdsEnd → cdsEnd <= b →
  overlap a b cdsStart cdsEnd = cdsEnd - cdsStart.
Proof. unfold overlap. lia. Qed.

Lemma setitem_nat {A} (l : list A) (k : nat) (v : A) :
  (k < length l)%nat → setitem l (Z.of_nat k) v = Ok (<[k := v]> l).
Proof.
  intros Hk. unfold setitem, len.
  replace (Z.of_nat k <? 0) with false by lia.
  replace ((Z.of_nat k <? 0) || (Z.of_nat (length l) <=? Z.of_nat k))
    with false by lia.
  by rewrite Nat2Z.id.
Qed.

(** One iteration: the frame of exon [k] is the running count modulo 3 when
    the exon overlaps the CDS, -1 otherwise. *)
Lemma exon_frames_body_eq cdsStart cdsEnd exonStart exonEnd frames cds
    (k : nat) s e :
  exonStart !! k = Some s → exonEnd !! k = Some e → (k < length frames)%nat →
  exon_frames_body cdsStart cdsEnd exonStart exonEnd (frames, cds)
    (Z.of_nat k)
  = Ok (<[k := if Z.max s cdsStart <? Z.min e cdsEnd then cds mod 3 else -1]>
          frames,
        cds + overlap s e cdsStart cdsEnd).
Proof.
  intros Hs He Hk. unfold exon_frames_body.
  rewrite !getitem_nat, Hs, He.
  cbn [mbind result_bind check_exon_frame]. unfold overlap.
  destruct (Z.ltb_spec (Z.max s cdsStart) (Z.min e cdsEnd)) as [Hov|Hov];
    rewrite setitem_nat by lia; cbn [mbind result_bind]; do 2 f_equal; lia.
Qed.

(** The loop of [exon_frames] adds to [cds] the overlap of every exon it
    visits and gives every exon it visits its frame. *)
Lemma exon_frames_for_each cdsStart cdsEnd exonStart exonEnd :
  length exonStart = length exonEnd →
  ∀ (idxs : list nat) frames cds,
    length frames = length exonStart →
    Forall (fun k => (k < length exonStart)%nat) idxs →
    NoDup idxs →
    ∃ frames',
      for_each (exon_frames_body cdsStart cdsEnd exonStart exonEnd)
        (frames, cds) (map Z.of_nat idxs)
      = Ok (frames',
            cds + Zsum (map (fun k => overlap (exonStart !!! k)
                                        (exonEnd !!! k) cdsStart cdsEnd) idxs))
      ∧ length frames' = length exonStart
      ∧ (∀ k s e, k ∈ idxs → exonStart !! k = Some s → exonEnd !! k = Some e →
                  ∃ f, frames' !! k = Some f ∧ frame_ok s e cdsStart cdsEnd f)
      ∧ (∀ k, k ∉ idxs → frames' !! k = frames !! k).
Proof.
  intros Hlen.
  induction idxs as [|k idxs IH]; intros frames cds Hfr Hall Hnodup.
  { exists frames. cbn. split_and!; [f_equal; f_equal; lia|done| |done].
    intros k s e Hk. by apply elem_of_nil in Hk. }
  apply Forall_cons in Hall as [Hk Hall].
  apply NoDup_cons in Hnodup as [Hfresh Hnodup].
  destruct (lookup_lt_is_Some_2 exonStart k Hk) as [s Hs].
  destruct (lookup_lt_is_Some_2 exonEnd k) as [e He]; [lia|].
  cbn [map for_each].
  rewrite (exon_frames_body_eq _ _ _ _ _ _ _ s e) by (done || lia).
  rewrite (list_lookup_total_correct _ _ _ Hs),
    (list_lookup_total_correct _ _ _ He).
  cbn [mbind result_bind].
  destruct (IH (<[k := if Z.max s cdsStart <? Z.min e cdsEnd
                       then cds mod 3 else -1]> frames)
              (cds + overlap s e cdsStart cdsEnd))
    as (frames' & Hloop & Hlen' & Hin & Hout);
    [by rewrite length_insert|done|done|].
  exists frames'. rewrite Hloop. split_and!; [|done| |].
  - rewrite Zsum_cons. do 2 f_equal. lia.
  - intros k' s' e' [->|Hk']%elem_of_cons Hs' He'; [|by eapply Hin].
    assert (s' = s) as -> by congruence.
    assert (e' = e) as -> by congruence.
    rewrite (Hout k Hfresh), list_lookup_insert_eq by lia.
    eexists. split; [done|]. unfold frame_ok.
    destruct (Z.ltb_spec (Z.max s cdsStart) (Z.min e cdsEnd));
      [right|left]; split; try lia.
    apply Z.mod_pos_bound. lia.
  - intros k' Hk'. apply not_elem_of_cons in Hk' as [Hne Hk'].
    rewrite (Hout k' Hk'). by apply list_lookup_insert_ne.
Qed.

Lemma exon_frames_loop_spec cdsStart cdsEnd exonStart exonEnd strand :
  length exonStart = length exonEnd →
  ∃ frames,
    exon_frames_loop cdsStart cdsEnd exonStart exonEnd strand
    = Ok (frames,
          Zsum (map (fun k => overlap (exonStart !!! k) (exonEnd !!! k)
                                cdsStart cdsEnd)
                  (seq 0 (length exonStart)))) ∧
    length frames = length exonStart ∧
    ∀ (k : nat) s e, exonStart !! k = Some s → exonEnd !! k = Some e →
                     ∃ f, frames !! k = Some f ∧
                          frame_ok s e cdsStart cdsEnd f.
Proof.
  intros Hlen. unfold exon_frames_loop.
  destruct (String.eqb strand "+").
  - unfold len. rewrite py_range_up, Nat2Z.id.
    destruct (exon_frames_for_each cdsStart cdsEnd exonStart exonEnd Hlen
                (seq 0 (length exonStart))
                (replicate (length exonStart) 0) 0)
      as (frames & Hloop & Hfl & Hin & _).
    { by rewrite length_replicate. }
    { apply Forall_forall. intros k Hk.
      apply list_elem_of_In, in_seq in Hk. lia. }
    { apply NoDup_ListNoDup, seq_NoDup. }
    exists frames. rewrite Hloop. split_and!; [done..|].
    intros k s e Hs He. apply Hin; [|done..].
    apply list_elem_of_In, in_seq. apply lookup_lt_Some in Hs. lia.
  - unfold len. rewrite py_range_down.
    destruct (exon_frames_for_each cdsStart cdsEnd exonStart exonEnd Hlen
                (rev (seq 0 (length exonStart)))
                (replicate (length exonStart) 0) 0)
      as (frames & Hloop & Hfl & Hin & _).
    { by rewrite length_replicate. }
    { apply Forall_forall. intros k Hk.
      apply list_elem_of_In, in_rev, in_seq in Hk. lia. }
    { apply NoDup_ListNoDup, NoDup_rev, seq_NoDup. }
    exists frames. rewrite Hloop, map_rev, Zsum_rev.
    split_and!; [done..|].
    intros k s e Hs He. apply Hin; [|done..].
    apply list_elem_of_In. apply -> in_rev. apply in_seq.
    apply lookup_lt_Some in Hs. lia.
Qed.

(** The frame vector has one entry per exon, each in -1..2, and -1 marks
    exactly the exons without CDS bases. *)
Lemma exon_frames_spec cdsStart cdsEnd exonStart exonEnd strand frames :
  length exonStart = length exonEnd →
  exon_frames cdsStart cdsEnd exonStart exonEnd strand = Ok frames →
  length frames = length exonStart ∧
  ∀ (k : nat) s e, exonStart !! k = Some s → exonEnd !! k = Some e →
                   ∃ f, frames !! k = Some f ∧ frame_ok s e cdsStart cdsEnd f.
Proof.
  intros Hlen. unfold exon_frames.
  destruct (exon_frames_loop_spec cdsStart cdsEnd exonStart exonEnd strand
              Hlen) as (frames' & Hloop & Hfl & Hok).
  rewrite Hloop. cbn [mbind result_bind]. by intros [= <-].
Qed.

Lemma overlaps_by_index cdsStart cdsEnd (exonStart exonEnd : list Z) :
  length exonStart = length exonEnd →
  map (fun k => overlap (exonStart !!! k) (exonEnd !!! k) cdsStart cdsEnd)
    (seq 0 (length exonStart))
  = map (fun se => overlap se.1 se.2 cdsStart cdsEnd)
      (exon_intervals exonStart exonEnd).
Proof.
  unfold exon_intervals. revert exonEnd.
  induction exonStart as [|s ss IH]; intros [|e es] Hlen; try done.
  cbn [length seq map zip zip_with]. f_equal.
  rewrite <- seq_shift, map_map. rewrite <- IH by (cbn in Hlen; lia).
  apply map_ext. intros k. done.
Qed.

(** The exons and the introns tile the span of the transcript. *)
Lemma exons_and_introns_tile cdsStart cdsEnd :
  ∀ rest s e sL eL,
    ascending ((s, e) :: rest) →
    last ((s, e) :: rest) = Some (sL, eL) →
    e <= eL ∧
    Zsum (map (fun se => overlap se.1 se.2 cdsStart cdsEnd) ((s, e) :: rest))
    + intron_overlaps cdsStart cdsEnd ((s, e) :: rest)
    = overlap s eL cdsStart cdsEnd.
Proof.
  induction rest as [|[s2 e2] rest IH]; intros s e sL eL Hasc Hlast.
  - cbn in Hlast. injection Hlast as <- <-.
    cbn. change (Zsum []) with 0. split; lia.
  - destruct Hasc as (Hse & Hgap & Hasc).
    destruct (IH s2 e2 sL eL Hasc) as [HeL Hsum].
    { by rewrite last_cons_cons in Hlast. }
    pose proof Hasc as (Hse2 & _).
    split; [lia|].
    cbn [map intron_overlaps fst snd]. rewrite !Zsum_cons.
    cbn [map intron_overlaps fst snd] in Hsum. rewrite !Zsum_cons in Hsum.
    rewrite <- (overlap_split s e eL) by lia.
    rewrite <- (overlap_split e s2 eL) by lia.
    lia.
Qed.

Lemma running_count_is_exon_overlap cdsStart cdsEnd exonStart exonEnd strand :
  length exonStart = length exonEnd →
  running_count cdsStart cdsEnd exonStart exonEnd strand
  = Ok (Zsum (map (fun se => overlap se.1 se.2 cdsStart cdsEnd)
                (exon_intervals exonStart exonEnd))).
Proof.
  intros Hlen. unfold running_count.
  destruct (exon_frames_loop_spec cdsStart cdsEnd exonStart exonEnd strand
              Hlen) as (frames & Hloop & _).
  rewrite Hloop. cbn [mbind result_bind]. by rewrite overlaps_by_index.
Qed.

(** C5, as stated, fails for every CDS that spans an intron: with the exons
    [0, 100) and [200, 300) and the CDS [50, 250) the running count is 100,
    not 200. *)
Lemma running_count_counterexample :
  record_invariants 0 300 50 250 [0; 200] [100; 300] ∧
  50 < 250 ∧
  running_count 50 250 [0; 200] [100; 300] "+" = Ok 100 ∧
  running_count 50 250 [0; 200] [100; 300] "+" ≠ Ok (250 - 50).
Proof.
  split_and!; [| lia | reflexivity | discriminate].
  unfold record_invariants. cbn. lia.
Qed.

(** C5 (amended): for every coding transcript that satisfies the invariants
    and whose CDS lies within the span of its exons, the running count of
    [exon_frames] equals [cdsEnd - cdsStart] minus the number of CDS
    positions that fall in introns, on either strand. *)
Theorem running_count_is_cds_minus_introns :
  ∀ txStart txEnd cdsStart cdsEnd exonStart exonEnd strand s0 e0 sL eL,
    record_invariants txStart txEnd cdsStart cdsEnd exonStart exonEnd →
    cdsStart < cdsEnd →
    head (exon_intervals exonStart exonEnd) = Some (s0, e0) →
    last (exon_intervals exonStart exonEnd) = Some (sL, eL) →
    s0 <= cdsStart → cdsEnd <= eL →
    running_count cdsStart cdsEnd exonStart exonEnd strand
    = Ok (cdsEnd - cdsStart
          - intron_overlaps cdsStart cdsEnd
              (exon_intervals exonStart exonEnd)).
Proof.
  intros txStart txEnd cdsStart cdsEnd exonStart exonEnd strand s0 e0 sL eL
    (Hlen & Hasc & _) Hcoding Hhead Hlast Hs0 HeL.
  rewrite running_count_is_exon_overlap by done. f_equal.
  destruct (exon_intervals exonStart exonEnd) as [|[s e] rest]; [done|].
  injection Hhead as -> ->.
  destruct (exons_and_introns_tile cdsStart cdsEnd rest s0 e0 sL eL Hasc Hlast)
    as [_ Htile].
  rewrite <- (overlap_whole s0 eL cdsStart cdsEnd) by lia. lia.
Qed.

Lemma running_count_is_cds_minus_introns_witness :
  record_invariants 0 300 50 250 [0; 200] [100; 300] ∧
  50 < 250 ∧
  head (exon_intervals [0; 200] [100; 300]) = Some (0, 100) ∧
  last (exon_intervals [0; 200] [100; 300]) = Some (200, 300) ∧
  0 <= 50 ∧ 250 <= 300 ∧
  running_count 50 250 [0; 200] [100; 300] "-"
  = Ok (250 - 50
        - intron_overlaps 50 250 (exon_intervals [0; 200] [100; 300])).
Proof.
  assert (Hinv : record_invariants 0 300 50 250 [0; 200] [100; 300]).
  { unfold record_invariants. cbn. lia. }
  split_and!; [exact Hinv | lia | reflexivity | reflexivity | lia | lia |].
  apply (running_count_is_cds_minus_introns 0 300 50 250 [0; 200] [100; 300]
           "-" 0 100 200 300 Hinv);
    first [lia | reflexivity].
Defined.

(** ** The codon locator *)

(** The early return: the scan loops of [find_first_codon] and
    [find_last_codon] return the absent descriptor as soon as the first exon
    they look at has frame -1, instead of moving on to the next exon.  A
    transcript whose first exon is non-coding gets no leading codon although
    its second exon has frame 0, and a transcript whose last exon is
    non-coding gets no trailing codon. *)
Lemma codon_scan_stops_at_first_exon :
  let isoforms : gmap string string := {[ "tx1" := "g1" ]} in
  exon_frames 20 50 [0; 20] [10; 50] "+" = Ok [-1; 0] ∧
  find_first_codon [-1; 0] "+" 20 50 [0; 20] [10; 50] = Ok zero_codon ∧
  map (fun l => (g_type l, g_start l, g_end l))
    (file (run (BedRecord "chr1" 0 50 "tx1" "+" 20 50 2 [10; 30] [0; 20])
             isoforms (World [] ∅)).2)
  = [("gene", 1, 50); ("transcript", 1, 50); ("exon", 1, 10);
     ("5UTR", 1, 10); ("exon", 21, 50); ("CDS", 21, 47);
     ("stop_codon", 48, 50)] ∧
  exon_frames 0 30 [0; 40] [30; 50] "+" = Ok [0; -1] ∧
  find_last_codon [0; -1] "+" 0 30 [0; 40] [30; 50] = Ok zero_codon ∧
  map (fun l => (g_type l, g_start l, g_end l))
    (file (run (BedRecord "chr1" 0 50 "tx1" "+" 0 30 2 [30; 10] [0; 40])
             isoforms (World [] ∅)).2)
  = [("gene", 1, 50); ("transcript", 1, 50); ("exon", 1, 30);
     ("CDS", 1, 30); ("exon", 41, 50); ("3UTR", 41, 50);
     ("start_codon", 1, 3)].
Proof. intros isoforms. split_and!; by vm_compute. Qed.

(** The same for every transcript: a negative frame in the first exon
    scanned ends the search, whatever the frames of the other exons. *)
Lemma find_first_codon_first_exon_only f0 f1 frames strand cdsStart cdsEnd
    exonStart exonEnd :
  f0 < 0 →
  find_first_codon (f0 :: f1 :: frames) strand cdsStart cdsEnd
    exonStart exonEnd = Ok zero_codon.
Proof.
  intros Hneg. unfold find_first_codon.
  replace (py_range 0 (len (f0 :: f1 :: frames) - 1) 1)
    with (0 :: map Z.of_nat (seq 1 (length frames))).
  { cbn [for_loop]. change (getitem (f0 :: f1 :: frames) 0) with (Ok f0).
    cbn [mbind result_bind].
    by replace (0 <=? f0) with false by lia. }
  rewrite py_range_up. unfold len. cbn [length].
  replace (Z.to_nat (Z.of_nat (S (S (length frames))) - 1))
    with (S (length frames)) by lia.
  done.
Qed.

Lemma find_last_codon_last_exon_only frames fl strand cdsStart cdsEnd
    exonStart exonEnd :
  fl < 0 →
  find_last_codon (frames ++ [fl]) strand cdsStart cdsEnd
    exonStart exonEnd = Ok zero_codon.
Proof.
  intros Hneg. unfold find_last_codon, len.
  rewrite py_range_down, length_app. cbn [length].
  replace (length frames + 1)%nat with (S (length frames)) by lia.
  rewrite seq_S, rev_app_distr. cbn [rev app map Nat.add for_loop].
  rewrite getitem_nat, lookup_app_r by lia.
  rewrite Nat.sub_diag. cbn [lookup list_lookup mbind result_bind].
  by replace (0 <=? fl) with false by lia.
Qed.

(** *** The searches, case by case *)

Lemma find_first_codon_cases frames strand cdsStart cdsEnd exonStart exonEnd :
  find_first_codon frames strand cdsStart cdsEnd exonStart exonEnd =
  match frames with
  | f0 :: _ :: _ =>
      if 0 <=? f0
      then first_codon_at frames strand cdsStart cdsEnd exonStart exonEnd 0
      else Ok zero_codon
  | _ => first_codon_at frames strand cdsStart cdsEnd exonStart exonEnd 0
  end.
Proof.
  destruct frames as [|f0 [|f1 rest]]; [done..|].
  change (find_first_codon (f0 :: f1 :: rest) strand cdsStart cdsEnd
            exonStart exonEnd)
    with (scan ← for_loop (fun (exon_index : Z) fr =>
                    f ← getitem (f0 :: f1 :: rest) fr ;
                    if 0 <=? f then Ok (Break fr)
                    else Ok (Return zero_codon))
                 0 (py_range 0 (len (f0 :: f1 :: rest) - 1) 1) ;
          match scan with
          | inr r => Ok r
          | inl exon_index =>
              first_codon_at (f0 :: f1 :: rest) strand cdsStart cdsEnd
                exonStart exonEnd exon_index
          end).
  rewrite py_range_up. unfold len. cbn [length].
  replace (Z.to_nat (Z.of_nat (S (S (length rest))) - 1))
    with (S (length rest)) by lia.
  cbn [seq map for_loop].
  change (getitem (f0 :: f1 :: rest) (Z.of_nat 0)) with (Ok f0).
  cbn [mbind result_bind]. by destruct (0 <=? f0).
Qed.

Lemma find_last_codon_cases init fl strand cdsStart cdsEnd exonStart exonEnd :
  find_last_codon (init ++ [fl]) strand cdsStart cdsEnd exonStart exonEnd =
  if 0 <=? fl
  then last_codon_at (init ++ [fl]) strand cdsStart cdsEnd exonStart exonEnd
         (Z.of_nat (length init))
  else Ok zero_codon.
Proof.
  change (find_last_codon (init ++ [fl]) strand cdsStart cdsEnd
            exonStart exonEnd)
    with (scan ← for_loop (fun (exon_index : Z) fr =>
                    f ← getitem (init ++ [fl]) fr ;
                    if 0 <=? f then Ok (Break fr)
                    else Ok (Return zero_codon))
                 0 (py_range (len (init ++ [fl]) - 1) (-1) (-1)) ;
          match scan with
          | inr r => Ok r
          | inl exon_index =>
              last_codon_at (init ++ [fl]) strand cdsStart cdsEnd
                exonStart exonEnd exon_index
          end).
  unfold len. rewrite py_range_down, length_app. cbn [length].
  replace (length init + 1)%nat with (S (length init)) by lia.
  rewrite seq_S, rev_app_distr. cbn [rev app map Nat.add for_loop].
  rewrite getitem_nat, lookup_app_r by lia.
  rewrite Nat.sub_diag. cbn [lookup list_lookup mbind result_bind].
  by destruct (0 <=? fl).
Qed.

(** Reading and writing a six-element descriptor. *)
Ltac codon_step :=
  first
    [ progress change (getitem [?a; ?b; ?c; ?d; ?e; ?f] 0) with (Ok a)
    | progress change (getitem [?a; ?b; ?c; ?d; ?e; ?f] 1) with (Ok b)
    | progress change (getitem [?a; ?b; ?c; ?d; ?e; ?f] 2) with (Ok c)
    | progress change (setitem [?a; ?b; ?c; ?d; ?e; ?f] 2 ?v)
        with (Ok [a; b; v; d; e; f])
    | progress change (setitem [?a; ?b; ?c; ?d; ?e; ?f] 3 ?v)
        with (Ok [a; b; c; v; e; f])
    | progress change (setitem [?a; ?b; ?c; ?d; ?e; ?f] 4 ?v)
        with (Ok [a; b; c; d; v; f])
    | progress change (setitem [?a; ?b; ?c; ?d; ?e; ?f] 5 ?v)
        with (Ok [a; b; c; d; e; v])
    | progress cbn [mbind result_bind] ].

(** The descriptor built for exon [k] by the leading search. *)
Lemma first_codon_at_eq frames strand cdsStart cdsEnd exonStart exonEnd
    (k : nat) s e f :
  exonStart !! k = Some s → exonEnd !! k = Some e → frames !! k = Some f →
  first_codon_at frames strand cdsStart cdsEnd exonStart exonEnd (Z.of_nat k)
  = Ok (if negb (search_phase strand "+" s e cdsStart cdsEnd f =? 0)
        then zero_codon
        else if 3 <=? cdsEnd - cdsStart
        then [cdsStart; cdsStart + 3; 0; 0; Z.of_nat k; 0]
        else if cdsEnd - cdsStart =? 2
        then [cdsStart; cdsStart + 2; cdsStart; cdsStart + 1;
              Z.of_nat k + 1; Z.of_nat k]
        else zero_codon).
Proof.
  intros Hs He Hf. unfold first_codon_at.
  rewrite !getitem_nat, Hs, He, Hf.
  cbn [mbind result_bind check_exon_frame]. fold (search_phase strand "+" s e cdsStart cdsEnd f).
  destruct (negb _); [done|].
  change (set_slice2 zero_codon ?a ?b) with [a; b; 0; 0; 0; 0].
  repeat codon_step.
  destruct (Z.leb_spec 3 (cdsEnd - cdsStart)) as [Hlong|Hshort].
  { replace (cdsStart + Z.min (cdsEnd - cdsStart) 3 - cdsStart <? 3)
      with false by lia.
    by rewrite Z.min_r by lia. }
  replace (cdsStart + Z.min (cdsEnd - cdsStart) 3 - cdsStart <? 3)
    with true by lia.
  repeat codon_step.
  destruct (Z.eqb_spec (cdsEnd - cdsStart) 2) as [Htwo|Hnot].
  - replace (cdsEnd - cdsStart <?
             3 - (cdsStart + Z.min (cdsEnd - cdsStart) 3 - cdsStart))
      with false by lia.
    repeat codon_step. rewrite Z.min_l, Htwo by lia.
    by replace (cdsStart + (3 - (cdsStart + 2 - cdsStart)))
      with (cdsStart + 1) by lia.
  - by replace (cdsEnd - cdsStart <?
                3 - (cdsStart + Z.min (cdsEnd - cdsStart) 3 - cdsStart))
      with true by lia.
Qed.

(** The descriptor built for exon [k] by the trailing search. *)
Lemma last_codon_at_eq frames strand cdsStart cdsEnd exonStart exonEnd
    (k : nat) s e f :
  exonStart !! k = Some s → exonEnd !! k = Some e → frames !! k = Some f →
  last_codon_at frames strand cdsStart cdsEnd exonStart exonEnd (Z.of_nat k)
  = Ok (if negb (search_phase strand "-" s e cdsStart cdsEnd f =? 0)
        then zero_codon
        else if 3 <=? cdsEnd - cdsStart
        then [cdsEnd - 3; cdsEnd; 0; 0; Z.of_nat k; 0]
        else if cdsEnd - cdsStart =? 2
        then [cdsStart; cdsEnd; cdsStart; cdsStart + 1;
              Z.of_nat k - 1; Z.of_nat k]
        else zero_codon).
Proof.
  intros Hs He Hf. unfold last_codon_at.
  rewrite !getitem_nat, Hs, He, Hf.
  cbn [mbind result_bind check_exon_frame].
  fold (search_phase strand "-" s e cdsStart cdsEnd f).
  destruct (negb _); [done|].
  change (set_slice2 zero_codon ?a ?b) with [a; b; 0; 0; 0; 0].
  repeat codon_step.
  destruct (Z.leb_spec 3 (cdsEnd - cdsStart)) as [Hlong|Hshort].
  { replace (cdsEnd - Z.max cdsStart (cdsEnd - 3) <? 3) with false by lia.
    by rewrite Z.max_r by lia. }
  replace (cdsEnd - Z.max cdsStart (cdsEnd - 3) <? 3) with true by lia.
  repeat codon_step.
  destruct (Z.eqb_spec (cdsEnd - cdsStart) 2) as [Htwo|Hnot].
  - replace (cdsEnd - cdsStart <?
             3 - (cdsEnd - Z.max cdsStart (cdsEnd - 3)))
      with false by lia.
    repeat codon_step. rewrite Z.max_l by lia.
    by replace (cdsStart + (3 - (cdsEnd - cdsStart)))
      with (cdsStart + 1) by lia.
  - by replace (cdsEnd - cdsStart <?
                3 - (cdsEnd - Z.max cdsStart (cdsEnd - 3)))
      with true by lia.
Qed.

Lemma intervals_lookup exonStart exonEnd (k : nat) s e :
  exon_intervals exonStart exonEnd !! k = Some (s, e) →
  exonStart !! k = Some s ∧ exonEnd !! k = Some e.
Proof.
  unfold exon_intervals. intros H.
  apply lookup_zip_with_Some in H as (x & y & [= -> ->] & Hx & Hy). done.
Qed.

Lemma intervals_length exonStart exonEnd :
  length exonStart = length exonEnd →
  length (exon_intervals exonStart exonEnd) = length exonStart.
Proof. intros Hlen. unfold exon_intervals. rewrite length_zip_with. lia. Qed.

(** The cases of a built descriptor. *)
Lemma built_codon_spec (phase len : Z) (one two codon : list Z) :
  codon = (if negb (phase =? 0) then zero_codon
           else if 3 <=? len then one
           else if len =? 2 then two else zero_codon) →
  (phase ≠ 0 → codon = zero_codon) ∧
  (phase = 0 →
   (3 <= len → codon = one) ∧
   (len = 2 → codon = two) ∧
   (len < 2 → codon = zero_codon)).
Proof.
  intros ->. destruct (Z.eqb_spec phase 0) as [Hph|Hph]; cbn [negb].
  - split; [done|]. intros _.
    destruct (Z.leb_spec 3 len), (Z.eqb_spec len 2);
      split_and!; intros; first [done|lia].
  - split; [done|]. intros ?. done.
Qed.

(** C1, as stated, fails: the searches also return the absent descriptor
    when the exon they select is not on a codon boundary.  For the exons
    [0, 100) and [200, 300) with the CDS [0, 300) on the plus strand both
    exons are coding (frames 0 and 1), and the trailing search selects the
    last exon and is absent because the 200 coding bases are not a multiple
    of 3. *)
Lemma absent_with_coding_exon_counterexample :
  record_invariants 0 300 0 300 [0; 200] [100; 300] ∧
  exon_frames 0 300 [0; 200] [100; 300] "+" = Ok [0; 1] ∧
  find_last_codon [0; 1] "+" 0 300 [0; 200] [100; 300] = Ok zero_codon ∧
  ¬ absent_iff_noncoding [0; 1] zero_codon.
Proof.
  split_and!; [|reflexivity..|].
  - unfold record_invariants. cbn. lia.
  - intros [Habs _]. specialize (Habs eq_refl).
    apply Forall_cons in Habs as [Habs _]. discriminate.
Qed.

(** C1 (amended): for every record that satisfies the invariants, has at
    least one exon and has its CDS within the span of its exons, both
    searches return a descriptor.  It is the absent one whenever no exon has
    a frame other than -1, but not only then.  When the first exon in a
    search's scan order (exon 0 for the leading search, the last exon for
    the trailing search) has a frame other than -1, the search selects that
    exon and builds the descriptor against it.  The descriptor is absent if
    the exon is not on a codon boundary or the CDS has fewer than two bases.
    Otherwise it is the three-base codon cut at [cdsStart] (leading) or at
    [cdsEnd] (trailing) with the exon's index in slot 4, or, for a CDS of
    exactly two bases, the two-interval descriptor with the exon's index in
    slot 5 and its neighbour's in slot 4. *)
Theorem codon_search_contract :
  ∀ txStart txEnd cdsStart cdsEnd exonStart exonEnd strand frames
    s0 e0 sL eL,
    record_invariants txStart txEnd cdsStart cdsEnd exonStart exonEnd →
    head (exon_intervals exonStart exonEnd) = Some (s0, e0) →
    last (exon_intervals exonStart exonEnd) = Some (sL, eL) →
    s0 <= cdsStart → cdsEnd <= eL →
    exon_frames cdsStart cdsEnd exonStart exonEnd strand = Ok frames →
    ∃ first_codon last_codon,
      find_first_codon frames strand cdsStart cdsEnd exonStart exonEnd
      = Ok first_codon ∧
      find_last_codon frames strand cdsStart cdsEnd exonStart exonEnd
      = Ok last_codon ∧
      (Forall (fun f => f = -1) frames →
       first_codon = zero_codon ∧ last_codon = zero_codon) ∧
      (∀ f0, head frames = Some f0 → f0 ≠ -1 →
         (search_phase strand "+" s0 e0 cdsStart cdsEnd f0 ≠ 0 →
          first_codon = zero_codon) ∧
         (search_phase strand "+" s0 e0 cdsStart cdsEnd f0 = 0 →
          (3 <= cdsEnd - cdsStart →
           first_codon = [cdsStart; cdsStart + 3; 0; 0; 0; 0]) ∧
          (cdsEnd - cdsStart = 2 →
           first_codon = [cdsStart; cdsStart + 2; cdsStart; cdsStart + 1;
                          1; 0]) ∧
          (cdsEnd - cdsStart < 2 → first_codon = zero_codon))) ∧
      (∀ fL, last frames = Some fL → fL ≠ -1 →
         (search_phase strand "-" sL eL cdsStart cdsEnd fL ≠ 0 →
          last_codon = zero_codon) ∧
         (search_phase strand "-" sL eL cdsStart cdsEnd fL = 0 →
          (3 <= cdsEnd - cdsStart →
           last_codon = [cdsEnd - 3; cdsEnd; 0; 0; len frames - 1; 0]) ∧
          (cdsEnd - cdsStart = 2 →
           last_codon = [cdsStart; cdsEnd; cdsStart; cdsStart + 1;
                         len frames - 2; len frames - 1]) ∧
          (cdsEnd - cdsStart < 2 → last_codon = zero_codon))).
Proof.
  intros txStart txEnd cdsStart cdsEnd exonStart exonEnd strand frames
    s0 e0 sL eL (Hlen & _ & _ & Hcds & _) Hhead Hlast Hs0 HeL Hfr.
  destruct (exon_frames_spec _ _ _ _ _ _ Hlen Hfr) as [Hfl Hok].
  rewrite head_lookup in Hhead. apply intervals_lookup in Hhead as [Hes0 Hee0].
  rewrite last_lookup, intervals_length in Hlast by done.
  apply intervals_lookup in Hlast as [HesL HeeL].
  destruct (Hok _ _ _ Hes0 Hee0) as (f0 & Hf0 & Hok0).
  destruct (Hok _ _ _ HesL HeeL) as (fL & HfL & HokL).
  assert (Hlastf : last frames = Some fL) by (by rewrite last_lookup, Hfl).
  assert (Hheadf : head frames = Some f0) by (by rewrite head_lookup).
  (* the leading search *)
  assert (Hfirst : ∃ first_codon,
    find_first_codon frames strand cdsStart cdsEnd exonStart exonEnd
    = Ok first_codon ∧
    (f0 = -1 → first_codon = zero_codon) ∧
    (f0 ≠ -1 →
     first_codon =
     if negb (search_phase strand "+" s0 e0 cdsStart cdsEnd f0 =? 0)
     then zero_codon
     else if 3 <=? cdsEnd - cdsStart
     then [cdsStart; cdsStart + 3; 0; 0; 0; 0]
     else if cdsEnd - cdsStart =? 2
     then [cdsStart; cdsStart + 2; cdsStart; cdsStart + 1; 1; 0]
     else zero_codon)).
  { rewrite find_first_codon_cases.
    pose proof (first_codon_at_eq frames strand cdsStart cdsEnd exonStart
                  exonEnd 0 s0 e0 f0 Hes0 Hee0 Hf0) as Hat.
    change (Z.of_nat 0) with 0 in Hat. change (0 + 1) with 1 in Hat.
    destruct frames as [|g0 [|g1 rest]]; [done| |].
    - (* a single exon: the scan loop has no iteration *)
      injection Hf0 as ->.
      assert (length exonStart = 1%nat) as Hone by (by rewrite <- Hfl).
      rewrite Hone in HesL, HeeL. cbn [pred] in HesL, HeeL.
      assert (sL = s0) as -> by congruence.
      assert (eL = e0) as -> by congruence.
      eexists. split; [exact Hat|]. split; [|done].
      intros ->. destruct Hok0 as [[_ Hempty]|[Hpos _]]; [|lia].
      destruct (negb _); [done|].
      replace (3 <=? cdsEnd - cdsStart) with false by lia.
      by replace (cdsEnd - cdsStart =? 2) with false by lia.
    - injection Hf0 as ->. destruct (Z.leb_spec 0 f0) as [Hcoding|Hnot].
      + eexists. split; [exact Hat|]. split; [lia|done].
      + exists zero_codon. split_and!; [done..|].
        intros Hne. destruct Hok0 as [[-> _]|[Hpos _]]; [done|lia]. }
  (* the trailing search *)
  assert (Htrail : ∃ last_codon,
    find_last_codon frames strand cdsStart cdsEnd exonStart exonEnd
    = Ok last_codon ∧
    (fL = -1 → last_codon = zero_codon) ∧
    (fL ≠ -1 →
     last_codon =
     if negb (search_phase strand "-" sL eL cdsStart cdsEnd fL =? 0)
     then zero_codon
     else if 3 <=? cdsEnd - cdsStart
     then [cdsEnd - 3; cdsEnd; 0; 0; len frames - 1; 0]
     else if cdsEnd - cdsStart =? 2
     then [cdsStart; cdsEnd; cdsStart; cdsStart + 1;
           len frames - 1 - 1; len frames - 1]
     else zero_codon)).
  { pose proof Hlastf as [init ->]%last_Some.
    assert (Hinit : length init = pred (length exonStart)).
    { rewrite <- Hfl, length_app. cbn. lia. }
    assert (Hidx : Z.of_nat (pred (length exonStart))
                   = len (init ++ [fL]) - 1).
    { unfold len. rewrite length_app, Hinit. cbn. lia. }
    rewrite find_last_codon_cases.
    destruct (Z.leb_spec 0 fL) as [Hcoding|Hnot].
    2:{ exists zero_codon. split_and!; [done..|].
        intros Hne. destruct HokL as [[-> _]|[Hpos _]]; [done|lia]. }
    rewrite Hinit.
    rewrite (last_codon_at_eq _ strand cdsStart cdsEnd exonStart exonEnd
               _ sL eL fL HesL HeeL HfL).
    rewrite Hidx.
    eexists. split; [done|]. split; [lia|done]. }
  destruct Hfirst as (first_codon & Hfirst & Hfabs & Hfpres).
  destruct Htrail as (last_codon & Htrail & Hlabs & Hlpres).
  exists first_codon, last_codon. split_and!; [done..| | |].
  - intros Hall. split.
    + apply Hfabs. eapply (Forall_lookup_1 _ _ 0%nat) in Hall; done.
    + apply Hlabs. by eapply (Forall_lookup_1 _ _ _ _ Hall) in HfL.
  - intros f0' Hf0' Hne. assert (f0' = f0) as -> by congruence.
    apply (built_codon_spec _ _ _ _ _ (Hfpres Hne)).
  - intros fL' HfL' Hne. assert (fL' = fL) as -> by congruence.
    replace (len frames - 2) with (len frames - 1 - 1) by lia.
    apply (built_codon_spec _ _ _ _ _ (Hlpres Hne)).
Qed.

Lemma codon_search_contract_witness :
  record_invariants 0 300 0 299 [0; 200] [99; 300] ∧
  head (exon_intervals [0; 200] [99; 300]) = Some (0, 99) ∧
  last (exon_intervals [0; 200] [99; 300]) = Some (200, 300) ∧
  0 <= 0 ∧ 299 <= 300 ∧
  exon_frames 0 299 [0; 200] [99; 300] "+" = Ok [0; 0] ∧
  ∃ first_codon last_codon,
    find_first_codon [0; 0] "+" 0 299 [0; 200] [99; 300] = Ok first_codon ∧
    find_last_codon [0; 0] "+" 0 299 [0; 200] [99; 300] = Ok last_codon ∧
    (Forall (fun f => f = -1) [0; 0] →
     first_codon = zero_codon ∧ last_codon = zero_codon) ∧
    (∀ f0, head [0; 0] = Some f0 → f0 ≠ -1 →
       (search_phase "+" "+" 0 99 0 299 f0 ≠ 0 → first_codon = zero_codon) ∧
       (search_phase "+" "+" 0 99 0 299 f0 = 0 →
        (3 <= 299 - 0 → first_codon = [0; 0 + 3; 0; 0; 0; 0]) ∧
        (299 - 0 = 2 → first_codon = [0; 0 + 2; 0; 0 + 1; 1; 0]) ∧
        (299 - 0 < 2 → first_codon = zero_codon))) ∧
    (∀ fL, last [0; 0] = Some fL → fL ≠ -1 →
       (search_phase "+" "-" 200 300 0 299 fL ≠ 0 →
        last_codon = zero_codon) ∧
       (search_phase "+" "-" 200 300 0 299 fL = 0 →
        (3 <= 299 - 0 →
         last_codon = [299 - 3; 299; 0; 0; len [0; 0] - 1; 0]) ∧
        (299 - 0 = 2 →
         last_codon = [0; 299; 0; 0 + 1; len [0; 0] - 2; len [0; 0] - 1]) ∧
        (299 - 0 < 2 → last_codon = zero_codon))).
Proof.
  assert (Hinv : record_invariants 0 300 0 299 [0; 200] [99; 300]).
  { unfold record_invariants. cbn. lia. }
  split_and!; [exact Hinv|reflexivity|reflexivity|lia|lia|reflexivity|].
  apply (codon_search_contract 0 300 0 299 [0; 200] [99; 300] "+" [0; 0]
           0 99 200 300 Hinv);
    first [reflexivity|lia].
Defined.

(** C2: the codon interval is cut from the transcript-wide CDS bounds, not
    from the CDS overlap of the exon found.  For the exons [0, 100) and
    [200, 300) with the CDS [2, 201), whose stop codon has two bases at the
    end of the first exon and one at the start of the second, the trailing
    codon is the single interval [198, 201) across the intron, with an empty
    second interval. *)
Theorem split_codon_not_split :
  let isoforms : gmap string string := {[ "tx1" := "g1" ]} in
  exon_frames 2 201 [0; 200] [100; 300] "+" = Ok [0; 2] ∧
  check_exon_frame 200 300 2 201 = (200, 201) ∧
  find_last_codon [0; 2] "+" 2 201 [0; 200] [100; 300]
  = Ok [198; 201; 0; 0; 1; 0] ∧
  codon_complete [198; 201; 0; 0; 1; 0] = Ok true ∧
  map (fun l => (g_type l, g_start l, g_end l))
    (file (run (BedRecord "chr1" 0 300 "tx1" "+" 2 201 2 [100; 100] [0; 200])
             isoforms (World [] ∅)).2)
  = [("gene", 1, 300); ("transcript", 1, 300); ("exon", 1, 100);
     ("5UTR", 1, 2); ("CDS", 3, 98); ("exon", 201, 300);
     ("3UTR", 202, 300); ("start_codon", 3, 5); ("stop_codon", 199, 201)].
Proof. intros isoforms. split_and!; by vm_compute. Qed.

(** ** The record pipeline *)

Lemma lift_bind {A B} (r : result A) (k : A → io B) w :
  (lift r ≫= k) w = match r with Ok a => k a w | Raise e => (Raise e, w) end.
Proof. unfold mbind, io_bind, lift. by destruct r. Qed.

Lemma io_bind_eq {A B} (m : io A) (k : A → io B) w :
  (m ≫= k) w =
  match m w with
  | (Ok a, w') => k a w'
  | (Raise e, w') => (Raise e, w')
  end.
Proof. reflexivity. Qed.

(** [run] is a chain of pure computations followed by the gene line and the
    rest of the output. *)
Lemma run_blocks r isoforms w :
  run r isoforms w =
  (geneName ← lift (lookup_isoform isoforms (bed_name r)) ;
   '(exonStart, exonEnd) ←
     lift (if negb (bed_exonCount r =? 0)
           then absolute_exons (bed_txStart r) (bed_starts r) (bed_sizes r)
           else Raise TypeError) ;
   frames ← lift (exon_frames (bed_cdsStart r) (bed_cdsEnd r)
                    exonStart exonEnd (bed_strand r)) ;
   first_codon ← lift (find_first_codon frames (bed_strand r)
                         (bed_cdsStart r) (bed_cdsEnd r) exonStart exonEnd) ;
   last_codon ← lift (find_last_codon frames (bed_strand r)
                        (bed_cdsStart r) (bed_cdsEnd r) exonStart exonEnd) ;
   cdsEnd ← lift (trim_cdsEnd (bed_strand r) (bed_txStart r) (bed_txEnd r)
                    (bed_exonCount r) exonStart exonEnd last_codon
                    (bed_cdsEnd r)) ;
   cdsStart ← lift (trim_cdsStart (bed_strand r) (bed_txStart r) (bed_txEnd r)
                      (bed_exonCount r) exonStart exonEnd first_codon
                      (bed_cdsStart r)) ;
   _ ← emit_gene "test" geneName (bed_chrom r) (bed_strand r)
         (bed_txStart r) (bed_txEnd r) ;
   run_tail r geneName exonStart exonEnd frames first_codon last_codon
     cdsStart cdsEnd) w.
Proof.
  unfold run. rewrite !lift_bind.
  destruct (lookup_isoform _ _) as [geneName|]; [|done].
  rewrite !lift_bind.
  destruct (if negb _ then _ else _) as [[exonStart exonEnd]|]; [|done].
  rewrite !lift_bind.
  destruct (exon_frames _ _ _ _ _) as [frames|]; [|done].
  rewrite !lift_bind.
  destruct (find_first_codon _ _ _ _ _ _) as [first_codon|]; [|done].
  rewrite !lift_bind.
  destruct (find_last_codon _ _ _ _ _ _) as [last_codon|]; [|done].
  rewrite !lift_bind. fold (trim_cdsEnd (bed_strand r) (bed_txStart r)
    (bed_txEnd r) (bed_exonCount r) exonStart exonEnd last_codon (bed_cdsEnd r)).
  destruct (trim_cdsEnd _ _ _ _ _ _ _ _) as [cdsEnd|]; [|done].
  rewrite !lift_bind. fold (trim_cdsStart (bed_strand r) (bed_txStart r)
    (bed_txEnd r) (bed_exonCount r) exonStart exonEnd first_codon
    (bed_cdsStart r)).
  destruct (trim_cdsStart _ _ _ _ _ _ _ _) as [cdsStart|]; [|done].
  reflexivity.
Qed.

(** The outcomes of [run]: it fails before writing anything, or it reaches
    the gene line with every intermediate value computed. *)
Lemma run_shape r isoforms w :
  (∃ e, run r isoforms w = (Raise e, w)) ∨
  ∃ geneName exonStart exonEnd frames first_codon last_codon cdsStart cdsEnd,
    isoforms !! bed_name r = Some geneName ∧
    absolute_exons (bed_txStart r) (bed_starts r) (bed_sizes r)
    = Ok (exonStart, exonEnd) ∧
    exon_frames (bed_cdsStart r) (bed_cdsEnd r) exonStart exonEnd
      (bed_strand r) = Ok frames ∧
    find_first_codon frames (bed_strand r) (bed_cdsStart r) (bed_cdsEnd r)
      exonStart exonEnd = Ok first_codon ∧
    find_last_codon frames (bed_strand r) (bed_cdsStart r) (bed_cdsEnd r)
      exonStart exonEnd = Ok last_codon ∧
    trim_cdsEnd (bed_strand r) (bed_txStart r) (bed_txEnd r)
      (bed_exonCount r) exonStart exonEnd last_codon (bed_cdsEnd r)
    = Ok cdsEnd ∧
    trim_cdsStart (bed_strand r) (bed_txStart r) (bed_txEnd r)
      (bed_exonCount r) exonStart exonEnd first_codon (bed_cdsStart r)
    = Ok cdsStart ∧
    run r isoforms w =
    (_ ← emit_gene "test" geneName (bed_chrom r) (bed_strand r)
           (bed_txStart r) (bed_txEnd r) ;
     run_tail r geneName exonStart exonEnd frames first_codon last_codon
       cdsStart cdsEnd) w.
Proof.
  rewrite run_blocks. rewrite lift_bind. unfold lookup_isoform.
  destruct (isoforms !! bed_name r) as [geneName|]; [|left; by eexists].
  rewrite lift_bind.
  destruct (negb (bed_exonCount r =? 0)); [|left; by eexists].
  destruct (absolute_exons _ _ _) as [[exonStart exonEnd]|];
    [|left; by eexists].
  rewrite lift_bind.
  destruct (exon_frames _ _ _ _ _) as [frames|] eqn:Hfr; [|left; by eexists].
  rewrite lift_bind.
  destruct (find_first_codon _ _ _ _ _ _) as [first_codon|] eqn:Hfc;
    [|left; by eexists].
  rewrite lift_bind.
  destruct (find_last_codon _ _ _ _ _ _) as [last_codon|] eqn:Hlc;
    [|left; by eexists].
  rewrite lift_bind.
  destruct (trim_cdsEnd _ _ _ _ _ _ _ _) as [cdsEnd|] eqn:Hce;
    [|left; by eexists].
  rewrite lift_bind.
  destruct (trim_cdsStart _ _ _ _ _ _ _ _) as [cdsStart|] eqn:Hcs;
    [|left; by eexists].
  right. by eexists geneName, exonStart, exonEnd, frames, first_codon,
    last_codon, cdsStart, cdsEnd.
Qed.

(** *** Lines appended by the emitters *)

Lemma emits_ret {A} P (a : A) : emits P (mret a).
Proof. intros w. exists []. cbn. by rewrite app_nil_r. Qed.

Lemma emits_lift {A} P (r : result A) : emits P (lift r).
Proof. intros w. exists []. cbn. by rewrite app_nil_r. Qed.

Lemma emits_bind {A B} P (m : io A) (k : A → io B) :
  emits P m → (∀ a, emits P (k a)) → emits P (m ≫= k).
Proof.
  intros Hm Hk w. rewrite io_bind_eq.
  destruct (Hm w) as (new1 & Hf1 & HP1 & Hg1).
  destruct (m w) as [[a|e] w1]; cbn in *.
  - destruct (Hk a w1) as (new2 & Hf2 & HP2 & Hg2).
    exists (new1 ++ new2). rewrite Hf2, Hf1, Hg2, Hg1, app_assoc.
    split_and!; [done| |done]. by apply Forall_app.
  - by exists new1.
Qed.

Lemma emits_lift_bind {A B} P (r : result A) (k : A → io B) :
  (∀ a, r = Ok a → emits P (k a)) → emits P (lift r ≫= k).
Proof.
  intros Hk w. rewrite lift_bind. destruct r as [a|e].
  - by apply Hk.
  - exists []. cbn. by rewrite app_nil_r.
Qed.

Lemma emits_when P (b : bool) (m : io unit) :
  (b = true → emits P m) → emits P (when b m).
Proof. destruct b; cbn; intros Hm; [by apply Hm | apply emits_ret]. Qed.

Lemma emits_for_io {A} P (xs : list A) (body : A → io unit) :
  Forall (fun x => emits P (body x)) xs → emits P (for_io xs body).
Proof.
  induction 1 as [|x xs Hx _ IH]; cbn [for_io]; [apply emits_ret|].
  apply emits_bind; [done|]. intros _. apply IH.
Qed.

Lemma emits_build_gtf_line P source name chrom strand geneName type_g
    start end_ exon frame exonCount :
  (∀ attrs, P (GtfLine chrom source type_g (start + 1) end_ "." strand
                 (phase_of_frame frame) attrs)) →
  emits P (build_gtf_line source name chrom strand geneName type_g
             start end_ exon frame exonCount).
Proof.
  intros HP w. destruct (Z.le_gt_cases start end_) as [Hle|Hgt].
  - rewrite build_gtf_line_ok by done. eexists [_]. cbn.
    split_and!; [done| |done]. by apply Forall_singleton.
  - rewrite build_gtf_line_fail by lia. exists []. cbn.
    by rewrite app_nil_r.
Qed.

(** A property that only depends on the feature type of a line. *)
Lemma emits_by_type P source name chrom strand geneName type_g
    start end_ exon frame exonCount :
  (∀ l, g_type l = type_g → P l) →
  emits P (build_gtf_line source name chrom strand geneName type_g
             start end_ exon frame exonCount).
Proof. intros HP. apply emits_build_gtf_line. intros attrs. by apply HP. Qed.

Lemma emits_write_codon P source name chrom strand geneName type_g
    codon exonCount :
  (∀ l, g_type l = type_g → P l) →
  emits P (write_codon source name chrom strand geneName type_g
             codon exonCount).
Proof.
  intros HP. unfold write_codon.
  repeat first
    [ by apply emits_by_type
    | apply emits_lift_bind; intros ? _
    | apply emits_when; intros _
    | apply emits_bind; [|intros ?] ].
Qed.

Lemma emits_emit_codons P source name chrom strand geneName
    first_codon last_codon exonCount :
  (∀ l, g_type l = "start_codon" → P l) →
  (∀ l, g_type l = "stop_codon" → P l) →
  emits P (emit_codons source name chrom strand geneName
             first_codon last_codon exonCount).
Proof.
  intros Hstart Hstop. unfold emit_codons.
  destruct (negb _);
    repeat first
      [ by apply emits_write_codon
      | apply emits_lift_bind; intros ? _
      | apply emits_when; intros _
      | apply emits_bind; [|intros ?] ].
Qed.

Lemma getitem_nat_Ok {A} (l : list A) (k : nat) (a : A) :
  getitem l (Z.of_nat k) = Ok a → l !! k = Some a.
Proof. rewrite getitem_nat. destruct (l !! k); congruence. Qed.

(** The three lines [write_features] can write for exon [k]. *)
Lemma emits_write_features P (k : nat) source name chrom strand geneName
    firstUtrEnd cdsStart cdsEnd lastUtrStart frame exonStart exonEnd
    exonCount :
  (∀ es ee attrs,
     exonStart !! k = Some es → exonEnd !! k = Some ee →
     P (GtfLine chrom source (if String.eqb strand "+" then "5UTR" else "3UTR")
          (es + 1) (Z.min ee firstUtrEnd) "." strand (phase_of_frame (-1))
          attrs) ∧
     P (GtfLine chrom source "CDS"
          (Z.max es cdsStart + 1) (Z.min ee cdsEnd) "." strand
          (phase_of_frame frame) attrs) ∧
     P (GtfLine chrom source (if String.eqb strand "+" then "3UTR" else "5UTR")
          (Z.max lastUtrStart es + 1) ee "." strand (phase_of_frame (-1))
          attrs)) →
  emits P (write_features (Z.of_nat k) source name chrom strand geneName
             firstUtrEnd cdsStart cdsEnd lastUtrStart frame
             exonStart exonEnd exonCount).
Proof.
  intros HP. unfold write_features.
  apply emits_lift_bind; intros es Hes. apply getitem_nat_Ok in Hes.
  apply emits_lift_bind; intros ee Hee. apply getitem_nat_Ok in Hee.
  apply emits_bind; [|intros _; apply emits_bind; [|intros _]];
    apply emits_when; intros _; apply emits_build_gtf_line; intros attrs;
    by apply (HP es ee attrs).
Qed.

Lemma emits_emit_exon P (k : nat) source name chrom strand geneName
    first_utr_end cdsStart cdsEnd last_utr_start frames exonStart exonEnd
    exonCount :
  (∀ l, g_type l = "exon" → P l) →
  (∀ es ee fr attrs,
     exonStart !! k = Some es → exonEnd !! k = Some ee →
     frames !! k = Some fr →
     P (GtfLine chrom source (if String.eqb strand "+" then "5UTR" else "3UTR")
          (es + 1) (Z.min ee first_utr_end) "." strand (phase_of_frame (-1))
          attrs) ∧
     P (GtfLine chrom source "CDS"
          (Z.max es cdsStart + 1) (Z.min ee cdsEnd) "." strand
          (phase_of_frame fr) attrs) ∧
     P (GtfLine chrom source (if String.eqb strand "+" then "3UTR" else "5UTR")
          (Z.max last_utr_start es + 1) ee "." strand (phase_of_frame (-1))
          attrs)) →
  emits P (emit_exon source name chrom strand geneName
             first_utr_end cdsStart cdsEnd last_utr_start
             frames exonStart exonEnd exonCount (Z.of_nat k)).
Proof.
  intros Hexon HP. unfold emit_exon.
  apply emits_lift_bind; intros es Hes.
  apply emits_lift_bind; intros ee Hee.
  apply emits_bind; [by apply emits_by_type|intros _].
  apply emits_when; intros _.
  apply emits_lift_bind; intros fr Hfr. apply getitem_nat_Ok in Hfr.
  apply emits_write_features. intros es' ee' attrs Hes' Hee'.
  by apply HP.
Qed.

Lemma emits_run_tail P r geneName exonStart exonEnd frames
    first_codon last_codon cdsStart cdsEnd :
  (∀ l, g_type l = "transcript" → P l) →
  (∀ l, g_type l = "exon" → P l) →
  (∀ l, g_type l = "start_codon" → P l) →
  (∀ l, g_type l = "stop_codon" → P l) →
  (∀ (k : nat) es ee fr attrs,
     exonStart !! k = Some es → exonEnd !! k = Some ee →
     frames !! k = Some fr →
     P (GtfLine (bed_chrom r) "test"
          (if String.eqb (bed_strand r) "+" then "5UTR" else "3UTR")
          (es + 1) (Z.min ee (bed_cdsStart r)) "." (bed_strand r)
          (phase_of_frame (-1)) attrs) ∧
     P (GtfLine (bed_chrom r) "test" "CDS"
          (Z.max es cdsStart + 1) (Z.min ee cdsEnd) "." (bed_strand r)
          (phase_of_frame fr) attrs) ∧
     P (GtfLine (bed_chrom r) "test"
          (if String.eqb (bed_strand r) "+" then "3UTR" else "5UTR")
          (Z.max (bed_cdsEnd r) es + 1) ee "." (bed_strand r)
          (phase_of_frame (-1)) attrs)) →
  emits P (run_tail r geneName exonStart exonEnd frames
             first_codon last_codon cdsStart cdsEnd).
Proof.
  intros Htr Hexon Hstart Hstop HP. unfold run_tail.
  apply emits_bind; [by apply emits_by_type|intros _].
  apply emits_bind; [|intros _; by apply emits_emit_codons].
  apply emits_for_io. rewrite py_range_up.
  apply Forall_fmap, Forall_forall. intros k _. cbn.
  apply emits_emit_exon; [done|]. intros es ee fr attrs. apply HP.
Qed.

Lemma run_tail_no_gene_line r geneName exonStart exonEnd frames
    first_codon last_codon cdsStart cdsEnd :
  emits (fun l => g_type l ≠ "gene")
    (run_tail r geneName exonStart exonEnd frames first_codon last_codon
       cdsStart cdsEnd).
Proof.
  apply emits_run_tail; try (intros l -> ; done).
  intros k es ee fr attrs _ _ _. cbn.
  by destruct (String.eqb (bed_strand r) "+").
Qed.

Lemma run_tail_uses_bounds r geneName exonStart exonEnd frames
    first_codon last_codon cdsStart cdsEnd :
  emits (line_uses_bounds (bed_strand r) exonStart exonEnd frames
           (bed_cdsStart r) cdsStart cdsEnd (bed_cdsEnd r))
    (run_tail r geneName exonStart exonEnd frames first_codon last_codon
       cdsStart cdsEnd).
Proof.
  apply emits_run_tail;
    try (intros l Hl; unfold line_uses_bounds; rewrite Hl;
         by destruct (String.eqb (bed_strand r) "+")).
  intros k es ee fr attrs Hes Hee Hfr.
  unfold line_uses_bounds; cbn.
  destruct (String.eqb (bed_strand r) "+"); split_and!; try done;
    intros _; first [by exists k, es, ee, fr | by exists k, es, ee].
Qed.

(** *** The gene line *)

Lemma emit_gene_cases source geneName chrom strand txStart txEnd w :
  emit_gene source geneName chrom strand txStart txEnd w =
  if has_key (GENES w) geneName then (Ok tt, w)
  else if txStart <=? txEnd then
    (Ok tt,
     World (file w ++ [GtfLine chrom source "gene" (txStart + 1) txEnd "."
                         strand "." [("gene_id", geneName)]])
       (<[geneName := true]> (GENES w)))
  else (Raise AssertionError, w).
Proof.
  unfold emit_gene, get_GENES, when, build_gene_line, assert, lift, write,
    set_GENES, mbind, io_bind, mret, io_ret.
  destruct (has_key (GENES w) geneName); cbn; [done|].
  by destruct (txStart <=? txEnd).
Qed.

Lemma has_key_insert (m : gmap string bool) k k' v :
  has_key (<[k := v]> m) k' = bool_decide (k = k') || has_key m k'.
Proof.
  unfold has_key. destruct (decide (k = k')) as [->|Hne].
  - rewrite lookup_insert_eq. by rewrite bool_decide_eq_true_2.
  - rewrite lookup_insert_ne by done. by rewrite bool_decide_eq_false_2.
Qed.

Lemma count_lines_app p f1 f2 :
  count_lines p (f1 ++ f2) = (count_lines p f1 + count_lines p f2)%nat.
Proof. induction f1 as [|l f1 IH]; cbn; [done|]. rewrite IH. lia. Qed.

Lemma count_no_gene_line g new :
  Forall (fun l => g_type l ≠ "gene") new →
  count_lines (is_gene_line g) new = 0%nat.
Proof.
  induction 1 as [|l new Hl _ IH]; cbn; [done|]. rewrite IH.
  unfold is_gene_line. apply String.eqb_neq in Hl. by rewrite Hl.
Qed.

Lemma is_gene_line_gene chrom source start end_ strand g g' :
  is_gene_line g (GtfLine chrom source "gene" start end_ "." strand "."
                    [("gene_id", g')])
  = bool_decide (g' = g).
Proof.
  unfold is_gene_line; cbn.
  destruct (String.eqb_spec g' g) as [->|Hne].
  - by rewrite bool_decide_eq_true_2.
  - by rewrite bool_decide_eq_false_2.
Qed.

(** What a call of [run] does to the gene lines and to [GENES]: nothing at
    all when it fails early; otherwise it appends lines that are not gene
    lines, preceded by the gene line of the record's gene exactly when that
    gene was not in [GENES], and it registers the gene. *)
Lemma run_gene_effect r isoforms w res w' :
  run r isoforms w = (res, w') →
  (w' = w ∧ ∃ e, res = Raise e) ∨
  ∃ geneName new,
    isoforms !! bed_name r = Some geneName ∧
    Forall (fun l => g_type l ≠ "gene") new ∧
    ((has_key (GENES w) geneName = true ∧ GENES w' = GENES w ∧
      file w' = file w ++ new) ∨
     (has_key (GENES w) geneName = false ∧
      GENES w' = <[geneName := true]> (GENES w) ∧
      file w' = file w ++
                GtfLine (bed_chrom r) "test" "gene" (bed_txStart r + 1)
                  (bed_txEnd r) "." (bed_strand r) "." [("gene_id", geneName)]
                :: new)).
Proof.
  intros Hrun.
  destruct (run_shape r isoforms w)
    as [[e He]|(geneName & exonStart & exonEnd & frames & first_codon &
                last_codon & cdsStart & cdsEnd & Hiso & _ & _ & _ & _ & _ &
                _ & Heq)].
  { rewrite He in Hrun. injection Hrun as <- <-. left. eauto. }
  rewrite Heq, io_bind_eq, emit_gene_cases in Hrun.
  pose proof (run_tail_no_gene_line r geneName exonStart exonEnd frames
                first_codon last_codon cdsStart cdsEnd) as Htail.
  destruct (has_key (GENES w) geneName) eqn:Hkey.
  - destruct (Htail w) as (new & Hfile & Hnew & Hgenes).
    rewrite Hrun in Hfile, Hgenes. cbn in Hfile, Hgenes.
    right. exists geneName, new. split_and!; [done..|]. left. done.
  - destruct (bed_txStart r <=? bed_txEnd r).
    + match type of Hrun with
      | run_tail _ _ _ _ _ _ _ _ _ ?w1 = _ =>
          destruct (Htail w1) as (new & Hfile & Hnew & Hgenes)
      end.
      rewrite Hrun in Hfile, Hgenes. cbn in Hfile, Hgenes.
      right. exists geneName, new. split_and!; [done..|]. right.
      split_and!; [done..|]. by rewrite Hfile, <- app_assoc.
    + injection Hrun as <- <-. left. eauto.
Qed.

(** The invariant that ties the output to the registry: a gene has one gene
    line if it is registered and none otherwise. *)
Lemma run_keeps_gene_invariant r isoforms w res w' :
  run r isoforms w = (res, w') →
  (∀ g, count_lines (is_gene_line g) (file w)
        = if has_key (GENES w) g then 1%nat else 0%nat) →
  ∀ g, count_lines (is_gene_line g) (file w')
       = if has_key (GENES w') g then 1%nat else 0%nat.
Proof.
  intros Hrun Hinv g.
  destruct (run_gene_effect _ _ _ _ _ Hrun)
    as [[-> _]|(geneName & new & _ & Hnew &
                [(Hkey & Hg & Hf)|(Hkey & Hg & Hf)])]; [apply Hinv| |].
  - rewrite Hf, Hg, count_lines_app, (count_no_gene_line g new Hnew).
    rewrite Hinv. lia.
  - rewrite Hf, Hg, count_lines_app. cbn [count_lines].
    rewrite (count_no_gene_line g new Hnew).
    rewrite is_gene_line_gene, has_key_insert, Hinv.
    destruct (decide (geneName = g)) as [->|Hne].
    + rewrite bool_decide_eq_true_2 by done. rewrite Hkey. done.
    + rewrite bool_decide_eq_false_2 by done. cbn.
      destruct (has_key (GENES w) g); lia.
Qed.

Lemma run_registers r isoforms w w' :
  run r isoforms w = (Ok tt, w') →
  ∃ geneName,
    isoforms !! bed_name r = Some geneName ∧
    ∀ g, has_key (GENES w') g = true ↔
         has_key (GENES w) g = true ∨ g = geneName.
Proof.
  intros Hrun.
  destruct (run_gene_effect _ _ _ _ _ Hrun)
    as [[_ [e He]]|(geneName & new & Hiso & _ &
                    [(Hkey & Hg & _)|(Hkey & Hg & _)])]; [done| |];
    exists geneName; (split; [done|]); intros g; rewrite Hg.
  - split; [by left|]. intros [H| ->]; done.
  - rewrite has_key_insert. split.
    + intros [Heq%bool_decide_eq_true|H]%orb_prop; [by right|by left].
    + intros [H| ->]; [by rewrite H, orb_true_r|].
      by rewrite bool_decide_eq_true_2.
Qed.

Lemma run_registry_grows r isoforms w res w' :
  run r isoforms w = (res, w') → GENES w ⊆ GENES w'.
Proof.
  intros Hrun.
  destruct (run_gene_effect _ _ _ _ _ Hrun)
    as [[-> _]|(geneName & new & _ & _ &
                [(Hkey & Hg & _)|(Hkey & Hg & _)])]; [done|by rewrite Hg|].
  rewrite Hg. apply insert_subseteq. unfold has_key in Hkey.
  by destruct (GENES w !! geneName).
Qed.

Lemma run_all_cons r rs isoforms w :
  run_all (r :: rs) isoforms w =
  match run r isoforms w with
  | (Ok _, w1) => run_all rs isoforms w1
  | (Raise e, w1) => (Raise e, w1)
  end.
Proof. reflexivity. Qed.

Lemma run_all_app pre post isoforms w w' :
  run_all (pre ++ post) isoforms w = (Ok tt, w') →
  ∃ w1, run_all pre isoforms w = (Ok tt, w1) ∧
        run_all post isoforms w1 = (Ok tt, w').
Proof.
  revert w. induction pre as [|r pre IH]; intros w; cbn [app].
  - intros Hrun. by exists w.
  - rewrite !run_all_cons. destruct (run r isoforms w) as [[[]|e] w1]; [|done].
    apply IH.
Qed.

Lemma run_all_keeps_gene_invariant rs isoforms :
  ∀ w res w',
    run_all rs isoforms w = (res, w') →
    (∀ g, count_lines (is_gene_line g) (file w)
          = if has_key (GENES w) g then 1%nat else 0%nat) →
    ∀ g, count_lines (is_gene_line g) (file w')
         = if has_key (GENES w') g then 1%nat else 0%nat.
Proof.
  induction rs as [|r rs IH]; intros w res w'.
  - intros [= <- <-]. done.
  - rewrite run_all_cons. destruct (run r isoforms w) as [[[]|e] w1] eqn:Hr.
    + intros Hrest Hinv. eapply IH; [done|].
      by eapply run_keeps_gene_invariant.
    + intros [= <- <-] Hinv. by eapply run_keeps_gene_invariant.
Qed.

Lemma gene_names_cons isoforms r rs :
  gene_names isoforms (r :: rs) =
  match isoforms !! bed_name r with
  | Some g => g :: gene_names isoforms rs
  | None => gene_names isoforms rs
  end.
Proof. reflexivity. Qed.

Lemma run_all_registers rs isoforms :
  ∀ w w',
    run_all rs isoforms w = (Ok tt, w') →
    ∀ g, has_key (GENES w') g = true ↔
         has_key (GENES w) g = true ∨ g ∈ gene_names isoforms rs.
Proof.
  induction rs as [|r rs IH]; intros w w'.
  - intros [= <-] g. unfold gene_names. cbn. rewrite elem_of_nil. tauto.
  - rewrite run_all_cons. destruct (run r isoforms w) as [[[]|e] w1] eqn:Hr;
      [|done].
    intros Hrest g. rewrite (IH _ _ Hrest g).
    destruct (run_registers _ _ _ _ Hr) as (geneName & Hiso & Hreg).
    rewrite Hreg, gene_names_cons, Hiso, elem_of_cons. tauto.
Qed.

Lemma has_key_empty g : has_key ∅ g = false.
Proof. unfold has_key. by rewrite lookup_empty. Qed.

Lemma run_all_gene_count rs isoforms w' :
  run_all rs isoforms (World [] ∅) = (Ok tt, w') →
  ∀ g, count_lines (is_gene_line g) (file w')
       = if decide (g ∈ gene_names isoforms rs) then 1%nat else 0%nat.
Proof.
  intros Hrun g.
  rewrite (run_all_keeps_gene_invariant _ _ _ _ _ Hrun).
  2:{ intros g'. cbn. by rewrite has_key_empty. }
  pose proof (run_all_registers _ _ _ _ Hrun g) as Hreg. cbn in Hreg.
  rewrite has_key_empty in Hreg.
  destruct (decide (g ∈ gene_names isoforms rs)) as [Hin|Hout].
  - replace (has_key (GENES w') g) with true; [done|].
    symmetry. apply Hreg. by right.
  - destruct (has_key (GENES w') g); [|done].
    destruct Hreg as [Hreg _]. destruct (Hreg eq_refl); done.
Qed.

(** C6: in a run that processes all its records, a gene has exactly one gene
    line if some record bears its name and none otherwise; that line is
    written while the first record bearing the name is processed; processing
    a record a second time adds no gene line; and [GENES] only grows. *)
Theorem gene_line_emitted_once :
  ∀ isoforms,
    (∀ rs w',
       run_all rs isoforms (World [] ∅) = (Ok tt, w') →
       ∀ g, count_lines (is_gene_line g) (file w')
            = if decide (g ∈ gene_names isoforms rs) then 1%nat else 0%nat) ∧
    (∀ pre r post g w',
       run_all (pre ++ r :: post) isoforms (World [] ∅) = (Ok tt, w') →
       isoforms !! bed_name r = Some g →
       g ∉ gene_names isoforms pre →
       ∃ w1 w2,
         run_all pre isoforms (World [] ∅) = (Ok tt, w1) ∧
         run r isoforms w1 = (Ok tt, w2) ∧
         run_all post isoforms w2 = (Ok tt, w') ∧
         count_lines (is_gene_line g) (file w1) = 0%nat ∧
         count_lines (is_gene_line g) (file w2) = 1%nat ∧
         count_lines (is_gene_line g) (file w') = 1%nat) ∧
    (∀ r w1 w2 w3,
       run r isoforms w1 = (Ok tt, w2) →
       run r isoforms w2 = (Ok tt, w3) →
       ∀ g, count_lines (is_gene_line g) (file w3)
            = count_lines (is_gene_line g) (file w2)) ∧
    (∀ r w res w', run r isoforms w = (res, w') → GENES w ⊆ GENES w').
Proof.
  intros isoforms. split_and!.
  - intros rs w'. apply run_all_gene_count.
  - intros pre r post g w' Hrun Hiso Hfresh.
    pose proof (run_all_gene_count _ _ _ Hrun g) as Hend.
    destruct (run_all_app _ _ _ _ _ Hrun) as (w1 & Hpre & Hrest).
    rewrite run_all_cons in Hrest.
    destruct (run r isoforms w1) as [[[]|e] w2] eqn:Hr; [|done].
    exists w1, w2. split_and!; [done..| | |].
    + rewrite (run_all_gene_count _ _ _ Hpre g). by rewrite decide_False.
    + rewrite (run_keeps_gene_invariant _ _ _ _ _ Hr).
      2:{ eapply run_all_keeps_gene_invariant; [exact Hpre|].
          intros g'. cbn. by rewrite has_key_empty. }
      destruct (run_registers _ _ _ _ Hr) as (geneName & Hiso' & Hreg).
      replace (has_key (GENES w2) g) with true; [done|].
      symmetry. apply Hreg. right. congruence.
    + rewrite Hend. rewrite decide_True; [done|].
      unfold gene_names. apply list_elem_of_omap. exists r.
      split; [|done]. apply elem_of_app. right. by left.
  - intros r w1 w2 w3 Hfirst Hsecond g.
    destruct (run_registers _ _ _ _ Hfirst) as (geneName & Hiso & Hreg).
    destruct (run_gene_effect _ _ _ _ _ Hsecond)
      as [[_ [e He]]|(geneName' & new & Hiso' & Hnew &
                      [(Hkey & _ & Hf)|(Hkey & _ & _)])]; [done| |].
    + rewrite Hf, count_lines_app, (count_no_gene_line g new Hnew). lia.
    + assert (geneName' = geneName) as -> by congruence.
      assert (has_key (GENES w2) geneName = true) as Hin
        by (apply Hreg; by right).
      congruence.
  - intros r w res w'. apply run_registry_grows.
Qed.

Lemma gene_line_emitted_once_witness :
  let isoforms : gmap string string := {[ "tx1" := "g1" ]} in
  let r := BedRecord "chr1" 0 300 "tx1" "+" 20 20 2 [100; 100] [0; 200] in
  let w' := (run_all [r; r] isoforms (World [] ∅)).2 in
  run_all [r; r] isoforms (World [] ∅) = (Ok tt, w') ∧
  count_lines (is_gene_line "g1") (file w')
  = if decide ("g1" ∈ gene_names isoforms [r; r]) then 1%nat else 0%nat.
Proof.
  intros isoforms r w'. split; [by vm_compute|].
  apply (proj1 (gene_line_emitted_once isoforms) [r; r] w').
  by vm_compute.
Defined.

(** *** The stop-codon trim *)

Lemma trim_cdsEnd_plus txStart txEnd exonCount exonStart exonEnd last_codon
    cdsEnd cdsEnd' :
  trim_cdsEnd "+" txStart txEnd exonCount exonStart exonEnd last_codon cdsEnd
  = Ok cdsEnd' →
  codon_complete last_codon = Ok true →
  move_pos txStart txEnd exonCount exonStart exonEnd cdsEnd (-3) = Ok cdsEnd'.
Proof.
  unfold trim_cdsEnd. change (String.eqb "+" "+") with true. cbv iota.
  intros H Hc. by rewrite Hc in H.
Qed.

Lemma trim_cdsStart_minus txStart txEnd exonCount exonStart exonEnd
    first_codon cdsStart cdsStart' :
  trim_cdsStart "-" txStart txEnd exonCount exonStart exonEnd first_codon
    cdsStart = Ok cdsStart' →
  codon_complete first_codon = Ok true →
  move_pos txStart txEnd exonCount exonStart exonEnd cdsStart 3
  = Ok cdsStart'.
Proof.
  unfold trim_cdsStart. change (String.eqb "-" "-") with true. cbv iota.
  intros H Hc. by rewrite Hc in H.
Qed.

(** C4 (amended): the trim narrows only [cdsEnd] on the plus strand and only
    [cdsStart] on the minus strand, to the position [move_pos] reaches in 3
    steps, which for well-formed exon lists lies 3 bases further in along
    the spliced transcript; the frames are those computed from the bounds
    before the trim;
    every CDS line is clipped to the bounds after the trim and carries the
    phase of its exon's frame; every UTR line is clipped at the bounds
    before the trim. *)
Theorem trim_changes_cds_lines_only :
  ∀ r isoforms w w',
    run r isoforms w = (Ok tt, w') →
    ∃ exonStart exonEnd frames first_codon last_codon cdsStart' cdsEnd' new,
      absolute_exons (bed_txStart r) (bed_starts r) (bed_sizes r)
      = Ok (exonStart, exonEnd) ∧
      exon_frames (bed_cdsStart r) (bed_cdsEnd r) exonStart exonEnd
        (bed_strand r) = Ok frames ∧
      find_first_codon frames (bed_strand r) (bed_cdsStart r) (bed_cdsEnd r)
        exonStart exonEnd = Ok first_codon ∧
      find_last_codon frames (bed_strand r) (bed_cdsStart r) (bed_cdsEnd r)
        exonStart exonEnd = Ok last_codon ∧
      (bed_strand r = "+" → codon_complete last_codon = Ok true →
       cdsStart' = bed_cdsStart r ∧
       move_pos (bed_txStart r) (bed_txEnd r) (bed_exonCount r)
         exonStart exonEnd (bed_cdsEnd r) (-3) = Ok cdsEnd' ∧
       (exons_wf (bed_exonCount r) exonStart exonEnd →
        ∃ k, first_exon_of exonStart exonEnd (bed_cdsEnd r) k ∧
             at_offset exonStart exonEnd cdsEnd'
               (transcript_offset exonStart exonEnd k (bed_cdsEnd r) - 3))) ∧
      (bed_strand r = "-" → codon_complete first_codon = Ok true →
       cdsEnd' = bed_cdsEnd r ∧
       move_pos (bed_txStart r) (bed_txEnd r) (bed_exonCount r)
         exonStart exonEnd (bed_cdsStart r) 3 = Ok cdsStart' ∧
       (exons_wf (bed_exonCount r) exonStart exonEnd →
        ∃ k, first_exon_of exonStart exonEnd (bed_cdsStart r) k ∧
             at_offset exonStart exonEnd cdsStart'
               (transcript_offset exonStart exonEnd k (bed_cdsStart r) + 3))) ∧
      file w' = file w ++ new ∧
      lines_use_bounds (bed_strand r) exonStart exonEnd frames
        (bed_cdsStart r) cdsStart' cdsEnd' (bed_cdsEnd r) new.
Proof.
  intros r isoforms w w' Hrun.
  destruct (run_shape r isoforms w)
    as [[e He]|(geneName & exonStart & exonEnd & frames & first_codon &
                last_codon & cdsStart' & cdsEnd' & Hiso & Habs & Hfr & Hfc &
                Hlc & Hce & Hcs & Heq)]; [congruence|].
  rewrite Heq, io_bind_eq, emit_gene_cases in Hrun.
  pose proof (run_tail_uses_bounds r geneName exonStart exonEnd frames
                first_codon last_codon cdsStart' cdsEnd') as Htail.
  assert (Hlines : ∃ new, file w' = file w ++ new ∧
            lines_use_bounds (bed_strand r) exonStart exonEnd frames
              (bed_cdsStart r) cdsStart' cdsEnd' (bed_cdsEnd r) new).
  { destruct (has_key (GENES w) geneName).
    - destruct (Htail w) as (new & Hfile & Hnew & _).
      rewrite Hrun in Hfile. by exists new.
    - destruct (bed_txStart r <=? bed_txEnd r); [|done].
      match type of Hrun with
      | run_tail _ _ _ _ _ _ _ _ _ ?w1 = _ =>
          destruct (Htail w1) as (new & Hfile & Hnew & _)
      end.
      rewrite Hrun in Hfile. cbn in Hfile. eexists (_ :: new).
      split; [by rewrite Hfile, <- app_assoc|].
      apply Forall_cons. split; [|done].
      unfold line_uses_bounds; cbn.
      by destruct (String.eqb (bed_strand r) "+"). }
  destruct Hlines as (new & Hfile & Hnew).
  exists exonStart, exonEnd, frames, first_codon, last_codon,
    cdsStart', cdsEnd', new.
  split_and!; [done..| | |done|done].
  - intros Hplus Hcomplete. rewrite Hplus in Hce, Hcs.
    pose proof (trim_cdsEnd_plus _ _ _ _ _ _ _ _ Hce Hcomplete) as Hmove.
    split_and!; [|done|].
    + unfold trim_cdsStart in Hcs.
      change (String.eqb "+" "-") with false in Hcs. congruence.
    + intros Hwf. by eapply move_pos_walks_distance.
  - intros Hminus Hcomplete. rewrite Hminus in Hce, Hcs.
    pose proof (trim_cdsStart_minus _ _ _ _ _ _ _ _ Hcs Hcomplete) as Hmove.
    split_and!; [|done|].
    + unfold trim_cdsEnd in Hce.
      change (String.eqb "-" "+") with false in Hce. congruence.
    + intros Hwf. by eapply move_pos_walks_distance.
Qed.

Lemma trim_changes_cds_lines_only_witness :
  let isoforms : gmap string string := {[ "tx1" := "g1" ]} in
  let r := BedRecord "chr1" 0 300 "tx1" "+" 0 300 1 [300] [0] in
  let w' := (run r isoforms (World [] ∅)).2 in
  run r isoforms (World [] ∅) = (Ok tt, w') ∧
  ∃ exonStart exonEnd frames first_codon last_codon cdsStart' cdsEnd' new,
    absolute_exons (bed_txStart r) (bed_starts r) (bed_sizes r)
    = Ok (exonStart, exonEnd) ∧
    exon_frames (bed_cdsStart r) (bed_cdsEnd r) exonStart exonEnd
      (bed_strand r) = Ok frames ∧
    find_first_codon frames (bed_strand r) (bed_cdsStart r) (bed_cdsEnd r)
      exonStart exonEnd = Ok first_codon ∧
    find_last_codon frames (bed_strand r) (bed_cdsStart r) (bed_cdsEnd r)
      exonStart exonEnd = Ok last_codon ∧
    (bed_strand r = "+" → codon_complete last_codon = Ok true →
     cdsStart' = bed_cdsStart r ∧
     move_pos (bed_txStart r) (bed_txEnd r) (bed_exonCount r)
       exonStart exonEnd (bed_cdsEnd r) (-3) = Ok cdsEnd' ∧
     (exons_wf (bed_exonCount r) exonStart exonEnd →
      ∃ k, first_exon_of exonStart exonEnd (bed_cdsEnd r) k ∧
           at_offset exonStart exonEnd cdsEnd'
             (transcript_offset exonStart exonEnd k (bed_cdsEnd r) - 3))) ∧
    (bed_strand r = "-" → codon_complete first_codon = Ok true →
     cdsEnd' = bed_cdsEnd r ∧
     move_pos (bed_txStart r) (bed_txEnd r) (bed_exonCount r)
       exonStart exonEnd (bed_cdsStart r) 3 = Ok cdsStart' ∧
     (exons_wf (bed_exonCount r) exonStart exonEnd →
      ∃ k, first_exon_of exonStart exonEnd (bed_cdsStart r) k ∧
           at_offset exonStart exonEnd cdsStart'
             (transcript_offset exonStart exonEnd k (bed_cdsStart r) + 3))) ∧
    file w' = file (World [] ∅) ++ new ∧
    lines_use_bounds (bed_strand r) exonStart exonEnd frames
      (bed_cdsStart r) cdsStart' cdsEnd' (bed_cdsEnd r) new.
Proof.
  intros isoforms r w'. split; [by vm_compute|].
  apply (trim_changes_cds_lines_only r isoforms (World [] ∅) w').
  by vm_compute.
Defined.

(** C4, as stated, fails for the UTR lines: for the single exon [0, 400)
    with the CDS [0, 300) on the plus strand the trim moves [cdsEnd] to 297,
    but the trailing UTR line still starts at the old [cdsEnd] (column 301),
    not at the new one. *)
Lemma utr_lines_counterexample :
  let isoforms : gmap string string := {[ "tx1" := "g1" ]} in
  let r := BedRecord "chr1" 0 400 "tx1" "+" 0 300 1 [400] [0] in
  let w' := (run r isoforms (World [] ∅)).2 in
  run r isoforms (World [] ∅) = (Ok tt, w') ∧
  exon_frames 0 300 [0] [400] "+" = Ok [0] ∧
  move_pos 0 400 1 [0] [400] 300 (-3) = Ok 297 ∧
  map (fun l => (g_type l, g_start l, g_end l)) (file w')
  = [("gene", 1, 400); ("transcript", 1, 400); ("exon", 1, 400);
     ("CDS", 1, 297); ("3UTR", 301, 400);
     ("start_codon", 1, 3); ("stop_codon", 298, 300)] ∧
  ¬ lines_use_bounds "+" [0] [400] [0] 0 0 297 297 (file w').
Proof.
  intros isoforms r w'. split_and!; [by vm_compute..|].
  intros Hall.
  eapply (Forall_lookup_1 _ _ 4%nat) in Hall; [|by vm_compute].
  destruct Hall as (_ & _ & Hutr).
  destruct (Hutr eq_refl) as (x & es & ee & Hes & _ & Hstart & _).
  destruct x as [|x]; [|done]. injection Hes as <-.
  cbn in Hstart. lia.
Qed.

(** * Further properties *)

(** ** The frame calculator, exon by exon *)

(** The loop of [exon_frames], exon by exon: the frame written for an exon
    is the count of the CDS bases met so far, modulo 3. *)
Lemma exon_frames_for_each_prefix cdsStart cdsEnd exonStart exonEnd :
  (length exonStart <= length exonEnd)%nat →
  ∀ (idxs : list nat) frames cds,
    length frames = length exonStart →
    Forall (fun k => (k < length exonStart)%nat) idxs →
    NoDup idxs →
    ∃ frames' cds',
      for_each (exon_frames_body cdsStart cdsEnd exonStart exonEnd)
        (frames, cds) (map Z.of_nat idxs)
      = Ok (frames', cds')
      ∧ length frames' = length exonStart
      ∧ (∀ pre k post s e,
           idxs = pre ++ k :: post →
           exonStart !! k = Some s → exonEnd !! k = Some e →
           frames' !! k
           = Some (if Z.max s cdsStart <? Z.min e cdsEnd
                   then (cds + Zsum (map (fun i => overlap (exonStart !!! i)
                                                     (exonEnd !!! i)
                                                     cdsStart cdsEnd) pre))
                        mod 3
                   else -1))
      ∧ (∀ k, k ∉ idxs → frames' !! k = frames !! k).
Proof.
  intros Hlen.
  induction idxs as [|k idxs IH]; intros frames cds Hfr Hall Hnodup.
  { exists frames, cds. cbn. split_and!; [done..| |done].
    intros [|??] ?????; done. }
  apply Forall_cons in Hall as [Hk Hall].
  apply NoDup_cons in Hnodup as [Hfresh Hnodup].
  destruct (lookup_lt_is_Some_2 exonStart k Hk) as [s Hs].
  destruct (lookup_lt_is_Some_2 exonEnd k) as [e He]; [lia|].
  cbn [map for_each].
  rewrite (exon_frames_body_eq _ _ _ _ _ _ _ s e) by (done || lia).
  cbn [mbind result_bind].
  destruct (IH (<[k := if Z.max s cdsStart <? Z.min e cdsEnd
                       then cds mod 3 else -1]> frames)
              (cds + overlap s e cdsStart cdsEnd))
    as (frames' & cds' & Hloop & Hlen' & Hin & Hout);
    [by rewrite length_insert|done|done|].
  exists frames', cds'. rewrite Hloop. split_and!; [done..| |].
  - intros [|k0 pre] k' post s' e' Heq Hs' He'; cbn [app] in Heq.
    + injection Heq as <- <-.
      assert (s' = s) as -> by congruence.
      assert (e' = e) as -> by congruence.
      rewrite (Hout k Hfresh), list_lookup_insert_eq by lia.
      cbn [map]. change (Zsum []) with 0. by rewrite Z.add_0_r.
    + injection Heq as <- ->.
      rewrite (Hin pre k' post s' e' eq_refl Hs' He').
      cbn [map]. rewrite Zsum_cons.
      rewrite (list_lookup_total_correct _ _ _ Hs),
        (list_lookup_total_correct _ _ _ He).
      by rewrite Z.add_assoc.
  - intros k' Hk'. apply not_elem_of_cons in Hk' as [Hne Hk'].
    rewrite (Hout k' Hk'). by apply list_lookup_insert_ne.
Qed.

(** The CDS bases of a run of consecutive exons. *)
Lemma overlaps_slice cdsStart cdsEnd (exonStart exonEnd : list Z) (a m : nat) :
  (a + m <= length exonStart)%nat → (length exonStart <= length exonEnd)%nat →
  map (fun i => overlap (exonStart !!! i) (exonEnd !!! i) cdsStart cdsEnd)
    (seq a m)
  = take m (drop a (map (fun se => overlap se.1 se.2 cdsStart cdsEnd)
                      (exon_intervals exonStart exonEnd))).
Proof.
  intros Ham Hlen. apply list_eq. intros i.
  rewrite list_lookup_fmap.
  destruct (decide (i < m)%nat) as [Hi|Hi].
  - rewrite lookup_take_lt, lookup_drop, list_lookup_fmap by done.
    rewrite lookup_seq_lt by done. cbn.
    destruct (lookup_lt_is_Some_2 exonStart (a + i)) as [s Hs]; [lia|].
    destruct (lookup_lt_is_Some_2 exonEnd (a + i)) as [e He]; [lia|].
    unfold exon_intervals. rewrite lookup_zip_with, Hs. cbn. rewrite He. cbn.
    by rewrite (list_lookup_total_correct _ _ _ Hs),
      (list_lookup_total_correct _ _ _ He).
  - rewrite lookup_take_ge by lia. rewrite lookup_seq_ge by lia. done.
Qed.

Lemma intervals_length_le exonStart exonEnd :
  (length exonStart <= length exonEnd)%nat →
  length (exon_intervals exonStart exonEnd) = length exonStart.
Proof. intros Hlen. unfold exon_intervals. rewrite length_zip_with. lia. Qed.

Lemma exon_frames_loop_prefix cdsStart cdsEnd exonStart exonEnd strand :
  (length exonStart <= length exonEnd)%nat →
  ∃ frames cds,
    exon_frames_loop cdsStart cdsEnd exonStart exonEnd strand
    = Ok (frames, cds) ∧
    length frames = length exonStart ∧
    ∀ (k : nat) s e,
      exonStart !! k = Some s → exonEnd !! k = Some e →
      frames !! k
      = Some (if Z.max s cdsStart <? Z.min e cdsEnd
              then preceding_cds cdsStart cdsEnd exonStart exonEnd strand k
                   mod 3
              else -1).
Proof.
  intros Hlen. unfold exon_frames_loop, preceding_cds.
  set (n := length exonStart).
  destruct (String.eqb strand "+").
  - unfold len. rewrite py_range_up, Nat2Z.id. fold n.
    destruct (exon_frames_for_each_prefix cdsStart cdsEnd exonStart exonEnd
                Hlen (seq 0 n) (replicate n 0) 0)
      as (frames & cds & Hloop & Hfl & Hin & _).
    { by rewrite length_replicate. }
    { apply Forall_forall. intros k Hk.
      apply list_elem_of_In, in_seq in Hk. lia. }
    { apply NoDup_ListNoDup, seq_NoDup. }
    exists frames, cds. split_and!; [done..|].
    intros k s e Hs He. pose proof (lookup_lt_Some _ _ _ Hs) as Hk. fold n in Hk.
    rewrite (Hin (seq 0 k) k (seq (S k) (n - S k)) s e); [|  |done..].
    + rewrite overlaps_slice by (fold n; lia). by rewrite drop_0.
    + replace n with (k + S (n - S k))%nat at 1 by lia.
      by rewrite seq_app.
  - unfold len. fold n. rewrite py_range_down.
    destruct (exon_frames_for_each_prefix cdsStart cdsEnd exonStart exonEnd
                Hlen (rev (seq 0 n)) (replicate n 0) 0)
      as (frames & cds & Hloop & Hfl & Hin & _).
    { by rewrite length_replicate. }
    { apply Forall_forall. intros k Hk.
      apply list_elem_of_In, in_rev, in_seq in Hk. lia. }
    { apply NoDup_ListNoDup, NoDup_rev, seq_NoDup. }
    exists frames, cds. split_and!; [done..|].
    intros k s e Hs He. pose proof (lookup_lt_Some _ _ _ Hs) as Hk. fold n in Hk.
    rewrite (Hin (rev (seq (S k) (n - S k))) k (rev (seq 0 k)) s e);
      [| |done..].
    + rewrite map_rev, Zsum_rev, overlaps_slice by (fold n; lia).
      rewrite take_ge; [done|].
      rewrite length_drop, length_map, intervals_length_le by done.
      fold n. lia.
    + replace n with (k + S (n - S k))%nat at 1 by lia.
      rewrite seq_app, rev_app_distr. cbn [seq rev Nat.add].
      by rewrite <- app_assoc.
Qed.

(** An exon whose end is missing stops the loop with [IndexError]. *)
Lemma exon_frames_for_each_short cdsStart cdsEnd exonStart exonEnd :
  ∀ (idxs : list nat) frames cds,
    length frames = length exonStart →
    Forall (fun k => (k < length exonStart)%nat) idxs →
    Exists (fun k => (length exonEnd <= k)%nat) idxs →
    for_each (exon_frames_body cdsStart cdsEnd exonStart exonEnd)
      (frames, cds) (map Z.of_nat idxs)
    = Raise IndexError.
Proof.
  induction idxs as [|k idxs IH]; intros frames cds Hfr Hall Hbad.
  { by apply Exists_nil in Hbad. }
  apply Forall_cons in Hall as [Hk Hall].
  destruct (lookup_lt_is_Some_2 exonStart k Hk) as [s Hs].
  cbn [map for_each].
  destruct (decide (k < length exonEnd)%nat) as [Hke|Hke].
  - destruct (lookup_lt_is_Some_2 exonEnd k Hke) as [e He].
    rewrite (exon_frames_body_eq _ _ _ _ _ _ _ s e) by (done || lia).
    cbn [mbind result_bind]. apply IH; [by rewrite length_insert|done|].
    apply Exists_cons in Hbad as [Hbad|Hbad]; [lia|done].
  - unfold exon_frames_body. rewrite !getitem_nat, Hs.
    rewrite (lookup_ge_None_2 exonEnd k) by lia. done.
Qed.

(** X1: [exon_frames] gives every exon its reading frame.  When every exon
    has an end, the call returns one entry per exon; the entry of an exon
    without CDS bases is -1, and the entry of an exon with CDS bases is the
    number of CDS bases in the exons transcribed before it, modulo 3, hence
    one of 0, 1 and 2. *)
Theorem exon_frames_counts_preceding_cds :
  ∀ cdsStart cdsEnd exonStart exonEnd strand,
    (length exonStart <= length exonEnd)%nat →
    ∃ frames,
      exon_frames cdsStart cdsEnd exonStart exonEnd strand = Ok frames ∧
      length frames = length exonStart ∧
      ∀ (k : nat) s e,
        exonStart !! k = Some s → exonEnd !! k = Some e →
        ∃ f, frames !! k = Some f ∧ -1 <= f <= 2 ∧
             (f = -1 ↔ overlap s e cdsStart cdsEnd = 0) ∧
             (0 < overlap s e cdsStart cdsEnd →
              f = preceding_cds cdsStart cdsEnd exonStart exonEnd strand k
                  mod 3).
Proof.
  intros cdsStart cdsEnd exonStart exonEnd strand Hlen.
  destruct (exon_frames_loop_prefix cdsStart cdsEnd exonStart exonEnd strand
              Hlen) as (frames & cds & Hloop & Hfl & Hfr).
  exists frames. unfold exon_frames. rewrite Hloop.
  split_and!; [done..|].
  intros k s e Hs He. rewrite (Hfr k s e Hs He). eexists. split; [done|].
  pose proof (Z.mod_pos_bound
                (preceding_cds cdsStart cdsEnd exonStart exonEnd strand k) 3).
  unfold overlap.
  destruct (Z.ltb_spec (Z.max s cdsStart) (Z.min e cdsEnd)); lia.
Qed.

Lemma exon_frames_counts_preceding_cds_witness :
  (length [0; 200] <= length [100; 300])%nat ∧
  ∃ frames,
    exon_frames 50 250 [0; 200] [100; 300] "-" = Ok frames ∧
    length frames = length [0; 200] ∧
    ∀ (k : nat) s e,
      [0; 200] !! k = Some s → [100; 300] !! k = Some e →
      ∃ f, frames !! k = Some f ∧ -1 <= f <= 2 ∧
           (f = -1 ↔ overlap s e 50 250 = 0) ∧
           (0 < overlap s e 50 250 →
            f = preceding_cds 50 250 [0; 200] [100; 300] "-" k mod 3).
Proof.
  split; [cbn; lia|].
  apply (exon_frames_counts_preceding_cds 50 250 [0; 200] [100; 300] "-").
  cbn. lia.
Defined.

Lemma exon_frames_short cdsStart cdsEnd exonStart exonEnd strand :
  (length exonEnd < length exonStart)%nat →
  exon_frames cdsStart cdsEnd exonStart exonEnd strand = Raise IndexError.
Proof.
  intros Hlt. unfold exon_frames, exon_frames_loop, len.
  set (n := length exonStart). fold n in Hlt.
  assert (Hin : length exonEnd ∈ seq 0 n).
  { apply list_elem_of_In, in_seq. lia. }
  destruct (String.eqb strand "+").
  - rewrite py_range_up, Nat2Z.id.
    rewrite exon_frames_for_each_short; [done|by rewrite length_replicate| |].
    + apply Forall_forall. intros k Hk.
      apply list_elem_of_In, in_seq in Hk. fold n. lia.
    + apply Exists_exists. exists (length exonEnd). split; [done|lia].
  - rewrite py_range_down.
    rewrite exon_frames_for_each_short; [done|by rewrite length_replicate| |].
    + apply Forall_forall. intros k Hk.
      apply list_elem_of_In, in_rev, in_seq in Hk. fold n. lia.
    + apply Exists_exists. exists (length exonEnd). split; [|lia].
      apply list_elem_of_In. apply -> in_rev. by apply list_elem_of_In.
Qed.

Lemma exon_frames_raise cdsStart cdsEnd exonStart exonEnd strand e :
  exon_frames cdsStart cdsEnd exonStart exonEnd strand = Raise e →
  e = IndexError ∧ (length exonEnd < length exonStart)%nat.
Proof.
  destruct (decide (length exonEnd < length exonStart)%nat) as [Hlt|Hge].
  - rewrite exon_frames_short by done. by intros [= <-].
  - destruct (exon_frames_loop_prefix cdsStart cdsEnd exonStart exonEnd
                strand) as (frames & cds & Hok & _); [lia|].
    unfold exon_frames. by rewrite Hok.
Qed.

(** X2: the only exception of [exon_frames] is the [IndexError] of an exon
    without an end: the call raises it exactly when [exonEnd] is shorter than
    [exonStart], whatever the strand and the CDS, and raises nothing
    else. *)
Theorem exon_frames_raises_iff_short :
  ∀ cdsStart cdsEnd exonStart exonEnd strand,
    (∀ e, exon_frames cdsStart cdsEnd exonStart exonEnd strand = Raise e →
          e = IndexError) ∧
    (exon_frames cdsStart cdsEnd exonStart exonEnd strand = Raise IndexError
     ↔ (length exonEnd < length exonStart)%nat).
Proof.
  intros cdsStart cdsEnd exonStart exonEnd strand. split; [|split].
  - intros e He. by apply exon_frames_raise in He as [-> _].
  - intros He. by apply exon_frames_raise in He as [_ Hlt].
  - apply exon_frames_short.
Qed.

Lemma exon_frames_raises_iff_short_witness :
  (length [100] < length [0; 200])%nat ∧
  exon_frames 20 250 [0; 200] [100] "-" = Raise IndexError.
Proof.
  assert (Hshort : (length [100] < length [0; 200])%nat) by (cbn; lia).
  split; [exact Hshort|].
  exact (proj2 (proj2 (exon_frames_raises_iff_short 20 250 [0; 200] [100] "-"))
           Hshort).
Defined.

(** ** The descriptors of the codon searches *)

Lemma first_codon_at_lookup frames strand cdsStart cdsEnd exonStart exonEnd
    (k : nat) :
  (∃ codon, first_codon_at frames strand cdsStart cdsEnd exonStart exonEnd
              (Z.of_nat k) = Ok codon ∧
            first_descriptor cdsStart cdsEnd (Z.of_nat k) codon ∧
            is_Some (exonStart !! k) ∧ is_Some (exonEnd !! k) ∧
            is_Some (frames !! k)) ∨
  (first_codon_at frames strand cdsStart cdsEnd exonStart exonEnd
     (Z.of_nat k) = Raise IndexError ∧
   (exonStart !! k = None ∨ exonEnd !! k = None ∨ frames !! k = None)).
Proof.
  destruct (exonStart !! k) as [s|] eqn:Hs.
  2:{ right. split; [|by left]. unfold first_codon_at.
      by rewrite (getitem_nat exonStart), Hs. }
  destruct (exonEnd !! k) as [e|] eqn:He.
  2:{ right. split; [|by right; left]. unfold first_codon_at.
      by rewrite (getitem_nat exonStart), (getitem_nat exonEnd), Hs, He. }
  destruct (frames !! k) as [f|] eqn:Hf.
  2:{ right. split; [|by right; right]. unfold first_codon_at.
      by rewrite (getitem_nat exonStart), (getitem_nat exonEnd),
        (getitem_nat frames), Hs, He, Hf. }
  left. rewrite (first_codon_at_eq _ _ _ _ _ _ k s e f) by done.
  eexists. split; [done|]. split; [|by eauto].
  unfold first_descriptor. destruct (negb _); [by left|].
  destruct (Z.leb_spec 3 (cdsEnd - cdsStart)); [right; left; done|].
  destruct (Z.eqb_spec (cdsEnd - cdsStart) 2) as [Htwo|]; [|by left].
  right; right. split; [done|]. by replace (cdsStart + 2) with cdsEnd by lia.
Qed.

Lemma last_codon_at_lookup frames strand cdsStart cdsEnd exonStart exonEnd
    (k : nat) :
  (∃ codon, last_codon_at frames strand cdsStart cdsEnd exonStart exonEnd
              (Z.of_nat k) = Ok codon ∧
            last_descriptor cdsStart cdsEnd (Z.of_nat k) codon ∧
            is_Some (exonStart !! k) ∧ is_Some (exonEnd !! k) ∧
            is_Some (frames !! k)) ∨
  (last_codon_at frames strand cdsStart cdsEnd exonStart exonEnd
     (Z.of_nat k) = Raise IndexError ∧
   (exonStart !! k = None ∨ exonEnd !! k = None ∨ frames !! k = None)).
Proof.
  destruct (exonStart !! k) as [s|] eqn:Hs.
  2:{ right. split; [|by left]. unfold last_codon_at.
      by rewrite (getitem_nat exonStart), Hs. }
  destruct (exonEnd !! k) as [e|] eqn:He.
  2:{ right. split; [|by right; left]. unfold last_codon_at.
      by rewrite (getitem_nat exonStart), (getitem_nat exonEnd), Hs, He. }
  destruct (frames !! k) as [f|] eqn:Hf.
  2:{ right. split; [|by right; right]. unfold last_codon_at.
      by rewrite (getitem_nat exonStart), (getitem_nat exonEnd),
        (getitem_nat frames), Hs, He, Hf. }
  left. rewrite (last_codon_at_eq _ _ _ _ _ _ k s e f) by done.
  eexists. split; [done|]. split; [|by eauto].
  unfold last_descriptor. destruct (negb _); [by left|].
  destruct (Z.leb_spec 3 (cdsEnd - cdsStart)); [right; left; done|].
  destruct (Z.eqb_spec (cdsEnd - cdsStart) 2) as [Htwo|]; [|by left].
  right; right. done.
Qed.

(** The leading search looks at exon 0 only. *)
Lemma find_first_codon_descriptor frames strand cdsStart cdsEnd
    exonStart exonEnd codon :
  find_first_codon frames strand cdsStart cdsEnd exonStart exonEnd = Ok codon →
  first_descriptor cdsStart cdsEnd 0 codon.
Proof.
  rewrite find_first_codon_cases.
  destruct (first_codon_at_lookup frames strand cdsStart cdsEnd
              exonStart exonEnd 0) as [(c & Hc & Hd & _)|[Hc _]];
    change (Z.of_nat 0) with 0 in *; rewrite Hc.
  - destruct frames as [|f0 [|f1 rest]]; try by intros [= <-].
    destruct (0 <=? f0); intros [= <-]; [done|by left].
  - destruct frames as [|f0 [|f1 rest]]; try done.
    destruct (0 <=? f0); [done|]. intros [= <-]. by left.
Qed.

(** The trailing search looks at the last exon only. *)
Lemma find_last_codon_descriptor frames strand cdsStart cdsEnd
    exonStart exonEnd codon :
  find_last_codon frames strand cdsStart cdsEnd exonStart exonEnd = Ok codon →
  last_descriptor cdsStart cdsEnd (len frames - 1) codon.
Proof.
  destruct frames as [|f frames _] using rev_ind.
  - change (find_last_codon [] strand cdsStart cdsEnd exonStart exonEnd)
      with (last_codon_at [] strand cdsStart cdsEnd exonStart exonEnd
              (Z.of_nat 0)).
    destruct (last_codon_at_lookup [] strand cdsStart cdsEnd
                exonStart exonEnd 0) as [(c & _ & _ & _ & _ & Hf)|[Hc _]].
    + by destruct Hf.
    + by rewrite Hc.
  - rewrite find_last_codon_cases.
    replace (len (frames ++ [f]) - 1) with (Z.of_nat (length frames))
      by (unfold len; rewrite length_app; cbn; lia).
    destruct (0 <=? f); [|intros [= <-]; by left].
    destruct (last_codon_at_lookup (frames ++ [f]) strand cdsStart cdsEnd
                exonStart exonEnd (length frames))
      as [(c & Hc & Hd & _)|[Hc _]]; rewrite Hc; [|done].
    by intros [= <-].
Qed.

Lemma codon_complete_eq c0 c1 c2 c3 c4 c5 :
  codon_complete [c0; c1; c2; c3; c4; c5]
  = Ok ((c1 - c0) + (c3 - c2) =? 3).
Proof. reflexivity. Qed.

Lemma write_codon_single source name chrom strand geneName type_g
    c0 c1 c2 c3 c4 c5 exonCount w :
  c3 <= c2 →
  write_codon source name chrom strand geneName type_g
    [c0; c1; c2; c3; c4; c5] exonCount w =
  build_gtf_line source name chrom strand geneName type_g
    c0 c1 c4 0 exonCount w.
Proof.
  intros Hle. apply Z.ltb_ge in Hle.
  unfold write_codon. eval_getitem.
  unfold when, lift, mbind, io_bind.
  destruct (build_gtf_line _ _ _ _ _ _ c0 c1 c4 0 _ w) as [[[]|e] w1];
    [|done].
  by rewrite Hle.
Qed.

(** X3: both searches return whole codons only.  A descriptor returned by
    [find_first_codon] is the absent one, or one interval of three bases that
    starts at [cdsStart] and names exon 0, or, when the CDS is exactly two
    bases long, two intervals of two and one bases that both start at
    [cdsStart]; the same holds for [find_last_codon] with an interval that
    ends at [cdsEnd] and names the last exon.  No descriptor spans an
    intron. *)
Theorem codon_searches_return_whole_codons :
  ∀ frames strand cdsStart cdsEnd exonStart exonEnd codon,
    (find_first_codon frames strand cdsStart cdsEnd exonStart exonEnd
     = Ok codon →
     first_descriptor cdsStart cdsEnd 0 codon) ∧
    (find_last_codon frames strand cdsStart cdsEnd exonStart exonEnd
     = Ok codon →
     last_descriptor cdsStart cdsEnd (len frames - 1) codon).
Proof.
  intros. split.
  - apply find_first_codon_descriptor.
  - apply find_last_codon_descriptor.
Qed.

Lemma codon_searches_return_whole_codons_witness :
  find_first_codon [0; 2] "+" 2 201 [0; 200] [100; 300] = Ok [2; 5; 0; 0; 0; 0]
  ∧ find_last_codon [0; 2] "+" 2 201 [0; 200] [100; 300]
    = Ok [198; 201; 0; 0; 1; 0]
  ∧ first_descriptor 2 201 0 [2; 5; 0; 0; 0; 0]
  ∧ last_descriptor 2 201 (len [0; 2] - 1) [198; 201; 0; 0; 1; 0].
Proof.
  split; [reflexivity|]. split; [reflexivity|]. split.
  - apply (proj1 (codon_searches_return_whole_codons [0; 2] "+" 2 201
                    [0; 200] [100; 300] [2; 5; 0; 0; 0; 0])).
    reflexivity.
  - apply (proj2 (codon_searches_return_whole_codons [0; 2] "+" 2 201
                    [0; 200] [100; 300] [198; 201; 0; 0; 1; 0])).
    reflexivity.
Defined.

(** What [codon_complete] and [write_codon] make of the descriptors of the
    two shapes. *)
Lemma descriptor_written source name chrom strand geneName type_g exonCount w
    cdsStart cdsEnd codon :
  (∃ k, first_descriptor cdsStart cdsEnd k codon) ∨
  (∃ k, last_descriptor cdsStart cdsEnd k codon) →
  (codon = zero_codon ∧ codon_complete codon = Ok false) ∨
  (codon_complete codon = Ok true ∧
   ∃ new,
     write_codon source name chrom strand geneName type_g codon exonCount w
     = (Ok tt, World (file w ++ new) (GENES w)) ∧
     Forall (fun l => g_type l = type_g ∧
                      cdsStart < g_start l ∧ g_end l <= cdsEnd) new ∧
     ((3 <= cdsEnd - cdsStart ∧
       ∃ l, new = [l] ∧ line_bases l = 3 ∧ g_phase l = "0") ∨
      (cdsEnd - cdsStart = 2 ∧
       ∃ l1 l2, new = [l1; l2] ∧ line_bases l1 = 2 ∧ line_bases l2 = 2 ∧
                g_start l2 = g_start l1 ∧
                g_phase l1 = "0" ∧ g_phase l2 = "1"))).
Proof.
  intros [[k [->|[[Hlen ->]|[Hlen ->]]]]|[k [->|[[Hlen ->]|[Hlen ->]]]]];
    try (left; split; reflexivity); right.
  - rewrite codon_complete_eq. split; [f_equal; lia|].
    rewrite write_codon_single, build_gtf_line_ok by lia.
    eexists [_]. split; [done|]. split.
    + apply Forall_singleton. cbn. split_and!; [done|lia..].
    + left. split; [done|]. eexists. split; [done|].
      unfold line_bases. cbn. split; [lia|done].
  - rewrite codon_complete_eq. split; [f_equal; lia|].
    rewrite write_codon_split by lia. rewrite io_bind_eq.
    rewrite (build_gtf_line_ok _ _ _ _ _ _ cdsStart cdsEnd) by lia.
    rewrite build_gtf_line_ok by lia. cbn [file GENES].
    rewrite <- app_assoc. eexists [_; _]. split; [done|]. split.
    + repeat first [apply Forall_nil_2 | apply Forall_cons_2];
        cbn; split_and!; try done; lia.
    + right. split; [done|]. eexists _, _. split; [done|].
      unfold line_bases. cbn. rewrite Hlen.
      split_and!; try done; lia.
  - rewrite codon_complete_eq. split; [f_equal; lia|].
    rewrite write_codon_single, build_gtf_line_ok by lia.
    eexists [_]. split; [done|]. split.
    + apply Forall_singleton. cbn. split_and!; [done|lia..].
    + left. split; [done|]. eexists. split; [done|].
      unfold line_bases. cbn. split; [lia|done].
  - rewrite codon_complete_eq. split; [f_equal; lia|].
    rewrite write_codon_split by lia. rewrite io_bind_eq.
    rewrite (build_gtf_line_ok _ _ _ _ _ _ cdsStart cdsEnd) by lia.
    rewrite build_gtf_line_ok by lia. cbn [file GENES].
    rewrite <- app_assoc. eexists [_; _]. split; [done|]. split.
    + repeat first [apply Forall_nil_2 | apply Forall_cons_2];
        cbn; split_and!; try done; lia.
    + right. split; [done|]. eexists _, _. split; [done|].
      unfold line_bases. cbn. rewrite Hlen.
      split_and!; try done; lia.
Qed.



(** On the frame vector of a transcript with at least one exon both
    searches return. *)
Lemma codon_searches_return frames strand cdsStart cdsEnd exonStart exonEnd :
  length frames = length exonStart →
  (length exonStart <= length exonEnd)%nat →
  exonStart ≠ [] →
  ∃ c1 c2,
    find_first_codon frames strand cdsStart cdsEnd exonStart exonEnd = Ok c1 ∧
    find_last_codon frames strand cdsStart cdsEnd exonStart exonEnd = Ok c2.
Proof.
  intros Hfr Hlen Hne.
  assert (Hpos : (0 < length exonStart)%nat).
  { destruct exonStart; [done|cbn; lia]. }
  assert (∃ c1, find_first_codon frames strand cdsStart cdsEnd
                  exonStart exonEnd = Ok c1) as [c1 ->].
  { rewrite find_first_codon_cases.
    destruct (first_codon_at_lookup frames strand cdsStart cdsEnd
                exonStart exonEnd 0)
      as [(c & Hc & _)|[_ Hnone]]; change (Z.of_nat 0) with 0 in *.
    - rewrite Hc. destruct frames as [|f0 [|f1 rest]]; eauto.
      destruct (0 <=? f0); eauto.
    - destruct Hnone as [Hn|[Hn|Hn]]; apply lookup_ge_None in Hn; lia. }
  assert (∃ c2, find_last_codon frames strand cdsStart cdsEnd
                  exonStart exonEnd = Ok c2) as [c2 ->]; [|by eauto].
  destruct frames as [|f frames _] using rev_ind; [cbn in Hfr; lia|].
  rewrite find_last_codon_cases.
  destruct (0 <=? f); [|eauto].
  rewrite length_app in Hfr. cbn in Hfr.
  destruct (last_codon_at_lookup (frames ++ [f]) strand cdsStart cdsEnd
              exonStart exonEnd (length frames))
    as [(c & Hc & _)|[_ Hnone]]; [eauto|].
  destruct Hnone as [Hn|[Hn|Hn]]; apply lookup_ge_None in Hn;
    rewrite ?length_app in Hn; cbn in Hn; lia.
Qed.

(** X5: the searches fail only for want of an exon.  On the frame vector of
    a transcript (one frame per exon start, every start with an end) each
    search raises [IndexError] when the transcript has no exon at all, and
    returns a descriptor otherwise. *)
Theorem codon_searches_need_an_exon :
  ∀ frames strand cdsStart cdsEnd exonStart exonEnd,
    length frames = length exonStart →
    (length exonStart <= length exonEnd)%nat →
    let first :=
      find_first_codon frames strand cdsStart cdsEnd exonStart exonEnd in
    let last :=
      find_last_codon frames strand cdsStart cdsEnd exonStart exonEnd in
    (exonStart = [] → first = Raise IndexError ∧ last = Raise IndexError) ∧
    (exonStart ≠ [] → ∃ c1 c2, first = Ok c1 ∧ last = Ok c2).
Proof.
  intros frames strand cdsStart cdsEnd exonStart exonEnd Hfr Hlen first last.
  subst first last. split.
  - intros ->. destruct frames; [|done]. done.
  - by apply codon_searches_return.
Qed.

Lemma codon_searches_need_an_exon_witness :
  length [0; 2] = length [0; 200] ∧
  (length [0; 200] <= length [100; 300])%nat ∧
  ([0; 200] ≠ [] →
   ∃ c1 c2,
     find_first_codon [0; 2] "+" 2 201 [0; 200] [100; 300] = Ok c1 ∧
     find_last_codon [0; 2] "+" 2 201 [0; 200] [100; 300] = Ok c2).
Proof.
  split; [reflexivity|]. split; [cbn; lia|].
  apply (codon_searches_need_an_exon [0; 2] "+" 2 201 [0; 200] [100; 300]);
    [reflexivity | cbn; lia].
Defined.

(** ** The walk, in genomic and in transcript coordinates *)

(** Iterations beyond the exit of a loop change nothing. *)
Lemma while_loop_stable {S} cond (body : S → result S) :
  ∀ fuel s r,
    while_loop fuel cond body s = r →
    (∀ s', r = Ok s' → cond s' = false) →
    ∀ n, while_loop (fuel + n) cond body s = r.
Proof.
  induction fuel as [|fuel IH]; intros s r Hrun Hexit n.
  - cbn in Hrun. subst r. cbn [Nat.add].
    apply while_loop_done. by apply Hexit.
  - cbn [Nat.add while_loop] in *. destruct (cond s); [|done].
    unfold mbind, result_bind in *.
    destruct (body s) as [s1|e]; [|done]. by apply IH.
Qed.

Lemma while_loop_invariant {S} (I : S → Prop) cond (body : S → result S) :
  (∀ s s', I s → cond s = true → body s = Ok s' → I s') →
  ∀ fuel s s', I s → while_loop fuel cond body s = Ok s' → I s'.
Proof.
  intros Hstep. induction fuel as [|fuel IH]; intros s s' Hs; cbn.
  - by intros [= <-].
  - destruct (cond s) eqn:Hc; [|by intros [= <-]].
    unfold mbind, result_bind.
    destruct (body s) as [s1|e] eqn:Hb; [|done].
    apply IH. by eapply Hstep.
Qed.

(** X6: the [while] loop of [move_pos] terminates.  From any state it stops,
    by an exception or with its condition false, within [steps + exonCount]
    iterations, and further iterations change nothing. *)
Theorem move_pos_loop_terminates :
  ∀ exonCount exonStart exonEnd direction exon pos steps fuel,
    (move_fuel exonCount steps <= fuel)%nat →
    while_loop fuel (move_cond exonCount)
      (move_body exonCount exonStart exonEnd direction) (Walk exon pos steps)
    = while_loop (move_fuel exonCount steps) (move_cond exonCount)
        (move_body exonCount exonStart exonEnd direction)
        (Walk exon pos steps) ∧
    ∀ w', while_loop fuel (move_cond exonCount)
            (move_body exonCount exonStart exonEnd direction)
            (Walk exon pos steps) = Ok w' →
          move_cond exonCount w' = false.
Proof.
  intros exonCount exonStart exonEnd direction exon pos steps fuel Hfuel.
  assert (Hexit : ∀ w',
    while_loop (move_fuel exonCount steps) (move_cond exonCount)
      (move_body exonCount exonStart exonEnd direction)
      (Walk exon pos steps) = Ok w' →
    move_cond exonCount w' = false).
  { intros w'.
    destruct (move_cond exonCount (Walk exon pos steps)) eqn:Hc.
    - unfold move_cond in Hc; cbn in Hc.
      apply move_loop_exits; cbn; [lia..|].
      unfold move_fuel. destruct (0 <=? direction); lia.
    - rewrite while_loop_done by done. by intros [= <-]. }
  replace fuel
    with (move_fuel exonCount steps + (fuel - move_fuel exonCount steps))%nat
    by lia.
  rewrite (while_loop_stable _ _ _ _ _ eq_refl Hexit).
  split; [done|]. exact Hexit.
Qed.

Lemma move_pos_loop_terminates_witness :
  (move_fuel 2 3 <= 100)%nat ∧
  while_loop 100 (move_cond 2) (move_body 2 [0; 200] [100; 300] (-1))
    (Walk 1 201 3)
  = while_loop (move_fuel 2 3) (move_cond 2)
      (move_body 2 [0; 200] [100; 300] (-1)) (Walk 1 201 3).
Proof.
  split; [vm_compute; lia|].
  apply (move_pos_loop_terminates 2 [0; 200] [100; 300] (-1) 1 201 3 100).
  vm_compute; lia.
Defined.

Lemma ascending_lookup exons :
  ascending exons →
  (∀ (i : nat) s e, exons !! i = Some (s, e) → s < e) ∧
  (∀ (i : nat) s e s' e',
     exons !! i = Some (s, e) → exons !! S i = Some (s', e') → e <= s').
Proof.
  induction exons as [|[s0 e0] rest IH]; [done|].
  intros (Hse & Hgap & Hasc). destruct (IH Hasc) as [IH1 IH2]. split.
  - intros [|i] s e; cbn; [by intros [= <- <-]|apply IH1].
  - intros [|i] s e s' e'; cbn; [|apply IH2].
    intros [= <- <-]. destruct rest as [|[s1 e1] rest]; [done|].
    cbn. by intros [= <- <-].
Qed.

(** The invariants of a record give the walker what it needs. *)
Lemma ascending_walkable exonCount exonStart exonEnd :
  len exonStart = exonCount → len exonEnd = exonCount →
  ascending (exon_intervals exonStart exonEnd) →
  exons_wf exonCount exonStart exonEnd ∧ exons_ordered exonStart exonEnd.
Proof.
  intros Hls Hle Hasc. apply ascending_lookup in Hasc as [Hlt Hord].
  unfold len in *. split; [split_and!; [done..|]|].
  - intros i s e Hs He. apply (Hlt i). unfold exon_intervals.
    by rewrite lookup_zip_with, Hs; cbn; rewrite He.
  - intros i e s' He Hs'.
    destruct (lookup_lt_is_Some_2 exonStart i) as [s Hs].
    { apply lookup_lt_Some in He. lia. }
    destruct (lookup_lt_is_Some_2 exonEnd (S i)) as [e' He'].
    { apply lookup_lt_Some in Hs'. lia. }
    apply (Hord i s e s' e'); unfold exon_intervals.
    + by rewrite lookup_zip_with, Hs; cbn; rewrite He.
    + by rewrite lookup_zip_with, Hs'; cbn; rewrite He'.
Qed.

(** What the search loop of [move_pos] returns. *)
Lemma find_exon_inv exonStart exonEnd pos (m : nat) :
  ∀ (a : nat) acc x,
    for_loop (find_exon_body exonStart exonEnd pos) acc
      (map Z.of_nat (seq a m)) = Ok (inl (Some x)) →
    acc = Some x ∨
    ∃ k : nat, x = Z.of_nat k ∧ (a <= k < a + m)%nat ∧
               in_exon (Z.of_nat k) pos exonStart exonEnd = Ok true.
Proof.
  induction m as [|m IH]; intros a acc x; cbn [seq map for_loop].
  - intros [= ->]. by left.
  - destruct (in_exon (Z.of_nat a) pos exonStart exonEnd) as [b|e] eqn:Hin.
    2:{ assert (find_exon_body exonStart exonEnd pos acc (Z.of_nat a)
                = Raise e) as ->; [|done].
        unfold find_exon_body. by rewrite Hin. }
    rewrite (find_exon_body_eq _ _ _ _ _ _ Hin).
    cbn [mbind result_bind]. destruct b.
    + intros [= <-]. right. exists a. split_and!; [done|lia|lia|done].
    + intros Hrest. destruct (IH _ _ _ Hrest) as [Hacc|(k & -> & Hk & Hin')];
        [by left|].
      right. exists k. split_and!; [done|lia|lia|done].
Qed.

(** A successful call of [move_pos], unfolded: the entry assertion held, the
    search loop found an exon holding [pos], and the walk used up its
    steps. *)
Lemma move_pos_Ok_inv txStart txEnd exonCount exonStart exonEnd pos dist p :
  move_pos txStart txEnd exonCount exonStart exonEnd pos dist = Ok p →
  txStart <= pos <= txEnd ∧
  ∃ (k : nat) w',
    Z.of_nat k < exonCount ∧
    lies_in exonStart exonEnd pos k ∧
    while_loop (move_fuel exonCount (Z.abs dist)) (move_cond exonCount)
      (move_body exonCount exonStart exonEnd (if 0 <=? dist then 1 else -1))
      (Walk (Z.of_nat k) pos (Z.abs dist)) = Ok w' ∧
    w_steps w' <= 0 ∧ p = w_pos w'.
Proof.
  unfold move_pos.
  destruct (Z.leb_spec txStart pos), (Z.leb_spec pos txEnd); try done.
  cbn [andb negb]. rewrite py_range_up.
  destruct (for_loop _ _ _) as [[[x|]|[]]|e] eqn:Hfind; try done.
  apply find_exon_inv in Hfind as [|(k & -> & Hk & Hin)]; [done|].
  cbn [mbind result_bind].
  destruct (while_loop _ _ _ _) as [w'|e] eqn:Hloop; [|done].
  cbn [mbind result_bind].
  destruct (Z.ltb_spec 0 (w_steps w')); [done|]. intros [= <-].
  split; [lia|]. exists k, w'. split_and!; [lia| |done..].
  by apply in_exon_true_iff.
Qed.

Section Ordered.
Variables (exonCount : Z) (exonStart exonEnd : list Z).
Hypothesis Hwf : exons_wf exonCount exonStart exonEnd.
Hypothesis Hord : exons_ordered exonStart exonEnd.

(** Walking forwards never falls behind: the position has advanced by at
    least the steps consumed, and it is not beyond the end of the current
    exon. *)
Lemma move_body_forward_inv pos0 steps0 w w' :
  (steps0 - w_steps w <= w_pos w - pos0 ∧
   ∀ (k : nat) e, w_exon w = Z.of_nat k → exonEnd !! k = Some e →
                  w_pos w <= e) →
  move_cond exonCount w = true →
  move_body exonCount exonStart exonEnd 1 w = Ok w' →
  steps0 - w_steps w' <= w_pos w' - pos0 ∧
  ∀ (k : nat) e, w_exon w' = Z.of_nat k → exonEnd !! k = Some e →
                 w_pos w' <= e.
Proof using Hwf Hord.
  destruct w as [exon pos steps]. cbn [w_exon w_pos w_steps].
  intros [Hadv Hin] Hc. unfold move_cond in Hc; cbn in Hc.
  assert (Hex : exon = Z.of_nat (Z.to_nat exon)) by lia.
  destruct (wf_lookup _ _ _ Hwf (Z.to_nat exon)) as (s & e & Hs & He & Hse & _);
    [lia|].
  unfold move_body. rewrite Hex at 1.
  rewrite (in_exon_lookup _ _ _ _ s e) by done.
  cbn [mbind result_bind].
  destruct ((s <=? pos + 1) && (pos + 1 <=? e)) eqn:Hinside.
  - intros [= <-]. cbn. split; [lia|].
    intros k e' Hk He'. assert (k = Z.to_nat exon) as -> by lia.
    assert (e' = e) as -> by congruence. lia.
  - cbn [Z.leb Z.compare]. pose proof (Hin _ _ Hex He) as Hpos.
    destruct (Z.ltb_spec (exon + 1) exonCount) as [Hnext|Hlast].
    + destruct (wf_lookup _ _ _ Hwf (S (Z.to_nat exon)))
        as (s' & e' & Hs' & He' & Hse' & _); [lia|].
      replace (exon + 1) with (Z.of_nat (S (Z.to_nat exon))) by lia.
      rewrite getitem_nat, Hs'. cbn [mbind result_bind].
      intros [= <-]. cbn. pose proof (Hord _ _ _ He Hs').
      split; [lia|].
      intros k e'' Hk He''. assert (k = S (Z.to_nat exon)) as -> by lia.
      assert (e'' = e') as -> by congruence. lia.
    + intros [= <-]. cbn. split; [done|].
      intros k e' Hk He'. apply lookup_lt_Some in He'.
      destruct Hwf as (_ & Hle & _). unfold len in Hle. lia.
Qed.

(** The same for a walk backwards. *)
Lemma move_body_backward_inv pos0 steps0 w w' :
  (steps0 - w_steps w <= pos0 - w_pos w ∧
   ∀ (k : nat) s, w_exon w = Z.of_nat k → exonStart !! k = Some s →
                  s <= w_pos w) →
  move_cond exonCount w = true →
  move_body exonCount exonStart exonEnd (-1) w = Ok w' →
  steps0 - w_steps w' <= pos0 - w_pos w' ∧
  ∀ (k : nat) s, w_exon w' = Z.of_nat k → exonStart !! k = Some s →
                 s <= w_pos w'.
Proof using Hwf Hord.
  destruct w as [exon pos steps]. cbn [w_exon w_pos w_steps].
  intros [Hadv Hin] Hc. unfold move_cond in Hc; cbn in Hc.
  assert (Hex : exon = Z.of_nat (Z.to_nat exon)) by lia.
  destruct (wf_lookup _ _ _ Hwf (Z.to_nat exon)) as (s & e & Hs & He & Hse & _);
    [lia|].
  unfold move_body. rewrite Hex at 1.
  rewrite (in_exon_lookup _ _ _ _ s e) by done.
  cbn [mbind result_bind].
  destruct ((s <=? pos + -1) && (pos + -1 <=? e)) eqn:Hinside.
  - intros [= <-]. cbn. split; [lia|].
    intros k s' Hk Hs'. assert (k = Z.to_nat exon) as -> by lia.
    assert (s' = s) as -> by congruence. lia.
  - cbn [Z.leb Z.compare]. pose proof (Hin _ _ Hex Hs) as Hpos.
    destruct (Z.leb_spec 0 (exon - 1)) as [Hprev|Hfirst].
    + destruct (wf_lookup _ _ _ Hwf (Z.to_nat (exon - 1)))
        as (s' & e' & Hs' & He' & Hse' & _); [lia|].
      replace (exon - 1) with (Z.of_nat (Z.to_nat (exon - 1))) at 1 by lia.
      rewrite getitem_nat, He'. cbn [mbind result_bind].
      intros [= <-]. cbn.
      replace (Z.to_nat exon) with (S (Z.to_nat (exon - 1))) in Hs by lia.
      pose proof (Hord _ _ _ He' Hs).
      split; [lia|].
      intros k s'' Hk Hs''. assert (k = Z.to_nat (exon - 1)) as -> by lia.
      assert (s'' = s') as -> by congruence. lia.
    + intros [= <-]. cbn. split; [done|]. intros k s' Hk. lia.
Qed.

End Ordered.

(** X7: [move_pos] never falls short in genomic coordinates.  For ascending,
    non-overlapping exons a successful walk forwards ends at least [dist]
    bases to the right of [pos], and a successful walk backwards at least
    [-dist] bases to its left: introns only add to the distance. *)
Theorem move_pos_never_falls_short :
  ∀ txStart txEnd exonCount exonStart exonEnd pos dist p,
    len exonStart = exonCount → len exonEnd = exonCount →
    ascending (exon_intervals exonStart exonEnd) →
    move_pos txStart txEnd exonCount exonStart exonEnd pos dist = Ok p →
    (0 <= dist → pos + dist <= p) ∧ (dist < 0 → p <= pos + dist).
Proof.
  intros txStart txEnd exonCount exonStart exonEnd pos dist p Hls Hle Hasc
    Hmove.
  destruct (ascending_walkable _ _ _ Hls Hle Hasc) as [Hwf Hord].
  apply move_pos_Ok_inv in Hmove
    as (_ & k & w' & Hk & (s & e & Hs & He & Hse) & Hloop & Hsteps & ->).
  destruct (Z.leb_spec 0 dist) as [Hfwd|Hbwd].
  - split; [intros _|lia].
    apply (while_loop_invariant
             (fun w => Z.abs dist - w_steps w <= w_pos w - pos ∧
                       ∀ (k : nat) e, w_exon w = Z.of_nat k →
                                      exonEnd !! k = Some e → w_pos w <= e))
      in Hloop as [Hadv _].
    + lia.
    + intros w1 w2. by apply move_body_forward_inv.
    + cbn. split; [lia|]. intros k' e' Hk' He'.
      assert (k' = k) as -> by lia. assert (e' = e) as -> by congruence. lia.
  - split; [lia|intros _].
    apply (while_loop_invariant
             (fun w => Z.abs dist - w_steps w <= pos - w_pos w ∧
                       ∀ (k : nat) s, w_exon w = Z.of_nat k →
                                      exonStart !! k = Some s → s <= w_pos w))
      in Hloop as [Hadv _].
    + lia.
    + intros w1 w2. by apply move_body_backward_inv.
    + cbn. split; [lia|]. intros k' s' Hk' Hs'.
      assert (k' = k) as -> by lia. assert (s' = s) as -> by congruence. lia.
Qed.

Lemma move_pos_never_falls_short_witness :
  len [0; 200] = 2 ∧ len [100; 300] = 2 ∧
  ascending (exon_intervals [0; 200] [100; 300]) ∧
  move_pos 0 300 2 [0; 200] [100; 300] 201 (-3) = Ok 98 ∧
  (0 <= -3 → 201 + -3 <= 98) ∧ (-3 < 0 → 98 <= 201 + -3).
Proof.
  assert (Hasc : ascending (exon_intervals [0; 200] [100; 300]))
    by (cbn; lia).
  split; [reflexivity|]. split; [reflexivity|]. split; [exact Hasc|].
  split; [reflexivity|].
  exact (move_pos_never_falls_short 0 300 2 [0; 200] [100; 300] 201 (-3) 98
           eq_refl eq_refl Hasc eq_refl).
Defined.

Section Offsets.
Variables (exonCount : Z) (exonStart exonEnd : list Z).
Hypothesis Hwf : exons_wf exonCount exonStart exonEnd.
Hypothesis Hord : exons_ordered exonStart exonEnd.

Let lens := exon_lengths exonStart exonEnd.

(** The exon starts increase. *)
Lemma starts_increase (d j : nat) s s' :
  exonStart !! j = Some s → exonStart !! (j + S d)%nat = Some s' → s < s'.
Proof using Hwf Hord.
  revert s'. induction d as [|d IH]; intros s' Hs Hs'.
  - replace (j + 1)%nat with (S j) in Hs' by lia.
    destruct (wf_lookup _ _ _ Hwf j) as (s0 & e & Hs0 & He & Hse & _).
    { by eapply wf_lookup_lt. }
    assert (s0 = s) as -> by congruence.
    pose proof (Hord _ _ _ He Hs'). lia.
  - replace (j + S (S d))%nat with (S (j + S d)) in Hs' by lia.
    destruct (wf_lookup _ _ _ Hwf (j + S d)) as (s1 & e1 & Hs1 & He1 & Hse1 & _).
    { pose proof (wf_lookup_lt _ _ _ Hwf _ _ Hs'). lia. }
    pose proof (IH s1 Hs Hs1). pose proof (Hord _ _ _ He1 Hs'). lia.
Qed.

Lemma offset_step (j : nat) s e :
  exonStart !! j = Some s → exonEnd !! j = Some e →
  Zsum (take (S j) lens) = Zsum (take j lens) + (e - s).
Proof using Type.
  intros Hs He.
  assert (Hl : lens !! j = Some (e - s)).
  { unfold lens, exon_lengths. by rewrite lookup_zip_with, Hs; cbn; rewrite He. }
  rewrite (take_S_r _ _ _ Hl), Zsum_app, Zsum_cons. change (Zsum []) with 0.
  lia.
Qed.

(** With ordered exons a position has one transcript coordinate, also when
    it is the shared border of two adjacent exons. *)
Lemma offset_unique pos (j k : nat) :
  lies_in exonStart exonEnd pos j → lies_in exonStart exonEnd pos k →
  transcript_offset exonStart exonEnd j pos
  = transcript_offset exonStart exonEnd k pos.
Proof using Hwf Hord.
  assert (Hlt : ∀ j k : nat, (j < k)%nat →
            lies_in exonStart exonEnd pos j →
            lies_in exonStart exonEnd pos k →
            transcript_offset exonStart exonEnd j pos
            = transcript_offset exonStart exonEnd k pos).
  { clear j k. intros j k Hjk (s & e & Hs & He & Hse) (s' & e' & Hs' & He' & Hse').
    unfold transcript_offset.
    rewrite (list_lookup_total_correct _ _ _ Hs),
      (list_lookup_total_correct _ _ _ Hs').
    destruct (wf_lookup _ _ _ Hwf (S j)) as (s1 & e1 & Hs1 & He1 & Hse1 & _).
    { pose proof (wf_lookup_lt _ _ _ Hwf _ _ Hs'). lia. }
    pose proof (Hord _ _ _ He Hs1) as Hgap.
    destruct (decide (k = S j)) as [->|Hne].
    - assert (s' = s1) as -> by congruence.
      fold lens. rewrite (offset_step j s e) by done. lia.
    - replace k with (S j + S (k - S j - 1))%nat in Hs' by lia.
      pose proof (starts_increase _ _ _ _ Hs1 Hs'). lia. }
  intros Hj Hk. destruct (lt_eq_lt_dec j k) as [[Hjk| ->]|Hkj]; [|done|].
  - by apply Hlt.
  - symmetry. by apply Hlt.
Qed.

(** The transcript is as long as the bases before, in and after exon [k]. *)
Lemma lens_split (k : nat) s e :
  exonStart !! k = Some s → exonEnd !! k = Some e →
  Zsum lens = Zsum (take k lens) + (e - s) + Zsum (drop (S k) lens).
Proof using Type.
  intros Hs He.
  assert (Hl : lens !! k = Some (e - s)).
  { unfold lens, exon_lengths. by rewrite lookup_zip_with, Hs; cbn; rewrite He. }
  rewrite <- (take_drop_middle _ _ _ Hl) at 1.
  rewrite Zsum_app, Zsum_cons. lia.
Qed.

End Offsets.

Lemma offset_bounds exonCount exonStart exonEnd pos (k : nat) :
  exons_wf exonCount exonStart exonEnd →
  lies_in exonStart exonEnd pos k →
  0 <= transcript_offset exonStart exonEnd k pos
  <= Zsum (exon_lengths exonStart exonEnd) ∧
  reach exonStart exonEnd 1 k pos
  = Zsum (exon_lengths exonStart exonEnd)
    - transcript_offset exonStart exonEnd k pos ∧
  reach exonStart exonEnd (-1) k pos
  = transcript_offset exonStart exonEnd k pos.
Proof.
  intros Hwf (s & e & Hs & He & Hse).
  unfold transcript_offset, reach. cbn [Z.leb Z.compare].
  rewrite (list_lookup_total_correct _ _ _ Hs),
    (list_lookup_total_correct _ _ _ He).
  rewrite (lens_split exonStart exonEnd k s e Hs He).
  assert (0 <= Zsum (take k (exon_lengths exonStart exonEnd))).
  { apply Zsum_nonneg, Forall_take. by eapply lens_nonneg. }
  assert (0 <= Zsum (drop (S k) (exon_lengths exonStart exonEnd))).
  { apply Zsum_nonneg, Forall_drop. by eapply lens_nonneg. }
  lia.
Qed.

Lemma reach_sign exonStart exonEnd dist k pos :
  reach exonStart exonEnd dist k pos
  = reach exonStart exonEnd (if 0 <=? dist then 1 else -1) k pos.
Proof. unfold reach. by destruct (0 <=? dist). Qed.

(** X8: a walk can be undone.  For ascending, non-overlapping exons, when
    [move_pos] takes [pos] to [p], the walk back from [p] by [-dist] does not
    fail (as long as [p] passes the entry assertion) and ends at the
    transcript coordinate of [pos]. *)
Theorem move_pos_there_and_back :
  ∀ txStart txEnd exonCount exonStart exonEnd pos dist p,
    len exonStart = exonCount → len exonEnd = exonCount →
    ascending (exon_intervals exonStart exonEnd) →
    move_pos txStart txEnd exonCount exonStart exonEnd pos dist = Ok p →
    txStart <= p <= txEnd →
    ∃ k p',
      first_exon_of exonStart exonEnd pos k ∧
      move_pos txStart txEnd exonCount exonStart exonEnd p (- dist) = Ok p' ∧
      at_offset exonStart exonEnd p'
        (transcript_offset exonStart exonEnd k pos).
Proof.
  intros txStart txEnd exonCount exonStart exonEnd pos dist p Hls Hle Hasc
    Hmove Htx.
  destruct (ascending_walkable _ _ _ Hls Hle Hasc) as [Hwf Hord].
  destruct (move_pos_walks_distance _ _ _ _ _ _ _ _ Hwf Hmove)
    as (k & Hfirst & k' & Hlies' & Hoff').
  exists k.
  destruct (offset_bounds _ _ _ _ _ Hwf (proj1 Hfirst)) as (Hpos & _).
  destruct (move_pos_cases txStart txEnd exonCount exonStart exonEnd
              p (- dist) Hwf Htx)
    as [[Hno _]|[(k2 & Hk2 & Hshort & _)|(k2 & p' & Hk2 & _ & Hr & Hat)]].
  - by destruct (Hno k').
  - exfalso.
    pose proof (offset_unique _ _ _ Hwf Hord p k2 k' (proj1 Hk2) Hlies') as Hu.
    destruct (offset_bounds _ _ _ _ _ Hwf (proj1 Hk2)) as (_ & Hf & Hb).
    rewrite reach_sign in Hshort.
    destruct (Z.leb_spec 0 (- dist)); lia.
  - exists p'. split_and!; [done..|].
    pose proof (offset_unique _ _ _ Hwf Hord p k2 k' (proj1 Hk2) Hlies') as Hu.
    by replace (transcript_offset exonStart exonEnd k pos)
      with (transcript_offset exonStart exonEnd k2 p + - dist) by lia.
Qed.

Lemma move_pos_there_and_back_witness :
  len [0; 200] = 2 ∧ len [100; 300] = 2 ∧
  ascending (exon_intervals [0; 200] [100; 300]) ∧
  move_pos 0 300 2 [0; 200] [100; 300] 200 (-1) = Ok 99 ∧
  0 <= 99 <= 300 ∧
  ∃ k p',
    first_exon_of [0; 200] [100; 300] 200 k ∧
    move_pos 0 300 2 [0; 200] [100; 300] 99 (- -1) = Ok p' ∧
    at_offset [0; 200] [100; 300] p'
      (transcript_offset [0; 200] [100; 300] k 200).
Proof.
  assert (Hasc : ascending (exon_intervals [0; 200] [100; 300]))
    by (cbn; lia).
  split; [reflexivity|]. split; [reflexivity|]. split; [exact Hasc|].
  split; [reflexivity|]. split; [lia|].
  apply (move_pos_there_and_back 0 300 2 [0; 200] [100; 300] 200 (-1) 99
           eq_refl eq_refl Hasc eq_refl).
  lia.
Defined.

(** X9: a successful walk moves exactly [dist] bases along the spliced
    transcript.  For exon lists that agree with [exonCount] and have no
    empty exon, the position returned by [move_pos] lies in an exon, and its
    transcript coordinate is that of [pos] (taken in the first exon holding
    it) plus [dist]. *)
Theorem move_pos_moves_along_transcript :
  ∀ txStart txEnd exonCount exonStart exonEnd pos dist p,
    exons_wf exonCount exonStart exonEnd →
    move_pos txStart txEnd exonCount exonStart exonEnd pos dist = Ok p →
    txStart <= pos <= txEnd ∧
    ∃ k k' : nat,
      first_exon_of exonStart exonEnd pos k ∧
      lies_in exonStart exonEnd p k' ∧
      transcript_offset exonStart exonEnd k' p
      = transcript_offset exonStart exonEnd k pos + dist ∧
      Z.abs dist <= reach exonStart exonEnd dist k pos.
Proof.
  intros txStart txEnd exonCount exonStart exonEnd pos dist p Hwf Hmove.
  destruct (decide (txStart <= pos <= txEnd)) as [Htx|Htx].
  2:{ rewrite move_pos_assert_fail in Hmove by done. discriminate. }
  split; [done|].
  destruct (move_pos_cases txStart txEnd exonCount exonStart exonEnd
              pos dist Hwf Htx)
    as [[_ Hr]|[(k & _ & _ & Hr)|(k & p' & Hk & Hreach & Hr & k' & Hl & Ho)]];
    rewrite Hr in Hmove; try discriminate.
  injection Hmove as ->. by exists k, k'.
Qed.

Lemma move_pos_moves_along_transcript_witness :
  exons_wf 2 [0; 200] [100; 300] ∧
  move_pos 0 300 2 [0; 200] [100; 300] 50 100 = Ok 250 ∧
  0 <= 50 <= 300 ∧
  ∃ k k' : nat,
    first_exon_of [0; 200] [100; 300] 50 k ∧
    lies_in [0; 200] [100; 300] 250 k' ∧
    transcript_offset [0; 200] [100; 300] k' 250
    = transcript_offset [0; 200] [100; 300] k 50 + 100 ∧
    Z.abs 100 <= reach [0; 200] [100; 300] 100 k 50.
Proof.
  split; [exact two_exons_wf|]. split; [reflexivity|].
  exact (move_pos_moves_along_transcript 0 300 2 [0; 200] [100; 300] 50 100 250
           two_exons_wf eq_refl).
Defined.

(** ** The feature lines of an exon *)

Lemma when_build_gtf_line (b : bool) source name chrom strand geneName type_g
    start end_ exon frame exonCount w :
  (b = true → start <= end_) →
  when b (build_gtf_line source name chrom strand geneName type_g
            start end_ exon frame exonCount) w
  = (Ok tt,
     World (file w ++
            if b then [built_line source name chrom strand geneName type_g
                         start end_ exon frame exonCount]
            else [])
       (GENES w)).
Proof.
  intros Hle. destruct b; cbn [when].
  - by rewrite build_gtf_line_ok by auto.
  - rewrite app_nil_r. by destruct w.
Qed.

(** The lines [write_features] writes for exon [i]. *)
Lemma write_features_lines (i : nat) source name chrom strand geneName
    firstUtrEnd cdsStart cdsEnd lastUtrStart frame exonStart exonEnd
    exonCount w es ee :
  exonStart !! i = Some es → exonEnd !! i = Some ee →
  es <= ee → cdsStart <= cdsEnd →
  write_features (Z.of_nat i) source name chrom strand geneName
    firstUtrEnd cdsStart cdsEnd lastUtrStart frame exonStart exonEnd
    exonCount w
  = (Ok tt,
     World (file w ++
       (if es <? firstUtrEnd
        then [built_line source name chrom strand geneName
                (if String.eqb strand "+" then "5UTR" else "3UTR")
                es (Z.min ee firstUtrEnd) (Z.of_nat i) (-1) exonCount]
        else []) ++
       (if (cdsStart <? ee) && (es <? cdsEnd)
        then [built_line source name chrom strand geneName "CDS"
                (Z.max es cdsStart) (Z.min ee cdsEnd) (Z.of_nat i) frame
                exonCount]
        else []) ++
       (if lastUtrStart <? ee
        then [built_line source name chrom strand geneName
                (if String.eqb strand "+" then "3UTR" else "5UTR")
                (Z.max lastUtrStart es) ee (Z.of_nat i) (-1) exonCount]
        else []))
       (GENES w)).
Proof.
  intros Hs He Hse Hcds. unfold write_features.
  rewrite lift_bind, getitem_nat, Hs. rewrite lift_bind, getitem_nat, He.
  rewrite io_bind_eq, when_build_gtf_line by lia.
  rewrite io_bind_eq, when_build_gtf_line by lia.
  rewrite when_build_gtf_line by lia.
  cbn [file GENES]. by rewrite <- !app_assoc.
Qed.

(** X10: the feature lines of an exon tile it.  For a non-empty exon and a
    coding record, with the UTR bounds around the CDS bounds as [run] passes
    them, [write_features] never fails its assertions; the lines it writes
    are non-empty, in ascending order and disjoint, and stay within the
    exon; a line is a CDS line exactly when it lies within the CDS; and
    together the lines cover every base of the exon except the bases between
    a UTR bound and the CDS bound next to it (the trimmed stop codon), so
    that they cover the whole exon when the bounds coincide. *)
Theorem write_features_tiles_exon :
  ∀ (i : nat) source name chrom strand geneName
    firstUtrEnd cdsStart cdsEnd lastUtrStart frame exonStart exonEnd
    exonCount w es ee,
    exonStart !! i = Some es → exonEnd !! i = Some ee →
    es < ee →
    firstUtrEnd <= cdsStart → cdsStart < cdsEnd → cdsEnd <= lastUtrStart →
    ∃ new,
      write_features (Z.of_nat i) source name chrom strand geneName
        firstUtrEnd cdsStart cdsEnd lastUtrStart frame exonStart exonEnd
        exonCount w
      = (Ok tt, World (file w ++ new) (GENES w)) ∧
      lines_in_order es new ee ∧
      Forall (fun l => g_type l = "CDS" ↔
                       cdsStart <= g_start l - 1 ∧ g_end l <= cdsEnd) new ∧
      Zsum (map line_bases new)
      = (ee - es) - overlap es ee firstUtrEnd cdsStart
        - overlap es ee cdsEnd lastUtrStart.
Proof.
  intros i source name chrom strand geneName firstUtrEnd cdsStart cdsEnd
    lastUtrStart frame exonStart exonEnd exonCount w es ee
    Hs He Hse Hfirst Hcds Hlast.
  rewrite (write_features_lines i _ _ _ _ _ _ _ _ _ _ _ _ _ _ es ee)
    by (done || lia).
  eexists. split; [done|].
  assert (Hutr5 : (if String.eqb strand "+" then "5UTR" else "3UTR")
                  ≠ "CDS") by (by destruct (String.eqb strand "+")).
  assert (Hutr3 : (if String.eqb strand "+" then "3UTR" else "5UTR")
                  ≠ "CDS") by (by destruct (String.eqb strand "+")).
  unfold overlap.
  destruct (Z.ltb_spec es firstUtrEnd), (Z.ltb_spec cdsStart ee),
    (Z.ltb_spec es cdsEnd), (Z.ltb_spec lastUtrStart ee);
    cbn [andb app map lines_in_order built_line g_start g_end g_type];
    (split_and!;
     [ lia ..
     | repeat first [apply Forall_nil_2 | apply Forall_cons_2];
       cbn [built_line g_start g_end g_type];
       (split; [intros Hty; first [done | lia] | intros Hin; first [done | lia]])
     | unfold line_bases; cbn [map built_line g_start g_end];
       rewrite ?Zsum_cons; change (Zsum []) with 0; lia ]).
Qed.

Lemma write_features_tiles_exon_witness :
  let w := World [] ∅ in
  [0; 200] !! 1%nat = Some 200 ∧ [100; 300] !! 1%nat = Some 300 ∧
  200 < 300 ∧ 20 <= 20 ∧ 20 < 247 ∧ 247 <= 250 ∧
  ∃ new,
    write_features (Z.of_nat 1) "test" "tx1" "chr1" "+" "g1"
      20 20 247 250 2 [0; 200] [100; 300] 2 w
    = (Ok tt, World (file w ++ new) (GENES w)) ∧
    lines_in_order 200 new 300 ∧
    Forall (fun l => g_type l = "CDS" ↔
                     20 <= g_start l - 1 ∧ g_end l <= 247) new ∧
    Zsum (map line_bases new)
    = (300 - 200) - overlap 200 300 20 20 - overlap 200 300 247 250.
Proof.
  intros w. split; [reflexivity|]. split; [reflexivity|].
  split; [lia|]. split; [lia|]. split; [lia|]. split; [lia|].
  apply (write_features_tiles_exon 1 "test" "tx1" "chr1" "+" "g1"
           20 20 247 250 2 [0; 200] [100; 300] 2 w 200 300);
    first [reflexivity | lia].
Defined.

(** ** Well-formed records *)

Lemma Zsum_mono l k : Forall2 Z.le l k → Zsum l <= Zsum k.
Proof. induction 1; [done|]. rewrite !Zsum_cons. lia. Qed.

Lemma overlap_le_length s e cdsStart cdsEnd :
  s <= e → 0 <= overlap s e cdsStart cdsEnd <= e - s.
Proof. unfold overlap. lia. Qed.

Section Trim.
Variables (txStart txEnd cdsStart cdsEnd exonCount : Z).
Variables (exonStart exonEnd : list Z).
Hypothesis Hcount : len exonStart = exonCount.
Hypothesis Hinv :
  record_invariants txStart txEnd cdsStart cdsEnd exonStart exonEnd.

Let bases := map (fun se => overlap se.1 se.2 cdsStart cdsEnd)
               (exon_intervals exonStart exonEnd).
Let lens := exon_lengths exonStart exonEnd.

Lemma invariants_walkable :
  exons_wf exonCount exonStart exonEnd ∧ exons_ordered exonStart exonEnd.
Proof using Hcount Hinv.
  destruct Hinv as (Hlen & Hasc & _). apply ascending_walkable; [done| |done].
  unfold len in *. lia.
Qed.

Lemma bases_lookup (k : nat) s e :
  exonStart !! k = Some s → exonEnd !! k = Some e →
  bases !! k = Some (overlap s e cdsStart cdsEnd) ∧ lens !! k = Some (e - s).
Proof using Type.
  intros Hs He. unfold bases, lens, exon_intervals, exon_lengths.
  rewrite list_lookup_fmap, !lookup_zip_with, Hs. cbn. by rewrite He.
Qed.

Lemma bases_le_lens : Forall2 Z.le bases lens.
Proof using Hcount Hinv.
  destruct invariants_walkable as [(Hls & Hle & Hlt) _].
  apply Forall2_same_length_lookup_2.
  - unfold bases, lens, exon_intervals, exon_lengths.
    by rewrite length_map, !length_zip_with.
  - intros i x y Hx Hy. unfold lens, exon_lengths in Hy.
    apply lookup_zip_with_Some in Hy as (s & e & -> & Hs & He).
    destruct (bases_lookup i s e Hs He) as [Hb _].
    rewrite Hb in Hx. injection Hx as <-.
    pose proof (Hlt i s e Hs He). pose proof (overlap_le_length s e cdsStart cdsEnd).
    lia.
Qed.

Lemma bases_nonneg : Forall (fun x => 0 <= x) bases.
Proof using Type.
  unfold bases. apply Forall_fmap, Forall_forall. intros [s e] _. cbn.
  unfold overlap. lia.
Qed.

(** A coding last exon on a codon boundary leaves room for the stop codon:
    the three bases before [cdsEnd] exist. *)
Lemma walk_back_from_cdsEnd (L : nat) sL eL :
  exonStart !! L = Some sL → exonEnd !! L = Some eL →
  cdsEnd <= eL →
  Z.max sL cdsStart < Z.min eL cdsEnd →
  (Zsum (take L bases) mod 3 + (Z.min eL cdsEnd - Z.max sL cdsStart)) mod 3
  = 0 →
  3 <= Zsum (take L bases) + (Z.min eL cdsEnd - Z.max sL cdsStart) ∧
  ∃ p, move_pos txStart txEnd exonCount exonStart exonEnd cdsEnd (-3) = Ok p.
Proof using Hcount Hinv.
  intros Hs He Hspan Hcoding Hphase.
  destruct invariants_walkable as [Hwf Hord].
  rewrite Z.add_mod_idemp_l in Hphase by lia.
  assert (Hlies : lies_in exonStart exonEnd cdsEnd L).
  { exists sL, eL. split_and!; [done..|lia|lia]. }
  assert (Hpre : 0 <= Zsum (take L bases) <= Zsum (take L lens)).
  { split; [apply Zsum_nonneg, Forall_take, bases_nonneg|].
    apply Zsum_mono, Forall2_take, bases_le_lens. }
  assert (Hthree :
    3 <= Zsum (take L bases) + (Z.min eL cdsEnd - Z.max sL cdsStart)).
  { assert (0 < Zsum (take L bases) + (Z.min eL cdsEnd - Z.max sL cdsStart))
      by lia.
    apply Z.mod_divide in Hphase as [q Hq]; [|lia]. lia. }
  split; [done|].
  assert (Hoff : 3 <= transcript_offset exonStart exonEnd L cdsEnd).
  { unfold transcript_offset. rewrite (list_lookup_total_correct _ _ _ Hs).
    fold lens. lia. }
  destruct Hinv as (_ & _ & Htx1 & Htx2 & Htx3).
  destruct (move_pos_cases txStart txEnd exonCount exonStart exonEnd
              cdsEnd (-3) Hwf)
    as [[Hno _]|[(k & Hk & Hshort & _)|(k & p & _ & _ & Hr & _)]]; [lia| | |].
  - by destruct (Hno L).
  - exfalso.
    pose proof (offset_unique _ _ _ Hwf Hord cdsEnd k L (proj1 Hk) Hlies) as Hu.
    destruct (offset_bounds _ _ _ _ _ Hwf (proj1 Hk)) as (_ & _ & Hb).
    rewrite reach_sign in Hshort. cbn [Z.leb Z.compare] in Hshort.
    change (Z.abs (-3)) with 3 in Hshort. lia.
  - by exists p.
Qed.

(** The same at the other end: a coding first exon on a codon boundary
    leaves room for the three bases after [cdsStart]. *)
Lemma walk_on_from_cdsStart s0 e0 :
  exonStart !! 0%nat = Some s0 → exonEnd !! 0%nat = Some e0 →
  s0 <= cdsStart →
  Z.max s0 cdsStart < Z.min e0 cdsEnd →
  (Zsum (drop 1 bases) mod 3 + (Z.min e0 cdsEnd - Z.max s0 cdsStart)) mod 3
  = 0 →
  3 <= Zsum (drop 1 bases) + (Z.min e0 cdsEnd - Z.max s0 cdsStart) ∧
  ∃ p, move_pos txStart txEnd exonCount exonStart exonEnd cdsStart 3 = Ok p.
Proof using Hcount Hinv.
  intros Hs He Hspan Hcoding Hphase.
  destruct invariants_walkable as [Hwf Hord].
  rewrite Z.add_mod_idemp_l in Hphase by lia.
  assert (Hlies : lies_in exonStart exonEnd cdsStart 0).
  { exists s0, e0. split_and!; [done..|lia|lia]. }
  assert (Hpost : 0 <= Zsum (drop 1 bases) <= Zsum (drop 1 lens)).
  { split; [apply Zsum_nonneg, Forall_drop, bases_nonneg|].
    apply Zsum_mono, Forall2_drop, bases_le_lens. }
  assert (Hthree :
    3 <= Zsum (drop 1 bases) + (Z.min e0 cdsEnd - Z.max s0 cdsStart)).
  { assert (0 < Zsum (drop 1 bases) + (Z.min e0 cdsEnd - Z.max s0 cdsStart))
      by lia.
    apply Z.mod_divide in Hphase as [q Hq]; [|lia]. lia. }
  split; [done|].
  assert (Hreach : 3 <= reach exonStart exonEnd 1 0 cdsStart).
  { unfold reach. cbn [Z.leb Z.compare].
    rewrite (list_lookup_total_correct _ _ _ He). fold lens. lia. }
  destruct Hinv as (_ & _ & Htx1 & Htx2 & Htx3).
  destruct (move_pos_cases txStart txEnd exonCount exonStart exonEnd
              cdsStart 3 Hwf)
    as [[Hno _]|[(k & Hk & Hshort & _)|(k & p & _ & _ & Hr & _)]]; [lia| | |].
  - by destruct (Hno 0%nat).
  - exfalso.
    pose proof (offset_unique _ _ _ Hwf Hord cdsStart k 0 (proj1 Hk) Hlies)
      as Hu.
    destruct (offset_bounds _ _ _ _ _ Hwf (proj1 Hk)) as (_ & Hf & _).
    destruct (offset_bounds _ _ _ _ _ Hwf Hlies) as (_ & Hf0 & _).
    rewrite reach_sign in Hshort. cbn [Z.leb Z.compare] in Hshort.
    change (Z.abs 3) with 3 in Hshort. lia.
  - by exists p.
Qed.

End Trim.

Lemma codon_complete_built (phase d : Z) (one two : list Z) :
  length one = 6%nat → length two = 6%nat →
  ∃ b, codon_complete (if negb (phase =? 0) then zero_codon
                       else if 3 <=? d then one
                       else if d =? 2 then two else zero_codon) = Ok b.
Proof.
  intros Hone Htwo.
  assert (Hsix : ∀ c : list Z, length c = 6%nat → ∃ b, codon_complete c = Ok b).
  { intros [|c0 [|c1 [|c2 [|c3 [|c4 [|c5 [|]]]]]]] Hc; try done.
    rewrite codon_complete_eq. eauto. }
  destruct (negb _); [by apply Hsix|].
  destruct (3 <=? d); [by apply Hsix|].
  destruct (d =? 2); by apply Hsix.
Qed.

Section TrimSucceeds.
Variables (txStart txEnd cdsStart cdsEnd exonCount : Z).
Variables (exonStart exonEnd frames : list Z) (strand : string).
Hypothesis Hcount : len exonStart = exonCount.
Hypothesis Hpos : 0 < exonCount.
Hypothesis Hinv :
  record_invariants txStart txEnd cdsStart cdsEnd exonStart exonEnd.
Hypothesis Hframes :
  exon_frames cdsStart cdsEnd exonStart exonEnd strand = Ok frames.
Variables (s0 eL : Z).
Hypothesis Hhead : head exonStart = Some s0.
Hypothesis Hlast : last exonEnd = Some eL.
Hypothesis Hspan : s0 <= cdsStart ∧ cdsEnd <= eL.

Lemma frames_formula :
  length frames = length exonStart ∧
  ∀ (k : nat) s e,
    exonStart !! k = Some s → exonEnd !! k = Some e →
    frames !! k
    = Some (if Z.max s cdsStart <? Z.min e cdsEnd
            then preceding_cds cdsStart cdsEnd exonStart exonEnd strand k
                 mod 3
            else -1).
Proof using Hinv Hframes.
  destruct Hinv as (Hlen & _).
  destruct (exon_frames_loop_prefix cdsStart cdsEnd exonStart exonEnd strand)
    as (frames' & cds & Hloop & Hfl & Hfr); [lia|].
  unfold exon_frames in Hframes. rewrite Hloop in Hframes.
  cbn in Hframes. injection Hframes as <-. done.
Qed.

Let total := Zsum (map (fun se => overlap se.1 se.2 cdsStart cdsEnd)
                     (exon_intervals exonStart exonEnd)).

(** The trim of [cdsEnd] on the plus strand: either the trailing codon is
    absent and [cdsEnd] stays, or the record has at least three coding bases
    and the walk back by three succeeds. *)
Lemma trim_cdsEnd_outcome last_codon :
  strand = "+" →
  find_last_codon frames strand cdsStart cdsEnd exonStart exonEnd
  = Ok last_codon →
  (codon_complete last_codon = Ok false ∧
   trim_cdsEnd strand txStart txEnd exonCount exonStart exonEnd
     last_codon cdsEnd = Ok cdsEnd) ∨
  (codon_complete last_codon = Ok true ∧ 3 <= total ∧
   ∃ p, move_pos txStart txEnd exonCount exonStart exonEnd cdsEnd (-3) = Ok p ∧
        trim_cdsEnd strand txStart txEnd exonCount exonStart exonEnd
          last_codon cdsEnd = Ok p).
Proof using All.
  intros Hplus Hfind. unfold trim_cdsEnd.
  replace (String.eqb strand "+") with true by (by subst strand).
  destruct frames_formula as [Hfl Hfr].
  pose proof Hinv as (Hlen & _).
  destruct frames as [|fl init _] using rev_ind.
  { unfold len in *. cbn in Hfl. lia. }
  rewrite length_app in Hfl. cbn in Hfl.
  rewrite find_last_codon_cases in Hfind.
  destruct (Z.leb_spec 0 fl) as [Hfl0|Hneg].
  2:{ injection Hfind as <-. left. by cbn. }
  destruct (lookup_lt_is_Some_2 exonStart (length init)) as [sL HsL]; [lia|].
  assert (HeL : exonEnd !! length init = Some eL).
  { rewrite last_lookup in Hlast.
    by replace (pred (length exonEnd)) with (length init) in Hlast by lia. }
  assert (Hf : (init ++ [fl]) !! length init = Some fl)
    by apply list_lookup_middle, eq_refl.
  rewrite (last_codon_at_eq _ _ _ _ _ _ _ sL eL fl) in Hfind by done.
  injection Hfind as <-.
  destruct (codon_complete_built
              (search_phase strand "-" sL eL cdsStart cdsEnd fl)
              (cdsEnd - cdsStart)
              [cdsEnd - 3; cdsEnd; 0; 0; Z.of_nat (length init); 0]
              [cdsStart; cdsEnd; cdsStart; cdsStart + 1;
               Z.of_nat (length init) - 1; Z.of_nat (length init)])
    as [b Hb]; [done..|].
  rewrite Hb. cbn [mbind result_bind]. destruct b; [right|by left].
  destruct (Z.eqb_spec (search_phase strand "-" sL eL cdsStart cdsEnd fl) 0)
    as [Hphase|Hphase]; [|cbn in Hb; discriminate].
  rewrite (Hfr _ _ _ HsL HeL) in Hf.
  destruct (Z.ltb_spec (Z.max sL cdsStart) (Z.min eL cdsEnd)) as [Hcoding|];
    [|injection Hf as <-; lia].
  injection Hf as Hf.
  subst strand. unfold search_phase, preceding_cds in *.
  change (String.eqb "+" "-") with false in Hphase.
  change (String.eqb "+" "+") with true in Hf. cbv iota in Hphase, Hf.
  rewrite <- Hf in Hphase.
  destruct (walk_back_from_cdsEnd txStart txEnd cdsStart cdsEnd exonCount
              exonStart exonEnd Hcount Hinv (length init) sL eL)
    as [Hthree [p Hp]]; [done|done|lia|done|done|].
  split; [done|]. split; [|by exists p].
  destruct (bases_lookup cdsStart cdsEnd exonStart exonEnd (length init)
              sL eL HsL HeL) as [Hb' _].
  unfold total. rewrite <- (take_drop_middle _ _ _ Hb').
  rewrite Zsum_app, Zsum_cons.
  rewrite (drop_ge _ (S (length init)))
    by (rewrite length_map, intervals_length by done; lia).
  change (Zsum []) with 0.
  replace (overlap sL eL cdsStart cdsEnd)
    with (Z.min eL cdsEnd - Z.max sL cdsStart) by (unfold overlap; lia).
  lia.
Qed.

(** The trim of [cdsStart] on the minus strand. *)
Lemma trim_cdsStart_outcome first_codon :
  strand = "-" →
  find_first_codon frames strand cdsStart cdsEnd exonStart exonEnd
  = Ok first_codon →
  (codon_complete first_codon = Ok false ∧
   trim_cdsStart strand txStart txEnd exonCount exonStart exonEnd
     first_codon cdsStart = Ok cdsStart) ∨
  (codon_complete first_codon = Ok true ∧ 3 <= total ∧
   ∃ p, move_pos txStart txEnd exonCount exonStart exonEnd cdsStart 3 = Ok p ∧
        trim_cdsStart strand txStart txEnd exonCount exonStart exonEnd
          first_codon cdsStart = Ok p).
Proof using All.
  intros Hminus Hfind. unfold trim_cdsStart.
  replace (String.eqb strand "-") with true by (by subst strand).
  destruct frames_formula as [Hfl Hfr].
  pose proof Hinv as (Hlen & _ & _ & Hcds & _).
  assert (Hs0 : exonStart !! 0%nat = Some s0) by (by rewrite <- head_lookup).
  destruct (lookup_lt_is_Some_2 exonEnd 0) as [e0 He0].
  { unfold len in *. lia. }
  pose proof (Hfr _ _ _ Hs0 He0) as Hf0.
  rewrite find_first_codon_cases in Hfind.
  assert (Hat : (first_codon_at frames strand cdsStart cdsEnd exonStart
                   exonEnd 0 = Ok first_codon ∧
                 ∀ f0 f1 rest, frames = f0 :: f1 :: rest → 0 <= f0) ∨
                first_codon = zero_codon).
  { destruct frames as [|f0 [|f1 rest]]; [by left..|].
    destruct (Z.leb_spec 0 f0); [left|right; by injection Hfind as <-].
    split; [done|]. by intros ? ? ? [= <- _ _]. }
  clear Hfind. destruct Hat as [[Hat Hguard]| ->]; [|left; by cbn].
  change 0 with (Z.of_nat 0) in Hat.
  rewrite (first_codon_at_eq _ _ _ _ _ _ _ s0 e0 _ Hs0 He0 Hf0) in Hat.
  injection Hat as <-.
  match goal with
  | |- context [codon_complete (if negb (?ph =? 0) then _ else _)] =>
      set (phase := ph)
  end.
  destruct (codon_complete_built phase (cdsEnd - cdsStart)
              [cdsStart; cdsStart + 3; 0; 0; Z.of_nat 0; 0]
              [cdsStart; cdsStart + 2; cdsStart; cdsStart + 1;
               Z.of_nat 0 + 1; Z.of_nat 0])
    as [b Hb]; [done..|].
  rewrite Hb. cbn [mbind result_bind]. destruct b; [right|by left].
  destruct (Z.eqb_spec phase 0) as [Hphase|Hphase];
    [|cbn in Hb; discriminate].
  subst phase strand. unfold search_phase, preceding_cds in Hphase.
  change (String.eqb "-" "+") with false in Hphase. cbv iota in Hphase.
  destruct (Z.ltb_spec (Z.max s0 cdsStart) (Z.min e0 cdsEnd)) as [Hcoding|Hnc].
  - destruct (walk_on_from_cdsStart txStart txEnd cdsStart cdsEnd exonCount
                exonStart exonEnd Hcount Hinv s0 e0)
      as [Hthree [p Hp]]; [done|done|lia|done|done|].
    split; [done|]. split; [|by exists p].
    destruct (bases_lookup cdsStart cdsEnd exonStart exonEnd 0 s0 e0 Hs0 He0)
      as [Hb' _].
    unfold total. rewrite <- (take_drop_middle _ _ _ Hb').
    rewrite Zsum_app, Zsum_cons, take_0. change (Zsum []) with 0.
    replace (overlap s0 e0 cdsStart cdsEnd)
      with (Z.min e0 cdsEnd - Z.max s0 cdsStart) by (unfold overlap; lia).
    lia.
  - exfalso.
    destruct (decide (length exonStart = 1%nat)) as [Hone|Hmany].
    + assert (e0 = eL) as ->.
      { rewrite last_lookup in Hlast.
        replace (pred (length exonEnd)) with 0%nat in Hlast by lia.
        congruence. }
      replace (Z.min eL cdsEnd - Z.max s0 cdsStart) with 0 in Hphase by lia.
      done.
    + unfold len in *.
      destruct frames as [|f0 [|f1 rest]]; cbn in Hfl; [lia..|].
      cbn in Hf0. injection Hf0 as ->.
      specialize (Hguard _ _ _ eq_refl). lia.
Qed.

(** The trims never fail on a record that satisfies the invariants. *)
Lemma trim_cdsEnd_succeeds last_codon :
  find_last_codon frames strand cdsStart cdsEnd exonStart exonEnd
  = Ok last_codon →
  ∃ c, trim_cdsEnd strand txStart txEnd exonCount exonStart exonEnd
         last_codon cdsEnd = Ok c.
Proof using All.
  intros Hfind. destruct (String.eqb_spec strand "+") as [Hplus|Hother].
  - destruct (trim_cdsEnd_outcome last_codon Hplus Hfind)
      as [[_ Hr]|(_ & _ & p & _ & Hr)]; eauto.
  - unfold trim_cdsEnd. apply String.eqb_neq in Hother. rewrite Hother. eauto.
Qed.

Lemma trim_cdsStart_succeeds first_codon :
  find_first_codon frames strand cdsStart cdsEnd exonStart exonEnd
  = Ok first_codon →
  ∃ c, trim_cdsStart strand txStart txEnd exonCount exonStart exonEnd
         first_codon cdsStart = Ok c.
Proof using All.
  intros Hfind. destruct (String.eqb_spec strand "-") as [Hminus|Hother].
  - destruct (trim_cdsStart_outcome first_codon Hminus Hfind)
      as [[_ Hr]|(_ & _ & p & _ & Hr)]; eauto.
  - unfold trim_cdsStart. apply String.eqb_neq in Hother. rewrite Hother.
    eauto.
Qed.

End TrimSucceeds.

Lemma succeeds_bind (m : io unit) (k : unit → io unit) :
  succeeds m → (∀ u, succeeds (k u)) → succeeds (m ≫= k).
Proof.
  intros Hm Hk w. rewrite io_bind_eq. destruct (Hm w) as [w1 ->].
  apply Hk.
Qed.

Lemma succeeds_lift_bind {A} (r : result A) (k : A → io unit) a :
  r = Ok a → succeeds (k a) → succeeds (lift r ≫= k).
Proof. intros -> Hk w. rewrite lift_bind. apply Hk. Qed.

Lemma succeeds_when (b : bool) (m : io unit) :
  (b = true → succeeds m) → succeeds (when b m).
Proof.
  destruct b; cbn; intros Hm; [by apply Hm|]. intros w. by exists w.
Qed.

Lemma succeeds_for_io {A} (xs : list A) (body : A → io unit) :
  Forall (fun x => succeeds (body x)) xs → succeeds (for_io xs body).
Proof.
  induction 1 as [|x xs Hx _ IH]; cbn [for_io].
  - intros w. by exists w.
  - apply succeeds_bind; [done|]. intros _. apply IH.
Qed.

Lemma succeeds_build_gtf_line source name chrom strand geneName type_g
    start end_ exon frame exonCount :
  start <= end_ →
  succeeds (build_gtf_line source name chrom strand geneName type_g
              start end_ exon frame exonCount).
Proof. intros Hle w. rewrite build_gtf_line_ok by done. eauto. Qed.

Lemma succeeds_write_codon source name chrom strand geneName type_g
    exonCount cdsStart cdsEnd codon :
  (∃ k, first_descriptor cdsStart cdsEnd k codon) ∨
  (∃ k, last_descriptor cdsStart cdsEnd k codon) →
  ∃ b, codon_complete codon = Ok b ∧
       (b = true → succeeds (write_codon source name chrom strand geneName
                               type_g codon exonCount)).
Proof.
  intros Hd.
  destruct (descriptor_written source name chrom strand geneName type_g
              exonCount (World [] ∅) cdsStart cdsEnd codon Hd)
    as [[_ Hc]|[Hc _]].
  - exists false. split; [done|]. done.
  - exists true. split; [done|]. intros _ w.
    destruct (descriptor_written source name chrom strand geneName type_g
                exonCount w cdsStart cdsEnd codon Hd)
      as [[_ Hc']|[_ (new & Hw & _)]]; [congruence|].
    rewrite Hw. eauto.
Qed.

Lemma succeeds_emit_codons source name chrom strand geneName exonCount
    cdsStart cdsEnd first_codon last_codon k1 k2 :
  first_descriptor cdsStart cdsEnd k1 first_codon →
  last_descriptor cdsStart cdsEnd k2 last_codon →
  succeeds (emit_codons source name chrom strand geneName
              first_codon last_codon exonCount).
Proof.
  intros Hfirst Hlast. unfold emit_codons.
  destruct (succeeds_write_codon source name chrom strand geneName
              "start_codon" exonCount cdsStart cdsEnd first_codon)
    as (b1 & Hb1 & Hw1); [left; eauto|].
  destruct (succeeds_write_codon source name chrom strand geneName
              "stop_codon" exonCount cdsStart cdsEnd first_codon)
    as (b1' & Hb1' & Hw1'); [left; eauto|].
  destruct (succeeds_write_codon source name chrom strand geneName
              "start_codon" exonCount cdsStart cdsEnd last_codon)
    as (b2 & Hb2 & Hw2); [right; eauto|].
  destruct (succeeds_write_codon source name chrom strand geneName
              "stop_codon" exonCount cdsStart cdsEnd last_codon)
    as (b2' & Hb2' & Hw2'); [right; eauto|].
  assert (b1' = b1) as -> by congruence.
  assert (b2' = b2) as -> by congruence.
  destruct (negb _).
  - eapply succeeds_lift_bind; [done|].
    apply succeeds_bind; [by apply succeeds_when|intros _].
    eapply succeeds_lift_bind; [done|]. by apply succeeds_when.
  - eapply succeeds_lift_bind; [done|].
    apply succeeds_bind; [by apply succeeds_when|intros _].
    eapply succeeds_lift_bind; [done|]. by apply succeeds_when.
Qed.

Lemma succeeds_emit_exon source name chrom strand geneName
    first_utr_end cdsStart cdsEnd last_utr_start frames exonStart exonEnd
    exonCount (k : nat) es ee fr :
  exonStart !! k = Some es → exonEnd !! k = Some ee →
  frames !! k = Some fr → es <= ee →
  succeeds (emit_exon source name chrom strand geneName
              first_utr_end cdsStart cdsEnd last_utr_start
              frames exonStart exonEnd exonCount (Z.of_nat k)).
Proof.
  intros Hs He Hf Hse. unfold emit_exon.
  eapply succeeds_lift_bind; [by rewrite getitem_nat, Hs|].
  eapply succeeds_lift_bind; [by rewrite getitem_nat, He|].
  apply succeeds_bind; [by apply succeeds_build_gtf_line|intros _].
  apply succeeds_when. intros Hcds%Z.ltb_lt.
  eapply succeeds_lift_bind; [by rewrite getitem_nat, Hf|].
  intros w.
  rewrite (write_features_lines k _ _ _ _ _ _ _ _ _ _ _ _ _ _ es ee)
    by (done || lia).
  eauto.
Qed.

(** Everything [run] writes after the gene line, for a record whose exons
    are well formed. *)
Lemma succeeds_run_tail r geneName exonStart exonEnd frames
    first_codon last_codon cdsStart cdsEnd k1 k2 :
  bed_txStart r <= bed_txEnd r →
  exons_wf (bed_exonCount r) exonStart exonEnd →
  length frames = length exonStart →
  first_descriptor (bed_cdsStart r) (bed_cdsEnd r) k1 first_codon →
  last_descriptor (bed_cdsStart r) (bed_cdsEnd r) k2 last_codon →
  succeeds (run_tail r geneName exonStart exonEnd frames
              first_codon last_codon cdsStart cdsEnd).
Proof.
  intros Htx Hwf Hfl Hfirst Hlast. unfold run_tail.
  apply succeeds_bind; [by apply succeeds_build_gtf_line|intros _].
  apply succeeds_bind; [|intros _; by eapply succeeds_emit_codons].
  apply succeeds_for_io. rewrite py_range_up.
  apply Forall_fmap, Forall_forall. intros k Hk. cbn.
  apply list_elem_of_In, in_seq in Hk.
  destruct (wf_lookup _ _ _ Hwf k) as (s & e & Hs & He & Hse & _); [lia|].
  destruct (lookup_lt_is_Some_2 frames k) as [fr Hfr].
  { apply lookup_lt_Some in Hs. lia. }
  eapply succeeds_emit_exon; [done..|lia].
Qed.

Lemma run_succeeds isoforms r w :
  well_formed_record isoforms r → ∃ w', run r isoforms w = (Ok tt, w').
Proof.
  intros ([g Hg] & exonStart & exonEnd & s0 & eL & Habs & Hcount & Hpos &
          Hinv & Hhead & Hlast & Hs0 & HeL).
  pose proof Hinv as (Hlen & Hasc & Htx1 & Htx2 & Htx3).
  destruct (invariants_walkable _ _ _ _ _ _ _ Hcount Hinv) as [Hwf Hord].
  destruct (exon_frames_loop_prefix (bed_cdsStart r) (bed_cdsEnd r)
              exonStart exonEnd (bed_strand r))
    as (frames & cds & Hloop & Hfl & _); [lia|].
  assert (Hframes : exon_frames (bed_cdsStart r) (bed_cdsEnd r)
                      exonStart exonEnd (bed_strand r) = Ok frames).
  { unfold exon_frames. by rewrite Hloop. }
  destruct (codon_searches_return frames (bed_strand r) (bed_cdsStart r)
              (bed_cdsEnd r) exonStart exonEnd)
    as (first_codon & last_codon & Hfirst & Hlastc); [done|lia| |].
  { intros ->. unfold len in Hcount. cbn in Hcount. lia. }
  destruct (trim_cdsEnd_succeeds _ _ _ _ _ _ _ _ _ Hcount Hpos Hinv Hframes
              s0 eL Hhead Hlast (conj Hs0 HeL) last_codon Hlastc)
    as [cdsEnd Hce].
  destruct (trim_cdsStart_succeeds _ _ _ _ _ _ _ _ _ Hcount Hpos Hinv Hframes
              s0 eL Hhead Hlast (conj Hs0 HeL) first_codon Hfirst)
    as [cdsStart Hcs].
  rewrite run_blocks. rewrite lift_bind. unfold lookup_isoform. rewrite Hg.
  rewrite lift_bind. replace (negb (bed_exonCount r =? 0)) with true by lia.
  rewrite Habs. rewrite lift_bind, Hframes. rewrite lift_bind, Hfirst.
  rewrite lift_bind, Hlastc. rewrite lift_bind, Hce. rewrite lift_bind, Hcs.
  rewrite io_bind_eq, emit_gene_cases.
  replace (bed_txStart r <=? bed_txEnd r) with true by lia.
  pose proof (succeeds_run_tail r g exonStart exonEnd frames first_codon
                last_codon cdsStart cdsEnd _ _ ltac:(lia) Hwf Hfl
                (find_first_codon_descriptor _ _ _ _ _ _ _ Hfirst)
                (find_last_codon_descriptor _ _ _ _ _ _ _ Hlastc)) as Htail.
  destruct (has_key (GENES w) g); apply Htail.
Qed.

(** X11: [run] never fails on a well-formed record.  For records whose
    transcript is in [isoforms], with as many exons as announced and at least
    one, ascending non-overlapping non-empty exons,
    [txStart <= cdsStart <= cdsEnd <= txEnd] and the CDS within the span of
    the exons, the whole conversion returns normally, on either strand and
    from any state: no index is out of range, no assertion fails, and the
    stop-codon trim always finds its three bases. *)
Theorem run_all_succeeds_on_well_formed_records :
  ∀ isoforms rs w,
    Forall (well_formed_record isoforms) rs →
    ∃ w', run_all rs isoforms w = (Ok tt, w').
Proof.
  intros isoforms rs. induction rs as [|r rs IH]; intros w Hall.
  - by exists w.
  - apply Forall_cons in Hall as [Hr Hrs].
    rewrite run_all_cons. destruct (run_succeeds isoforms r w Hr) as [w1 ->].
    by apply IH.
Qed.

Lemma run_all_succeeds_on_well_formed_records_witness :
  let isoforms : gmap string string := {[ "tx1" := "g1" ]} in
  let r := BedRecord "chr1" 0 300 "tx1" "+" 20 251 2 [100; 100] [0; 200] in
  Forall (well_formed_record isoforms) [r; r] ∧
  ∃ w', run_all [r; r] isoforms (World [] ∅) = (Ok tt, w').
Proof.
  intros isoforms r.
  assert (Hr : well_formed_record isoforms r).
  { split; [by exists "g1"|].
    exists [0; 200], [100; 300], 0, 300.
    split_and!; try reflexivity; try (cbn; lia).
    unfold record_invariants. cbn. lia. }
  assert (Hall : Forall (well_formed_record isoforms) [r; r]).
  { apply Forall_cons_2; [exact Hr|]. apply Forall_cons_2; [exact Hr|].
    apply Forall_nil_2. }
  split; [exact Hall|].
  exact (run_all_succeeds_on_well_formed_records isoforms [r; r] (World [] ∅)
           Hall).
Defined.

Lemma run_appends r isoforms w res w' :
  run r isoforms w = (res, w') →
  (∃ new, file w' = file w ++ new) ∧ GENES w ⊆ GENES w'.
Proof.
  intros Hrun. split; [|by eapply run_registry_grows].
  destruct (run_gene_effect _ _ _ _ _ Hrun)
    as [[-> _]|(geneName & new & _ & _ &
                [(_ & _ & Hf)|(_ & _ & Hf)])].
  - exists []. by rewrite app_nil_r.
  - by exists new.
  - by eexists.
Qed.

Lemma run_all_appends rs isoforms :
  ∀ w res w',
    run_all rs isoforms w = (res, w') →
    (∃ new, file w' = file w ++ new) ∧ GENES w ⊆ GENES w'.
Proof.
  induction rs as [|r rs IH]; intros w res w'.
  - intros [= <- <-]. split; [|done]. exists []. by rewrite app_nil_r.
  - rewrite run_all_cons. destruct (run r isoforms w) as [[[]|e] w1] eqn:Hr.
    + intros Hrest.
      destruct (run_appends _ _ _ _ _ Hr) as [[new1 Hf1] Hg1].
      destruct (IH _ _ _ Hrest) as [[new2 Hf2] Hg2].
      split; [|by etrans].
      exists (new1 ++ new2). by rewrite Hf2, Hf1, app_assoc.
    + intros [= <- <-]. by eapply run_appends.
Qed.

(** X12: the output is append-only.  Whatever the records and however the
    run ends, normally or by an exception, the lines written before are a
    prefix of the lines written after, and no gene leaves [GENES]. *)
Theorem run_all_is_append_only :
  ∀ isoforms rs w res w',
    run_all rs isoforms w = (res, w') →
    (∃ new, file w' = file w ++ new) ∧ GENES w ⊆ GENES w'.
Proof. intros isoforms rs. apply run_all_appends. Qed.

Lemma run_all_is_append_only_witness :
  let isoforms : gmap string string := {[ "tx1" := "g1" ]} in
  let r := BedRecord "chr1" 0 300 "tx1" "+" 20 251 2 [100; 100] [0; 200] in
  let bad := BedRecord "chr1" 0 300 "tx2" "+" 20 251 2 [100; 100] [0; 200] in
  let w := World [] ∅ in
  let out := run_all [r; bad] isoforms w in
  run_all [r; bad] isoforms w = (out.1, out.2) ∧
  (∃ new, file out.2 = file w ++ new) ∧ GENES w ⊆ GENES out.2.
Proof.
  intros isoforms r bad w out.
  assert (Hrun : run_all [r; bad] isoforms w = (out.1, out.2))
    by apply surjective_pairing.
  split; [exact Hrun|].
  exact (run_all_is_append_only isoforms [r; bad] w out.1 out.2 Hrun).
Defined.

(** X13: the first exception ends the conversion.  When the records before
    [r] are converted and [r] raises, the run over the whole input raises
    the same exception in the same state: no later record is looked at, and
    the lines written so far, those of the failing record included, stay in
    the output. *)
Theorem run_all_stops_at_first_failure :
  ∀ isoforms pre r post w w1 e w2,
    run_all pre isoforms w = (Ok tt, w1) →
    run r isoforms w1 = (Raise e, w2) →
    run_all (pre ++ r :: post) isoforms w = (Raise e, w2) ∧
    ∃ new1 new2, file w1 = file w ++ new1 ∧ file w2 = file w1 ++ new2.
Proof.
  intros isoforms pre r post w w1 e w2 Hpre Hr. split.
  - revert w Hpre. induction pre as [|r0 pre IH]; intros w Hpre; cbn [app].
    + injection Hpre as ->. by rewrite run_all_cons, Hr.
    + rewrite run_all_cons in *.
      destruct (run r0 isoforms w) as [[[]|e0] w0]; [|done]. by apply IH.
  - destruct (run_all_appends _ _ _ _ _ Hpre) as [[new1 Hf1] _].
    destruct (run_appends _ _ _ _ _ Hr) as [[new2 Hf2] _].
    by exists new1, new2.
Qed.

Lemma run_all_stops_at_first_failure_witness :
  let isoforms : gmap string string := {[ "tx1" := "g1" ]} in
  let r := BedRecord "chr1" 0 300 "tx1" "+" 20 251 2 [100; 100] [0; 200] in
  let bad := BedRecord "chr1" 0 300 "tx1" "+" 20 251 2 [100; -10] [0; 200] in
  let w := World [] ∅ in
  let w1 := (run_all [r] isoforms w).2 in
  let w2 := (run bad isoforms w1).2 in
  run_all [r] isoforms w = (Ok tt, w1) ∧
  run bad isoforms w1 = (Raise AssertionError, w2) ∧
  run_all ([r] ++ bad :: [r]) isoforms w = (Raise AssertionError, w2) ∧
  ∃ new1 new2, file w1 = file w ++ new1 ∧ file w2 = file w1 ++ new2.
Proof.
  intros isoforms r bad w w1 w2.
  assert (Hpre : run_all [r] isoforms w = (Ok tt, w1)) by (by vm_compute).
  assert (Hbad : run bad isoforms w1 = (Raise AssertionError, w2))
    by (by vm_compute).
  split; [exact Hpre|]. split; [exact Hbad|].
  exact (run_all_stops_at_first_failure isoforms [r] bad [r] w w1
           AssertionError w2 Hpre Hbad).
Defined.

(** ** The exon lists of a record *)

(** The second comprehension of [run], from index [a] on. *)
Lemma comprehension_ends_ok (exonStart : list Z) :
  ∀ (sizes : list Z) (a : nat),
    (a + length sizes <= length exonStart)%nat →
    comprehension (fun '(i, x) => s ← getitem exonStart i ; Ok (s + x))
      (zip (map Z.of_nat (seq a (length sizes))) sizes)
    = Ok (zip_with Z.add (drop a exonStart) sizes).
Proof.
  induction sizes as [|x sizes IH]; intros a Ha; cbn [length] in *.
  - cbn. by destruct (drop a exonStart).
  - destruct (lookup_lt_is_Some_2 exonStart a) as [s Hs]; [lia|].
    cbn [seq map zip zip_with comprehension].
    rewrite getitem_nat, Hs. cbn [mbind result_bind].
    rewrite IH by lia. cbn [mbind result_bind].
    by rewrite (drop_S _ _ _ Hs).
Qed.

Lemma comprehension_ends_short (exonStart : list Z) :
  ∀ (sizes : list Z) (a : nat),
    (a <= length exonStart < a + length sizes)%nat →
    comprehension (fun '(i, x) => s ← getitem exonStart i ; Ok (s + x))
      (zip (map Z.of_nat (seq a (length sizes))) sizes)
    = Raise IndexError.
Proof.
  induction sizes as [|x sizes IH]; intros a Ha; cbn [length] in *; [lia|].
  cbn [seq map zip zip_with comprehension]. rewrite getitem_nat.
  destruct (exonStart !! a) as [s|] eqn:Hs; [|done].
  cbn [mbind result_bind]. apply lookup_lt_Some in Hs.
  by rewrite IH by lia.
Qed.

Lemma absolute_exons_ok txStart starts sizes :
  (length sizes <= length starts)%nat →
  absolute_exons txStart starts sizes
  = Ok (map (fun x => txStart + x) starts,
        zip_with Z.add (map (fun x => txStart + x) starts) sizes).
Proof.
  intros Hlen. unfold absolute_exons, enumerate.
  rewrite comprehension_ends_ok by (rewrite length_map; lia).
  by rewrite drop_0.
Qed.

Lemma absolute_exons_short txStart starts sizes :
  (length starts < length sizes)%nat →
  absolute_exons txStart starts sizes = Raise IndexError.
Proof.
  intros Hlen. unfold absolute_exons, enumerate.
  by rewrite comprehension_ends_short by (rewrite length_map; lia).
Qed.

(** X14: the exon lists of a record.  [run] turns the block starts and sizes
    of a BED line into absolute exon coordinates: block [i] becomes the exon
    from [txStart + starts[i]] to [txStart + starts[i] + sizes[i]].  More
    sizes than starts raise [IndexError]; surplus starts are kept, so that
    [exonStart] is then longer than [exonEnd]. *)
Theorem absolute_exons_spec :
  ∀ txStart starts sizes,
    ((length starts < length sizes)%nat →
     absolute_exons txStart starts sizes = Raise IndexError) ∧
    ((length sizes <= length starts)%nat →
     ∃ exonStart exonEnd,
       absolute_exons txStart starts sizes = Ok (exonStart, exonEnd) ∧
       length exonStart = length starts ∧ length exonEnd = length sizes ∧
       (∀ (i : nat) s, starts !! i = Some s →
                       exonStart !! i = Some (txStart + s)) ∧
       (∀ (i : nat) s x, starts !! i = Some s → sizes !! i = Some x →
                         exonEnd !! i = Some (txStart + s + x))).
Proof.
  intros txStart starts sizes. split; [apply absolute_exons_short|].
  intros Hlen. rewrite absolute_exons_ok by done.
  eexists _, _. split; [done|].
  rewrite length_map, length_zip_with, length_map.
  split_and!; [done|lia| |].
  - intros i s Hs. by rewrite list_lookup_fmap, Hs.
  - intros i s x Hs Hx.
    by rewrite lookup_zip_with, list_lookup_fmap, Hs; cbn; rewrite Hx.
Qed.

Lemma absolute_exons_spec_witness :
  (length [0; 200] < length [100; 100; 5])%nat ∧
  absolute_exons 1000 [0; 200] [100; 100; 5] = Raise IndexError.
Proof.
  split; [cbn; lia|].
  apply (proj1 (absolute_exons_spec 1000 [0; 200] [100; 100; 5])).
  cbn; lia.
Defined.

(** X15: a record whose exon lists differ in length is rejected before
    anything is written.  With more sizes than starts the comprehension
    raises; with more starts than sizes [exon_frames] meets an exon without
    an end.  Either way [run] raises [IndexError] and leaves the output and
    [GENES] as they were. *)
Theorem run_rejects_uneven_exon_lists :
  ∀ r isoforms w,
    is_Some (isoforms !! bed_name r) →
    bed_exonCount r ≠ 0 →
    length (bed_starts r) ≠ length (bed_sizes r) →
    run r isoforms w = (Raise IndexError, w).
Proof.
  intros r isoforms w [g Hg] Hcount Hlen.
  rewrite run_blocks, lift_bind. unfold lookup_isoform. rewrite Hg.
  rewrite lift_bind.
  replace (negb (bed_exonCount r =? 0)) with true by lia.
  destruct (decide (length (bed_starts r) < length (bed_sizes r))%nat)
    as [Hlt|Hge].
  - by rewrite absolute_exons_short.
  - rewrite absolute_exons_ok by lia. rewrite lift_bind.
    rewrite exon_frames_short; [done|].
    rewrite length_zip_with, !length_map. lia.
Qed.

Lemma run_rejects_uneven_exon_lists_witness :
  let isoforms : gmap string string := {[ "tx1" := "g1" ]} in
  let r := BedRecord "chr1" 0 300 "tx1" "+" 20 251 2 [100] [0; 200] in
  is_Some (isoforms !! bed_name r) ∧
  bed_exonCount r ≠ 0 ∧
  length (bed_starts r) ≠ length (bed_sizes r) ∧
  run r isoforms (World [] ∅) = (Raise IndexError, World [] ∅).
Proof.
  intros isoforms r.
  assert (Hiso : is_Some (isoforms !! bed_name r)) by (by exists "g1").
  assert (Hcount : bed_exonCount r ≠ 0) by (cbn; lia).
  assert (Hlen : length (bed_starts r) ≠ length (bed_sizes r))
    by (cbn; lia).
  split; [exact Hiso|]. split; [exact Hcount|]. split; [exact Hlen|].
  exact (run_rejects_uneven_exon_lists r isoforms (World [] ∅)
           Hiso Hcount Hlen).
Defined.

(** ** Non-coding records *)

Lemma for_io_lines {A} (line : A → gtf_line) (body : A → io unit) :
  ∀ xs w,
    (∀ x w, x ∈ xs →
            body x w = (Ok tt, World (file w ++ [line x]) (GENES w))) →
    for_io xs body w = (Ok tt, World (file w ++ map line xs) (GENES w)).
Proof.
  induction xs as [|x xs IH]; intros w Hbody; cbn [for_io map].
  - rewrite app_nil_r. by destruct w.
  - rewrite io_bind_eq, Hbody by left.
    rewrite IH by (intros; apply Hbody; by right).
    cbn [file GENES]. by rewrite <- app_assoc.
Qed.

Lemma absent_when_cds_empty c k codon :
  first_descriptor c c k codon ∨ last_descriptor c c k codon →
  codon = zero_codon.
Proof. intros [[?|[[? _]|[? _]]]|[?|[[? _]|[? _]]]]; first [done | lia]. Qed.

Lemma emit_codons_absent source name chrom strand geneName exonCount w :
  emit_codons source name chrom strand geneName zero_codon zero_codon
    exonCount w = (Ok tt, w).
Proof. unfold emit_codons. by destruct (negb _). Qed.

(** X16: a non-coding record gets structural lines only.  When
    [cdsStart = cdsEnd] (and the record is otherwise sound: known
    transcript, the announced number of exons, no exon with its end before
    its start, [txStart <= txEnd]) [run] succeeds and writes exactly the
    gene line, if the gene is new, the transcript line and one exon line per
    exon, in input order and with the exon's own bounds: no CDS, UTR or
    codon line. *)
Theorem noncoding_record_output :
  ∀ r isoforms w g exonStart exonEnd,
    isoforms !! bed_name r = Some g →
    absolute_exons (bed_txStart r) (bed_starts r) (bed_sizes r)
    = Ok (exonStart, exonEnd) →
    len exonStart = bed_exonCount r → 0 < bed_exonCount r →
    Forall2 Z.le exonStart exonEnd →
    bed_txStart r <= bed_txEnd r →
    bed_cdsStart r = bed_cdsEnd r →
    ∃ exons,
      run r isoforms w
      = (Ok tt,
         World (file w ++
                (if has_key (GENES w) g then []
                 else [GtfLine (bed_chrom r) "test" "gene" (bed_txStart r + 1)
                         (bed_txEnd r) "." (bed_strand r) "."
                         [("gene_id", g)]]) ++
                built_line "test" (bed_name r) (bed_chrom r) (bed_strand r) g
                  "transcript" (bed_txStart r) (bed_txEnd r) (-1) (-1)
                  (bed_exonCount r)
                :: exons)
           (if has_key (GENES w) g then GENES w
            else <[g := true]> (GENES w))) ∧
      length exons = length exonStart ∧
      ∀ (k : nat) es ee,
        exonStart !! k = Some es → exonEnd !! k = Some ee →
        exons !! k
        = Some (built_line "test" (bed_name r) (bed_chrom r) (bed_strand r) g
                  "exon" es ee (Z.of_nat k) (-1) (bed_exonCount r)).
Proof.
  intros r isoforms w g exonStart exonEnd Hg Habs Hcount Hpos Hle Htx Hcds.
  pose proof (Forall2_length _ _ _ Hle) as Hlen.
  destruct (exon_frames_loop_prefix (bed_cdsStart r) (bed_cdsEnd r)
              exonStart exonEnd (bed_strand r))
    as (frames & cds & Hloop & Hfl & _); [lia|].
  assert (Hframes : exon_frames (bed_cdsStart r) (bed_cdsEnd r)
                      exonStart exonEnd (bed_strand r) = Ok frames).
  { unfold exon_frames. by rewrite Hloop. }
  destruct (codon_searches_return frames (bed_strand r) (bed_cdsStart r)
              (bed_cdsEnd r) exonStart exonEnd)
    as (first_codon & last_codon & Hfirst & Hlastc); [done|lia| |].
  { intros ->. unfold len in Hcount. cbn in Hcount. lia. }
  pose proof (find_first_codon_descriptor _ _ _ _ _ _ _ Hfirst) as Hd1.
  pose proof (find_last_codon_descriptor _ _ _ _ _ _ _ Hlastc) as Hd2.
  rewrite Hcds in Hd1, Hd2.
  rewrite (absent_when_cds_empty _ _ _ (or_introl Hd1)) in *.
  rewrite (absent_when_cds_empty _ _ _ (or_intror Hd2)) in *.
  set (line := fun k : nat =>
    built_line "test" (bed_name r) (bed_chrom r) (bed_strand r) g "exon"
      (exonStart !!! k) (exonEnd !!! k) (Z.of_nat k) (-1) (bed_exonCount r)).
  exists (map line (seq 0 (length exonStart))). split_and!.
  - rewrite run_blocks. rewrite lift_bind. unfold lookup_isoform. rewrite Hg.
    rewrite lift_bind. replace (negb (bed_exonCount r =? 0)) with true by lia.
    rewrite Habs. rewrite lift_bind, Hframes. rewrite lift_bind, Hfirst.
    rewrite lift_bind, Hlastc.
    assert (Hce : trim_cdsEnd (bed_strand r) (bed_txStart r) (bed_txEnd r)
                    (bed_exonCount r) exonStart exonEnd zero_codon
                    (bed_cdsEnd r) = Ok (bed_cdsEnd r)).
    { unfold trim_cdsEnd. by destruct (String.eqb _ _). }
    assert (Hcs : trim_cdsStart (bed_strand r) (bed_txStart r) (bed_txEnd r)
                    (bed_exonCount r) exonStart exonEnd zero_codon
                    (bed_cdsStart r) = Ok (bed_cdsStart r)).
    { unfold trim_cdsStart. by destruct (String.eqb _ _). }
    rewrite lift_bind, Hce. rewrite lift_bind, Hcs.
    rewrite io_bind_eq, emit_gene_cases.
    replace (bed_txStart r <=? bed_txEnd r) with true by lia.
    assert (Htail : ∀ w0,
      run_tail r g exonStart exonEnd frames zero_codon zero_codon
        (bed_cdsStart r) (bed_cdsEnd r) w0
      = (Ok tt,
         World (file w0 ++
                built_line "test" (bed_name r) (bed_chrom r) (bed_strand r) g
                  "transcript" (bed_txStart r) (bed_txEnd r) (-1) (-1)
                  (bed_exonCount r)
                :: map line (seq 0 (length exonStart)))
           (GENES w0))).
    { intros w0. unfold run_tail.
      rewrite io_bind_eq, build_gtf_line_ok by done.
      rewrite io_bind_eq, py_range_up.
      replace (Z.to_nat (bed_exonCount r)) with (length exonStart)
        by (unfold len in Hcount; lia).
      rewrite (for_io_lines (fun x => line (Z.to_nat x))).
      - rewrite emit_codons_absent. cbn [file GENES].
        rewrite <- app_assoc, map_map. cbn [app].
        replace (map (fun x : nat => line (Z.to_nat (Z.of_nat x)))
                   (seq 0 (length exonStart)))
          with (map line (seq 0 (length exonStart))); [done|].
        apply map_ext. intros k. by rewrite Nat2Z.id.
      - intros x w1 Hx. apply list_elem_of_fmap in Hx as (k & -> & Hk).
        apply list_elem_of_In, in_seq in Hk. rewrite Nat2Z.id.
        destruct (lookup_lt_is_Some_2 exonStart k) as [es Hes]; [lia|].
        destruct (lookup_lt_is_Some_2 exonEnd k) as [ee Hee]; [lia|].
        pose proof (Forall2_lookup_lr _ _ _ _ _ _ Hle Hes Hee).
        unfold emit_exon. rewrite lift_bind, getitem_nat, Hes.
        rewrite lift_bind, getitem_nat, Hee.
        rewrite io_bind_eq, build_gtf_line_ok by done.
        replace (bed_cdsStart r <? bed_cdsEnd r) with false by lia.
        unfold line. cbn [when].
        by rewrite (list_lookup_total_correct _ _ _ Hes),
          (list_lookup_total_correct _ _ _ Hee). }
    destruct (has_key (GENES w) g); rewrite Htail; [done|].
    cbn [file GENES]. by rewrite <- app_assoc.
  - by rewrite length_map, length_seq.
  - intros k es ee Hes Hee. rewrite list_lookup_fmap.
    rewrite lookup_seq_lt by (by eapply lookup_lt_Some). cbn. unfold line.
    by rewrite (list_lookup_total_correct _ _ _ Hes),
      (list_lookup_total_correct _ _ _ Hee).
Qed.

Lemma noncoding_record_output_witness :
  let isoforms : gmap string string := {[ "tx1" := "g1" ]} in
  let r := BedRecord "chr1" 0 300 "tx1" "-" 20 20 2 [100; 100] [0; 200] in
  let w := World [] ∅ in
  isoforms !! bed_name r = Some "g1" ∧
  absolute_exons (bed_txStart r) (bed_starts r) (bed_sizes r)
  = Ok ([0; 200], [100; 300]) ∧
  len [0; 200] = bed_exonCount r ∧ 0 < bed_exonCount r ∧
  Forall2 Z.le [0; 200] [100; 300] ∧
  bed_txStart r <= bed_txEnd r ∧
  bed_cdsStart r = bed_cdsEnd r ∧
  ∃ exons,
    run r isoforms w
    = (Ok tt,
       World (file w ++
              (if has_key (GENES w) "g1" then []
               else [GtfLine (bed_chrom r) "test" "gene" (bed_txStart r + 1)
                       (bed_txEnd r) "." (bed_strand r) "."
                       [("gene_id", "g1")]]) ++
              built_line "test" (bed_name r) (bed_chrom r) (bed_strand r) "g1"
                "transcript" (bed_txStart r) (bed_txEnd r) (-1) (-1)
                (bed_exonCount r)
              :: exons)
         (if has_key (GENES w) "g1" then GENES w
          else <["g1" := true]> (GENES w))) ∧
    length exons = length [0; 200] ∧
    ∀ (k : nat) es ee,
      [0; 200] !! k = Some es → [100; 300] !! k = Some ee →
      exons !! k
      = Some (built_line "test" (bed_name r) (bed_chrom r) (bed_strand r) "g1"
                "exon" es ee (Z.of_nat k) (-1) (bed_exonCount r)).
Proof.
  intros isoforms r w.
  assert (Hle : Forall2 Z.le [0; 200] [100; 300]).
  { repeat constructor; lia. }
  split; [reflexivity|]. split; [reflexivity|]. split; [reflexivity|].
  split; [cbn; lia|]. split; [exact Hle|]. split; [cbn; lia|].
  split; [reflexivity|].
  apply (noncoding_record_output r isoforms w "g1" [0; 200] [100; 300]);
    first [reflexivity | exact Hle | cbn; lia].
Defined.

(** ** The exceptions of [run] *)

Lemma for_loop_raise {A S R} (P : exn → Prop)
    (body : S → A → result (flow S R)) :
  (∀ s x e, body s x = Raise e → P e) →
  ∀ xs s e, for_loop body s xs = Raise e → P e.
Proof.
  intros Hbody. induction xs as [|x xs IH]; intros s e; cbn; [done|].
  unfold mbind, result_bind.
  destruct (body s x) as [[s'|s'|r]|e'] eqn:Hb; try done.
  - apply IH.
  - intros [= <-]. by eapply Hbody.
Qed.

(** The exceptions of [move_pos]: the entry assertion, an index out of
    range, and its two messages. *)
Lemma move_pos_raise txStart txEnd exonCount exonStart exonEnd pos dist e :
  move_pos txStart txEnd exonCount exonStart exonEnd pos dist = Raise e →
  e = AssertionError ∨ e = IndexError ∨
  e = ValueError (cant_find pos) ∨ e = ValueError (cant_move pos dist).
Proof.
  unfold move_pos. destruct (negb _); [intros [= <-]; by left|].
  destruct (for_loop _ _ _) as [[[x|]|[]]|e0] eqn:Hfind; cbn [mbind result_bind].
  - destruct (while_loop _ _ _ _) as [w'|e1] eqn:Hloop; cbn [mbind result_bind].
    + destruct (0 <? w_steps w'); [|done]. intros [= <-]. by do 3 right.
    + intros [= <-]. right; left.
      eapply (while_loop_raise (fun e => e = IndexError)); [|exact Hloop].
      intros s e. apply move_body_raise.
  - intros [= <-]. right; right; by left.
  - intros [= <-]. right; right; by left.
  - intros [= <-]. right; left.
    eapply (for_loop_raise (fun e => e = IndexError)); [|exact Hfind].
    intros s x e. unfold find_exon_body, mbind, result_bind.
    destruct (in_exon _ _ _ _) as [[]|e1] eqn:Hin; [done..|].
    intros [= <-]. by eapply in_exon_raise.
Qed.

Lemma codon_complete_raise codon e :
  codon_complete codon = Raise e → e = IndexError.
Proof.
  unfold codon_complete, mbind, result_bind.
  destruct (getitem codon 1) eqn:H1; [|intros [= <-]; by eapply getitem_raise].
  destruct (getitem codon 0) eqn:H0; [|intros [= <-]; by eapply getitem_raise].
  destruct (getitem codon 3) eqn:H3; [|intros [= <-]; by eapply getitem_raise].
  destruct (getitem codon 2) eqn:H2; [|intros [= <-]; by eapply getitem_raise].
  done.
Qed.

Lemma find_first_codon_raise frames strand cdsStart cdsEnd exonStart exonEnd e :
  find_first_codon frames strand cdsStart cdsEnd exonStart exonEnd = Raise e →
  e = IndexError.
Proof.
  rewrite find_first_codon_cases.
  destruct (first_codon_at_lookup frames strand cdsStart cdsEnd
              exonStart exonEnd 0) as [(c & Hc & _)|[Hc _]];
    change (Z.of_nat 0) with 0 in *; rewrite Hc.
  - destruct frames as [|f0 [|f1 rest]]; try done. by destruct (0 <=? f0).
  - destruct frames as [|f0 [|f1 rest]]; try by intros [= <-].
    destruct (0 <=? f0); [by intros [= <-]|done].
Qed.

Lemma find_last_codon_raise frames strand cdsStart cdsEnd exonStart exonEnd e :
  find_last_codon frames strand cdsStart cdsEnd exonStart exonEnd = Raise e →
  e = IndexError.
Proof.
  destruct frames as [|f frames _] using rev_ind.
  - change (find_last_codon [] strand cdsStart cdsEnd exonStart exonEnd)
      with (last_codon_at [] strand cdsStart cdsEnd exonStart exonEnd
              (Z.of_nat 0)).
    destruct (last_codon_at_lookup [] strand cdsStart cdsEnd
                exonStart exonEnd 0) as [(c & Hc & _)|[Hc _]]; rewrite Hc;
      [done|by intros [= <-]].
  - rewrite find_last_codon_cases. destruct (0 <=? f); [|done].
    destruct (last_codon_at_lookup (frames ++ [f]) strand cdsStart cdsEnd
                exonStart exonEnd (length frames))
      as [(c & Hc & _)|[Hc _]]; rewrite Hc; [done|by intros [= <-]].
Qed.

Lemma absolute_exons_raise txStart starts sizes e :
  absolute_exons txStart starts sizes = Raise e → e = IndexError.
Proof.
  destruct (decide (length starts < length sizes)%nat).
  - rewrite absolute_exons_short by done. by intros [= <-].
  - by rewrite absolute_exons_ok by lia.
Qed.

Lemma raises_only_ret {A} P (a : A) : raises_only P (mret a).
Proof. intros w e w'. done. Qed.

Lemma raises_only_bind {A B} P (m : io A) (k : A → io B) :
  raises_only P m → (∀ a, raises_only P (k a)) → raises_only P (m ≫= k).
Proof.
  intros Hm Hk w e w'. rewrite io_bind_eq.
  destruct (m w) as [[a|e0] w1] eqn:Hmw.
  - apply Hk.
  - intros [= <- <-]. by eapply Hm.
Qed.

Lemma raises_only_lift_bind {A B} (P : exn → Prop) (r : result A)
    (k : A → io B) :
  (∀ e, r = Raise e → P e) → (∀ a, raises_only P (k a)) →
  raises_only P (lift r ≫= k).
Proof.
  intros Hr Hk w e w'. rewrite lift_bind. destruct r as [a|e0].
  - apply Hk.
  - intros [= <- <-]. by apply Hr.
Qed.

Lemma raises_only_when P (b : bool) (m : io unit) :
  raises_only P m → raises_only P (when b m).
Proof. destruct b; cbn; [done|]. intros _. apply raises_only_ret. Qed.

Lemma raises_only_for_io {A} P (xs : list A) (body : A → io unit) :
  (∀ x, raises_only P (body x)) → raises_only P (for_io xs body).
Proof.
  intros Hbody. induction xs as [|x xs IH]; cbn [for_io].
  - apply raises_only_ret.
  - apply raises_only_bind; [apply Hbody|]. intros _. apply IH.
Qed.

Lemma raises_only_build_gtf_line source name chrom strand geneName type_g
    start end_ exon frame exonCount :
  raises_only assertion_or_index
    (build_gtf_line source name chrom strand geneName type_g
       start end_ exon frame exonCount).
Proof.
  intros w e w'. destruct (Z.le_gt_cases start end_).
  - by rewrite build_gtf_line_ok.
  - rewrite build_gtf_line_fail by lia. intros [= <- <-]. by left.
Qed.

Lemma getitem_assertion_or_index {A} (l : list A) i e :
  getitem l i = Raise e → assertion_or_index e.
Proof. intros ->%getitem_raise. by right. Qed.

Lemma raises_only_run_tail r geneName exonStart exonEnd frames
    first_codon last_codon cdsStart cdsEnd :
  raises_only assertion_or_index
    (run_tail r geneName exonStart exonEnd frames first_codon last_codon
       cdsStart cdsEnd).
Proof.
  unfold run_tail, emit_exon, emit_codons, write_features, write_codon.
  destruct (negb _);
    repeat first
      [ apply raises_only_build_gtf_line
      | apply raises_only_when
      | apply raises_only_for_io; intros ?
      | apply raises_only_lift_bind;
        [ first [ apply @getitem_assertion_or_index
                | intros ? ->%codon_complete_raise; by right ]
        | intros ? ]
      | apply raises_only_bind; [|intros ?] ].
Qed.

Lemma trim_cdsEnd_raise strand txStart txEnd exonCount exonStart exonEnd
    last_codon cdsEnd e :
  trim_cdsEnd strand txStart txEnd exonCount exonStart exonEnd last_codon
    cdsEnd = Raise e →
  assertion_or_index e ∨
  (strand = "+" ∧ (e = ValueError (cant_find cdsEnd) ∨
                   e = ValueError (cant_move cdsEnd (-3)))).
Proof.
  unfold trim_cdsEnd. destruct (String.eqb_spec strand "+") as [->|]; [|done].
  destruct (codon_complete last_codon) as [[]|e0] eqn:Hc;
    cbn [mbind result_bind]; [|done|].
  - intros [-> |[-> |[-> | ->]]]%move_pos_raise;
      [left; by left|left; by right|right..]; split; auto.
  - intros [= <-]. left. right. by eapply codon_complete_raise.
Qed.

Lemma trim_cdsStart_raise strand txStart txEnd exonCount exonStart exonEnd
    first_codon cdsStart e :
  trim_cdsStart strand txStart txEnd exonCount exonStart exonEnd first_codon
    cdsStart = Raise e →
  assertion_or_index e ∨
  (strand = "-" ∧ (e = ValueError (cant_find cdsStart) ∨
                   e = ValueError (cant_move cdsStart 3))).
Proof.
  unfold trim_cdsStart. destruct (String.eqb_spec strand "-") as [->|]; [|done].
  destruct (codon_complete first_codon) as [[]|e0] eqn:Hc;
    cbn [mbind result_bind]; [|done|].
  - intros [-> |[-> |[-> | ->]]]%move_pos_raise;
      [left; by left|left; by right|right..]; split; auto.
  - intros [= <-]. left. right. by eapply codon_complete_raise.
Qed.

Lemma run_failure_modes r isoforms w e w' :
  run r isoforms w = (Raise e, w') → failure_mode r isoforms w w' e.
Proof.
  rewrite run_blocks. rewrite lift_bind. unfold lookup_isoform.
  destruct (isoforms !! bed_name r) as [g|] eqn:Hg.
  2:{ intros [= <- <-]. done. }
  assert (Hai : ∀ e0, assertion_or_index e0 → failure_mode r isoforms w w' e0).
  { intros e0 [->| ->]; cbn; by rewrite Hg. }
  rewrite lift_bind.
  destruct (Z.eqb_spec (bed_exonCount r) 0) as [Hzero|Hcount]; cbn [negb].
  { intros [= <- <-]. done. }
  destruct (absolute_exons _ _ _) as [[exonStart exonEnd]|e0] eqn:Habs.
  2:{ intros [= <- <-]. apply absolute_exons_raise in Habs as ->.
      apply Hai. by right. }
  rewrite lift_bind.
  destruct (exon_frames _ _ _ _ _) as [frames|e0] eqn:Hfr.
  2:{ intros [= <- <-]. apply exon_frames_raise in Hfr as [-> _].
      apply Hai. by right. }
  rewrite lift_bind.
  destruct (find_first_codon _ _ _ _ _ _) as [first_codon|e0] eqn:Hfc.
  2:{ intros [= <- <-]. apply find_first_codon_raise in Hfc as ->.
      apply Hai. by right. }
  rewrite lift_bind.
  destruct (find_last_codon _ _ _ _ _ _) as [last_codon|e0] eqn:Hlc.
  2:{ intros [= <- <-]. apply find_last_codon_raise in Hlc as ->.
      apply Hai. by right. }
  rewrite lift_bind.
  destruct (trim_cdsEnd _ _ _ _ _ _ _ _) as [cdsEnd|e0] eqn:Hce.
  2:{ intros [= <- <-].
      apply trim_cdsEnd_raise in Hce as [Hce|[Hs [->| ->]]];
        [by apply Hai|cbn; auto..]. }
  rewrite lift_bind.
  destruct (trim_cdsStart _ _ _ _ _ _ _ _) as [cdsStart|e0] eqn:Hcs.
  2:{ intros [= <- <-].
      apply trim_cdsStart_raise in Hcs as [Hcs|[Hs [->| ->]]];
        [by apply Hai|cbn; auto..]. }
  rewrite io_bind_eq, emit_gene_cases.
  pose proof (raises_only_run_tail r g exonStart exonEnd frames first_codon
                last_codon cdsStart cdsEnd) as Htail.
  destruct (has_key (GENES w) g).
  - intros Hrun. apply Hai. by eapply Htail.
  - destruct (bed_txStart r <=? bed_txEnd r).
    + intros Hrun. apply Hai. by eapply Htail.
    + intros [= <- <-]. apply Hai. by left.
Qed.

(** X17: [KeyError] means an unknown transcript, and nothing else does.
    [run] raises [KeyError] exactly when the record's name is not a key of
    [isoforms]; the exception carries that name, and the output and [GENES]
    are left as they were. *)
Theorem run_key_error_iff_unknown_transcript :
  ∀ r isoforms w k w',
    run r isoforms w = (Raise (KeyError k), w') ↔
    isoforms !! bed_name r = None ∧ k = bed_name r ∧ w' = w.
Proof.
  intros r isoforms w k w'. split.
  - intros Hrun. apply run_failure_modes in Hrun as (-> & Hnone & ->). done.
  - intros (Hnone & -> & ->). rewrite run_blocks, lift_bind.
    unfold lookup_isoform. by rewrite Hnone.
Qed.

Lemma run_key_error_iff_unknown_transcript_witness :
  let isoforms : gmap string string := {[ "tx1" := "g1" ]} in
  let r := BedRecord "chr1" 0 300 "tx2" "+" 20 251 2 [100; 100] [0; 200] in
  let w := World [] ∅ in
  (isoforms !! bed_name r = None ∧ "tx2" = bed_name r ∧ w = w) ∧
  run r isoforms w = (Raise (KeyError "tx2"), w).
Proof.
  intros isoforms r w.
  assert (Hnone : isoforms !! bed_name r = None ∧ "tx2" = bed_name r ∧ w = w)
    by (split_and!; reflexivity).
  split; [exact Hnone|].
  exact (proj2 (run_key_error_iff_unknown_transcript r isoforms w "tx2" w)
           Hnone).
Defined.

(** A [ValueError] of a trim is the one of its call of [move_pos]. *)
Lemma trim_cdsEnd_value_error strand txStart txEnd exonCount exonStart exonEnd
    last_codon cdsEnd m :
  trim_cdsEnd strand txStart txEnd exonCount exonStart exonEnd last_codon
    cdsEnd = Raise (ValueError m) →
  strand = "+" ∧
  move_pos txStart txEnd exonCount exonStart exonEnd cdsEnd (-3)
  = Raise (ValueError m).
Proof.
  unfold trim_cdsEnd. destruct (String.eqb_spec strand "+") as [->|]; [|done].
  destruct (codon_complete last_codon) as [[]|e0] eqn:Hc;
    cbn [mbind result_bind]; [done|done|].
  intros [= ->]. by apply codon_complete_raise in Hc.
Qed.

Lemma trim_cdsStart_value_error strand txStart txEnd exonCount exonStart
    exonEnd first_codon cdsStart m :
  trim_cdsStart strand txStart txEnd exonCount exonStart exonEnd first_codon
    cdsStart = Raise (ValueError m) →
  strand = "-" ∧
  move_pos txStart txEnd exonCount exonStart exonEnd cdsStart 3
  = Raise (ValueError m).
Proof.
  unfold trim_cdsStart. destruct (String.eqb_spec strand "-") as [->|]; [|done].
  destruct (codon_complete first_codon) as [[]|e0] eqn:Hc;
    cbn [mbind result_bind]; [done|done|].
  intros [= ->]. by apply codon_complete_raise in Hc.
Qed.

(** A [ValueError] of [run] is raised by the [move_pos] of one of the two
    trims, before anything is written. *)
Lemma run_value_error_inv r isoforms w m w' :
  run r isoforms w = (Raise (ValueError m), w') →
  w' = w ∧ is_Some (isoforms !! bed_name r) ∧
  ∃ exonStart exonEnd pos dist,
    absolute_exons (bed_txStart r) (bed_starts r) (bed_sizes r)
    = Ok (exonStart, exonEnd) ∧
    ((bed_strand r = "+" ∧ pos = bed_cdsEnd r ∧ dist = -3) ∨
     (bed_strand r = "-" ∧ pos = bed_cdsStart r ∧ dist = 3)) ∧
    move_pos (bed_txStart r) (bed_txEnd r) (bed_exonCount r)
      exonStart exonEnd pos dist = Raise (ValueError m).
Proof.
  rewrite run_blocks. rewrite lift_bind. unfold lookup_isoform.
  destruct (isoforms !! bed_name r) as [g|] eqn:Hg; [|done].
  rewrite lift_bind.
  destruct (Z.eqb_spec (bed_exonCount r) 0) as [Hzero|Hcount]; cbn [negb];
    [done|].
  destruct (absolute_exons _ _ _) as [[exonStart exonEnd]|e0] eqn:Habs.
  2:{ intros [= -> <-]. by apply absolute_exons_raise in Habs. }
  rewrite lift_bind.
  destruct (exon_frames _ _ _ _ _) as [frames|e0] eqn:Hfr.
  2:{ intros [= -> <-]. by apply exon_frames_raise in Hfr as [? _]. }
  rewrite lift_bind.
  destruct (find_first_codon _ _ _ _ _ _) as [first_codon|e0] eqn:Hfc.
  2:{ intros [= -> <-]. by apply find_first_codon_raise in Hfc. }
  rewrite lift_bind.
  destruct (find_last_codon _ _ _ _ _ _) as [last_codon|e0] eqn:Hlc.
  2:{ intros [= -> <-]. by apply find_last_codon_raise in Hlc. }
  rewrite lift_bind.
  destruct (trim_cdsEnd _ _ _ _ _ _ _ _) as [cdsEnd|e0] eqn:Hce.
  2:{ intros [= -> <-]. apply trim_cdsEnd_value_error in Hce as [Hs Hmove].
      split_and!; [done|by eexists|].
      exists exonStart, exonEnd, (bed_cdsEnd r), (-3).
      split_and!; [done| |done]. by left. }
  rewrite lift_bind.
  destruct (trim_cdsStart _ _ _ _ _ _ _ _) as [cdsStart|e0] eqn:Hcs.
  2:{ intros [= -> <-]. apply trim_cdsStart_value_error in Hcs as [Hs Hmove].
      split_and!; [done|by eexists|].
      exists exonStart, exonEnd, (bed_cdsStart r), 3.
      split_and!; [done| |done]. by right. }
  rewrite io_bind_eq, emit_gene_cases.
  pose proof (raises_only_run_tail r g exonStart exonEnd frames first_codon
                last_codon cdsStart cdsEnd) as Htail.
  destruct (has_key (GENES w) g).
  - intros Hrun. by apply Htail in Hrun as [|].
  - destruct (bed_txStart r <=? bed_txEnd r); [|done].
    intros Hrun. by apply Htail in Hrun as [|].
Qed.

(** X18: when [run] fails in [move_pos], the failure is the stop-codon
    trim's and nothing has been written.  If [run] raises one of the two
    [ValueError]s of [move_pos] ("can't find P" or "can't move P by D"), the
    output and [GENES] are as they were and the transcript is known; the
    error is the one of the trim's call of [move_pos], with P the record's
    [cdsEnd] and D = -3 on the plus strand, or P its [cdsStart] and D = 3
    on the minus strand, and P lies within [[txStart, txEnd]].  When the
    exon lists agree with [exonCount] and no exon is empty, "can't find"
    means that P lies in no exon, and "can't move" that the exons run out
    before three bases are walked. *)
Theorem run_value_error_is_the_trim :
  ∀ r isoforms w m w',
    run r isoforms w = (Raise (ValueError m), w') →
    w' = w ∧ is_Some (isoforms !! bed_name r) ∧
    ∃ exonStart exonEnd pos dist,
      absolute_exons (bed_txStart r) (bed_starts r) (bed_sizes r)
      = Ok (exonStart, exonEnd) ∧
      ((bed_strand r = "+" ∧ pos = bed_cdsEnd r ∧ dist = -3) ∨
       (bed_strand r = "-" ∧ pos = bed_cdsStart r ∧ dist = 3)) ∧
      move_pos (bed_txStart r) (bed_txEnd r) (bed_exonCount r)
        exonStart exonEnd pos dist = Raise (ValueError m) ∧
      bed_txStart r <= pos <= bed_txEnd r ∧
      (m = cant_find pos ∨ m = cant_move pos dist) ∧
      (exons_wf (bed_exonCount r) exonStart exonEnd →
       (m = cant_find pos ↔ in_no_exon exonStart exonEnd pos) ∧
       (m = cant_move pos dist ↔
        exons_exhausted exonStart exonEnd pos dist)).
Proof.
  intros r isoforms w m w' Hrun.
  apply run_value_error_inv in Hrun
    as (-> & Hknown & exonStart & exonEnd & pos & dist & Habs & Hwhich & Hmove).
  split; [done|]. split; [done|].
  exists exonStart, exonEnd, pos, dist.
  assert (Htx : bed_txStart r <= pos <= bed_txEnd r).
  { destruct (decide (bed_txStart r <= pos <= bed_txEnd r)) as [|Hout];
      [done|].
    rewrite move_pos_assert_fail in Hmove by done. discriminate. }
  split; [done|]. split; [done|]. split; [done|]. split; [done|]. split.
  - apply move_pos_raise in Hmove as [?|[?|[[= ->]|[= ->]]]];
      [done|done|by left|by right].
  - intros Hwf.
    destruct (move_pos_cases (bed_txStart r) (bed_txEnd r) (bed_exonCount r)
                exonStart exonEnd pos dist Hwf Htx)
      as [[Hno Hr]|[(k & Hk & Hlt & Hr)|(k & p & _ & _ & Hr & _)]];
      rewrite Hr in Hmove; [| |done]; injection Hmove as <-.
    + split; [done|]. split; [done|].
      intros (k & [Hin _] & _). by destruct (Hno k).
    + split.
      * split; [done|]. intros Hno. destruct Hk as [Hin _].
        by destruct (Hno k).
      * split; [|done]. intros _. by exists k.
Qed.

Lemma run_value_error_is_the_trim_witness :
  let isoforms : gmap string string := {[ "tx1" := "g1" ]} in
  let r := BedRecord "chr1" 0 400 "tx1" "+" 20 350 2 [100; 100] [0; 200] in
  let w := World [] ∅ in
  let m := cant_find 350 in
  run r isoforms w = (Raise (ValueError m), w) ∧
  w = w ∧ is_Some (isoforms !! bed_name r) ∧
  ∃ exonStart exonEnd pos dist,
    absolute_exons (bed_txStart r) (bed_starts r) (bed_sizes r)
    = Ok (exonStart, exonEnd) ∧
    ((bed_strand r = "+" ∧ pos = bed_cdsEnd r ∧ dist = -3) ∨
     (bed_strand r = "-" ∧ pos = bed_cdsStart r ∧ dist = 3)) ∧
    move_pos (bed_txStart r) (bed_txEnd r) (bed_exonCount r)
      exonStart exonEnd pos dist = Raise (ValueError m) ∧
    bed_txStart r <= pos <= bed_txEnd r ∧
    (m = cant_find pos ∨ m = cant_move pos dist) ∧
    (exons_wf (bed_exonCount r) exonStart exonEnd →
     (m = cant_find pos ↔ in_no_exon exonStart exonEnd pos) ∧
     (m = cant_move pos dist ↔ exons_exhausted exonStart exonEnd pos dist)).
Proof.
  intros isoforms r w m.
  assert (Hrun : run r isoforms w = (Raise (ValueError m), w))
    by (by vm_compute).
  split; [exact Hrun|].
  exact (run_value_error_is_the_trim r isoforms w m w Hrun).
Defined.

(** ** The isoform table *)

Lemma for_each_app {A S} (body : S → A → result S) xs ys s :
  for_each body s (xs ++ ys)
  = (s' ← for_each body s xs ; for_each body s' ys).
Proof.
  revert s. induction xs as [|x xs IH]; intros s; cbn; [done|].
  destruct (body s x); cbn; [apply IH|done].
Qed.

Lemma split_no_sep sep s : contains sep s = false → split sep s = [s].
Proof.
  induction s as [|c s IH]; cbn; [done|].
  destruct (Ascii.eqb c sep); [done|]. cbn. intros Hs. by rewrite IH.
Qed.

Lemma split_sep sep s :
  contains sep s = true → ∃ f0 f1 rest, split sep s = f0 :: f1 :: rest.
Proof.
  induction s as [|c s IH]; cbn; [done|].
  destruct (Ascii.eqb c sep); cbn.
  - intros _. destruct s as [|c' s']; cbn; [by eexists _, _, _|].
    destruct (Ascii.eqb c' sep); [by eexists _, _, _|].
    destruct (split sep s') as [|f fs]; by eexists _, _, _.
  - intros Hs. destruct (IH Hs) as (f0 & f1 & rest & ->). by eexists _, _, _.
Qed.

(** One iteration of [hashmap]. *)
Lemma hashmap_body_cases isoforms line :
  if startswith line "Gene" then hashmap_body isoforms line = Ok isoforms
  else if contains tab_char (strip line)
  then ∃ k v, hashmap_body isoforms line = Ok (<[k := v]> isoforms)
  else hashmap_body isoforms line = Raise IndexError.
Proof.
  unfold hashmap_body. destruct (startswith line "Gene"); [done|].
  destruct (contains tab_char (strip line)) eqn:Htab.
  - destruct (split_sep _ _ Htab) as (f0 & f1 & rest & ->). by eexists _, _.
  - by rewrite (split_no_sep _ _ Htab).
Qed.

Lemma hashmap_loop_cases lines :
  ∀ isoforms,
    (Exists tabless lines ∧
     for_each hashmap_body isoforms lines = Raise IndexError) ∨
    (¬ Exists tabless lines ∧
     ∃ table, for_each hashmap_body isoforms lines = Ok table).
Proof.
  induction lines as [|l lines IH]; intros isoforms.
  { right. split; [by intros ?%Exists_nil|]. by eexists. }
  cbn [for_each]. pose proof (hashmap_body_cases isoforms l) as Hl.
  rewrite !Exists_cons.
  destruct (startswith l "Gene") eqn:Hg.
  - rewrite Hl. cbn [mbind result_bind].
    destruct (IH isoforms) as [[Hex Hr]|[Hno Hr]]; [left|right].
    + split; [by right|done].
    + split; [|done]. intros [[Hf _]|?]; [congruence|done].
  - destruct (contains tab_char (strip l)) eqn:Ht.
    + destruct Hl as (k & v & ->). cbn [mbind result_bind].
      destruct (IH (<[k := v]> isoforms)) as [[Hex Hr]|[Hno Hr]];
        [left|right].
      * split; [by right|done].
      * split; [|done]. intros [[_ Hf]|?]; [congruence|done].
    + rewrite Hl. left. split; [by left|done].
Qed.

(** X19: lines that start with "Gene" are dropped, wherever they stand.
    [hashmap] skips not only a header: every line whose first four
    characters are "Gene" is ignored, so that the result is the same as
    without the line, and a transcript of a gene named, say, "Gene1" gets no
    entry from that line. *)
Theorem hashmap_skips_gene_lines :
  ∀ pre line post,
    startswith line "Gene" = true →
    hashmap (pre ++ line :: post) = hashmap (pre ++ post).
Proof.
  intros pre line post Hgene. unfold hashmap. rewrite !for_each_app.
  destruct (for_each hashmap_body ∅ pre) as [table|e]; [|done].
  cbn [mbind result_bind for_each].
  assert (hashmap_body table line = Ok table) as ->; [|done].
  unfold hashmap_body. by rewrite Hgene.
Qed.

Lemma hashmap_skips_gene_lines_witness :
  let nl := String "010"%char EmptyString in
  let line1 := "g1" +:+ String tab_char ("tx1" +:+ nl) in
  let line2 := "Gene1" +:+ String tab_char ("tx2" +:+ nl) in
  startswith line2 "Gene" = true ∧
  hashmap ([line1] ++ line2 :: []) = hashmap ([line1] ++ []) ∧
  hashmap [line1; line2] = Ok {[ "tx1" := "g1" ]}.
Proof.
  intros nl line1 line2. split; [reflexivity|]. split.
  - apply (hashmap_skips_gene_lines [line1] line2 []). reflexivity.
  - by vm_compute.
Defined.

(** X20: a line without a tab stops the loading.  [hashmap] raises
    [IndexError], its only exception, exactly when some line that does not
    start with "Gene" has no tab left once stripped, as a blank line or
    a line with a single field has; otherwise it returns a table. *)
Theorem hashmap_raises_iff_tabless_line :
  ∀ lines,
    (hashmap lines = Raise IndexError ↔ Exists tabless lines) ∧
    (∀ e, hashmap lines = Raise e → e = IndexError) ∧
    (¬ Exists tabless lines → ∃ table, hashmap lines = Ok table).
Proof.
  intros lines. unfold hashmap.
  destruct (hashmap_loop_cases lines ∅) as [[Hex ->]|[Hno [table ->]]].
  - split_and!; [done|by intros e [= <-]|done].
  - split_and!; [done|done|]. intros _. by eexists.
Qed.

Lemma hashmap_raises_iff_tabless_line_witness :
  let nl := String "010"%char EmptyString in
  let line1 := "g1" +:+ String tab_char ("tx1" +:+ nl) in
  Exists tabless [line1; nl] ∧ hashmap [line1; nl] = Raise IndexError.
Proof.
  intros nl line1.
  assert (Hex : Exists tabless [line1; nl]).
  { apply Exists_cons. right. apply Exists_cons. left. by split. }
  split; [exact Hex|].
  by apply (proj1 (hashmap_raises_iff_tabless_line [line1; nl])).
Defined.

Lemma append_cons c a b : String c a +:+ b = String c (a +:+ b).
Proof. reflexivity. Qed.

Lemma append_nil b : EmptyString +:+ b = b.
Proof. reflexivity. Qed.

Lemma lstrip_name g rest :
  is_name g → lstrip (g +:+ rest) = g +:+ rest.
Proof.
  intros [Hne Hall]. destruct g as [|c g]; [done|].
  rewrite append_cons. cbn in *.
  apply andb_prop in Hall as [Hc _]. by destruct (isspace c).
Qed.

Lemma rstrip_app_space a ws :
  all_chars isspace ws = true → rstrip (a +:+ ws) = rstrip a.
Proof.
  intros Hws. induction a as [|c a IH].
  - rewrite append_nil. induction ws as [|c ws IH]; cbn in *; [done|].
    apply andb_prop in Hws as [Hc Hws]. by rewrite IH, Hc.
  - rewrite append_cons. cbn. by rewrite IH.
Qed.

Lemma rstrip_nonspace t :
  all_chars (fun c => negb (isspace c)) t = true → rstrip t = t.
Proof.
  induction t as [|c t IH]; cbn; [done|].
  intros [Hc Ht]%andb_prop. rewrite (IH Ht).
  destruct t; [|done]. by destruct (isspace c).
Qed.

Lemma rstrip_before_name x t : is_name t → rstrip (x +:+ t) = x +:+ t.
Proof.
  intros [Hne Hall]. induction x as [|c x IH].
  - rewrite append_nil. by apply rstrip_nonspace.
  - rewrite append_cons. cbn. rewrite IH.
    destruct x; [|done]. rewrite append_nil. by destruct t.
Qed.

Lemma nonspace_no_tab s :
  all_chars (fun c => negb (isspace c)) s = true →
  contains tab_char s = false.
Proof.
  induction s as [|c s IH]; cbn; [done|].
  intros [Hc Hs]%andb_prop. rewrite (IH Hs), orb_false_r.
  destruct (Ascii.eqb_spec c tab_char) as [->|]; done.
Qed.

Lemma split_two_fields sep g t :
  contains sep g = false → contains sep t = false →
  split sep (g +:+ String sep t) = [g; t].
Proof.
  intros Hg Ht. induction g as [|c g IH].
  - rewrite append_nil. cbn. by rewrite Ascii.eqb_refl, (split_no_sep _ _ Ht).
  - rewrite append_cons. cbn in *.
    apply orb_false_elim in Hg as [Hc Hg]. by rewrite Hc, (IH Hg).
Qed.

Lemma prefix_before_sep p g c rest :
  contains c p = false →
  String.prefix p (g +:+ String c rest) = true → String.prefix p g = true.
Proof.
  revert p. induction g as [|b g IH]; intros [|a p] Hp; try done.
  - rewrite append_nil. cbn in *. apply orb_false_elim in Hp as [Hac Hp].
    destruct (ascii_dec a c) as [->|]; [|done].
    by rewrite Ascii.eqb_refl in Hac.
  - rewrite append_cons. cbn in *. apply orb_false_elim in Hp as [Hac Hp].
    destruct (ascii_dec a b); [by apply IH|done].
Qed.

Lemma append_assoc_cons g c t ws :
  g +:+ String c (t +:+ ws) = (g +:+ String c t) +:+ ws.
Proof.
  induction g as [|b g IH]; [done|]. by rewrite !append_cons, IH.
Qed.

Lemma rstrip_fields g c t :
  is_name t → rstrip (g +:+ String c t) = g +:+ String c t.
Proof.
  intros Ht. induction g as [|b g IH].
  - rewrite append_nil.
    apply (rstrip_before_name (String c EmptyString) t Ht).
  - rewrite append_cons. cbn. rewrite IH. by destruct g.
Qed.

(** A line of the table adds its pair. *)
Lemma hashmap_body_table_line isoforms line g t :
  table_line line (g, t) → is_name g → is_name t →
  startswith g "Gene" = false →
  hashmap_body isoforms line = Ok (<[t := g]> isoforms).
Proof.
  intros (ws & Hws & ->) Hg Ht Hhead. cbn [fst snd]. unfold hashmap_body.
  assert (startswith (g +:+ String tab_char (t +:+ ws)) "Gene" = false) as ->.
  { unfold startswith in *.
    destruct (String.prefix "Gene" (g +:+ _)) eqn:Hp; [|done].
    apply prefix_before_sep in Hp; [congruence|done]. }
  unfold strip. rewrite lstrip_name by done.
  rewrite append_assoc_cons, rstrip_app_space by done.
  rewrite rstrip_fields by done.
  rewrite split_two_fields
    by (apply nonspace_no_tab; by (apply Hg || apply Ht)).
  change (getitem [g; t] 0) with (Ok g).
  change (getitem [g; t] 1) with (Ok t).
  cbn [mbind result_bind]. by rewrite rstrip_nonspace by apply Ht.
Qed.

Lemma table_lookup_last (post : list (string * string)) t :
  ∀ (m : gmap string string),
    t ∉ post.*2 →
    foldl (fun m gt => <[gt.2 := gt.1]> m) m post !! t = m !! t.
Proof.
  induction post as [|[g' t'] post IH]; intros m Hnot; cbn; [done|].
  apply not_elem_of_cons in Hnot as [Hne Hnot].
  rewrite IH by done. by rewrite lookup_insert_ne.
Qed.

(** X21: the table is read back.  For a file whose lines each hold a gene
    name, a tab, a transcript name and the line end (names being non-empty
    and free of whitespace, gene names not starting with "Gene"),
    [hashmap] returns the table that maps every transcript to its gene; when
    a transcript occurs on several lines the last one wins, and no other key
    is in the table. *)
Theorem hashmap_reads_table :
  ∀ lines pairs,
    Forall2 table_line lines pairs →
    Forall (fun gt => is_name gt.1 ∧ is_name gt.2 ∧
                      startswith gt.1 "Gene" = false) pairs →
    ∃ table,
      hashmap lines = Ok table ∧
      (∀ pre g t post,
         pairs = pre ++ (g, t) :: post → t ∉ post.*2 →
         table !! t = Some g) ∧
      (∀ t, t ∉ pairs.*2 → table !! t = None).
Proof.
  intros lines pairs Hlines Hnames.
  assert (Hloop : ∀ m,
    for_each hashmap_body m lines
    = Ok (foldl (fun m gt => <[gt.2 := gt.1]> m) m pairs)).
  { induction Hlines as [|line [g t] lines pairs Hline _ IH]; intros m;
      [done|].
    apply Forall_cons in Hnames as [(Hg & Ht & Hhead) Hnames].
    cbn [for_each foldl].
    rewrite (hashmap_body_table_line m line g t) by done.
    cbn [mbind result_bind]. by apply IH. }
  eexists. split; [apply Hloop|]. split.
  - intros pre g t post -> Hlast.
    rewrite foldl_app. cbn [foldl]. rewrite table_lookup_last by done.
    cbn. by rewrite lookup_insert_eq.
  - intros t Hnot. by rewrite table_lookup_last.
Qed.

Lemma hashmap_reads_table_witness :
  let nl := String "010"%char EmptyString in
  let lines := ["g1" +:+ String tab_char ("tx1" +:+ nl);
                "g2" +:+ String tab_char ("tx2" +:+ nl);
                "g3" +:+ String tab_char ("tx1" +:+ EmptyString)] in
  let pairs := [("g1", "tx1"); ("g2", "tx2"); ("g3", "tx1")] in
  Forall2 table_line lines pairs ∧
  Forall (fun gt => is_name gt.1 ∧ is_name gt.2 ∧
                    startswith gt.1 "Gene" = false) pairs ∧
  ∃ table,
    hashmap lines = Ok table ∧
    (∀ pre g t post,
       pairs = pre ++ (g, t) :: post → t ∉ post.*2 → table !! t = Some g) ∧
    (∀ t, t ∉ pairs.*2 → table !! t = None).
Proof.
  intros nl lines pairs.
  assert (Hlines : Forall2 table_line lines pairs).
  { repeat first
      [ apply Forall2_nil_2
      | apply Forall2_cons_2; [eexists; split; [|reflexivity]; reflexivity|] ]. }
  assert (Hnames : Forall (fun gt => is_name gt.1 ∧ is_name gt.2 ∧
                                     startswith gt.1 "Gene" = false) pairs).
  { repeat first
      [ apply Forall_nil_2
      | apply Forall_cons_2; [by repeat split|] ]. }
  split; [exact Hlines|]. split; [exact Hnames|].
  exact (hashmap_reads_table lines pairs Hlines Hnames).
Defined.

(** ** The coding bases in the output *)

Lemma bases_of_app ty f1 f2 :
  bases_of ty (f1 ++ f2) = bases_of ty f1 + bases_of ty f2.
Proof. induction f1 as [|l f1 IH]; cbn; [done|]. rewrite IH. lia. Qed.

Lemma bases_of_other ty ty' new :
  Forall (fun l => g_type l = ty') new → ty' ≠ ty → bases_of ty new = 0.
Proof.
  intros Hall Hne. induction Hall as [|l new Hl _ IH]; cbn; [done|].
  rewrite IH, Hl. apply String.eqb_neq in Hne. by rewrite Hne.
Qed.

Lemma tally_ret : tally (mret tt) 0 0.
Proof. intros w. exists []. rewrite app_nil_r. by destruct w. Qed.

Lemma tally_bind (m : io unit) (k : unit → io unit) c1 s1 c2 s2 :
  tally m c1 s1 → (∀ u, tally (k u) c2 s2) →
  tally (m ≫= k) (c1 + c2) (s1 + s2).
Proof.
  intros Hm Hk w. rewrite io_bind_eq.
  destruct (Hm w) as (new1 & -> & Hc1 & Hs1).
  destruct (Hk tt (World (file w ++ new1) (GENES w)))
    as (new2 & -> & Hc2 & Hs2).
  exists (new1 ++ new2). cbn [file GENES].
  rewrite !bases_of_app, app_assoc. split_and!; [done|lia..].
Qed.

Lemma tally_lift_bind {A} (r : result A) (k : A → io unit) a c s :
  r = Ok a → tally (k a) c s → tally (lift r ≫= k) c s.
Proof. intros -> Hk w. rewrite lift_bind. apply Hk. Qed.

Lemma tally_when (b : bool) (m : io unit) c s :
  (b = true → tally m c s) →
  tally (when b m) (if b then c else 0) (if b then s else 0).
Proof. destruct b; cbn [when]; intros Hm; [by apply Hm|apply tally_ret]. Qed.

Lemma tally_for_io {A} (c s : A → Z) (body : A → io unit) :
  ∀ xs, Forall (fun x => tally (body x) (c x) (s x)) xs →
        tally (for_io xs body) (Zsum (map c xs)) (Zsum (map s xs)).
Proof.
  induction 1 as [|x xs Hx _ IH]; cbn [for_io map].
  - apply tally_ret.
  - rewrite !Zsum_cons. apply tally_bind; [done|]. intros _. apply IH.
Qed.

Lemma tally_build_gtf_line source name chrom strand geneName type_g
    start end_ exon frame exonCount :
  start <= end_ →
  tally (build_gtf_line source name chrom strand geneName type_g
           start end_ exon frame exonCount)
    (if String.eqb type_g "CDS" then end_ - start else 0)
    (if String.eqb type_g "stop_codon" then end_ - start else 0).
Proof.
  intros Hle w. rewrite build_gtf_line_ok by done. eexists [_].
  split; [done|]. cbn. unfold line_bases. cbn.
  destruct (String.eqb type_g "CDS"), (String.eqb type_g "stop_codon");
    split; lia.
Qed.

Lemma tally_write_features (k : nat) source name chrom strand geneName
    firstUtrEnd cdsStart cdsEnd lastUtrStart frame exonStart exonEnd
    exonCount es ee :
  exonStart !! k = Some es → exonEnd !! k = Some ee →
  es <= ee → cdsStart <= cdsEnd →
  tally (write_features (Z.of_nat k) source name chrom strand geneName
           firstUtrEnd cdsStart cdsEnd lastUtrStart frame exonStart exonEnd
           exonCount)
    (overlap es ee cdsStart cdsEnd) 0.
Proof.
  intros Hs He Hse Hcds w.
  rewrite (write_features_lines k _ _ _ _ _ _ _ _ _ _ _ _ _ _ es ee)
    by done.
  eexists. split; [done|]. rewrite !bases_of_app. unfold overlap.
  destruct (String.eqb strand "+");
    destruct (Z.ltb_spec es firstUtrEnd), (Z.ltb_spec cdsStart ee),
      (Z.ltb_spec es cdsEnd), (Z.ltb_spec lastUtrStart ee);
    cbn; unfold line_bases; cbn; split; lia.
Qed.

Lemma tally_emit_exon source name chrom strand geneName
    first_utr_end cdsStart cdsEnd last_utr_start frames exonStart exonEnd
    exonCount (k : nat) es ee fr :
  exonStart !! k = Some es → exonEnd !! k = Some ee →
  frames !! k = Some fr → es <= ee →
  tally (emit_exon source name chrom strand geneName
           first_utr_end cdsStart cdsEnd last_utr_start
           frames exonStart exonEnd exonCount (Z.of_nat k))
    (overlap es ee cdsStart cdsEnd) 0.
Proof.
  intros Hs He Hf Hse. unfold emit_exon.
  eapply tally_lift_bind; [by rewrite getitem_nat, Hs|].
  eapply tally_lift_bind; [by rewrite getitem_nat, He|].
  replace (overlap es ee cdsStart cdsEnd)
    with (0 + (if cdsStart <? cdsEnd then overlap es ee cdsStart cdsEnd
               else 0))
    by (unfold overlap; destruct (Z.ltb_spec cdsStart cdsEnd); lia).
  replace 0 with (0 + (if cdsStart <? cdsEnd then 0 else 0)) at 3
    by (by destruct (cdsStart <? cdsEnd)).
  apply tally_bind.
  { by apply (tally_build_gtf_line _ _ _ _ _ "exon"). }
  intros _. apply tally_when. intros Hcds%Z.ltb_lt.
  eapply tally_lift_bind; [by rewrite getitem_nat, Hf|].
  apply tally_write_features; [done..|lia].
Qed.

(** The codon lines: a start codon counts for nothing, a stop codon of the
    one-interval shape for three bases. *)
Lemma tally_write_codon source name chrom strand geneName type_g exonCount
    cdsStart cdsEnd codon :
  (∃ k, first_descriptor cdsStart cdsEnd k codon) ∨
  (∃ k, last_descriptor cdsStart cdsEnd k codon) →
  type_g = "start_codon" ∨ (type_g = "stop_codon" ∧ 3 <= cdsEnd - cdsStart) →
  ∃ b, codon_complete codon = Ok b ∧
       tally (when b (write_codon source name chrom strand geneName type_g
                        codon exonCount))
         0 (if b && String.eqb type_g "stop_codon" then 3 else 0).
Proof.
  intros Hd Hty.
  destruct (descriptor_written source name chrom strand geneName type_g
              exonCount (World [] ∅) cdsStart cdsEnd codon Hd)
    as [[_ Hc]|[Hc _]].
  { exists false. split; [done|]. apply tally_ret. }
  exists true. split; [done|]. cbn [when andb]. intros w.
  destruct (descriptor_written source name chrom strand geneName type_g
              exonCount w cdsStart cdsEnd codon Hd)
    as [[_ Hc']|[_ (new & Hw & Hall & Hshape)]]; [congruence|].
  exists new. split; [done|].
  assert (Htypes : Forall (fun l => g_type l = type_g) new).
  { eapply Forall_impl; [exact Hall|]. by intros l [? _]. }
  destruct Hty as [->|[-> Hlong]].
  - by rewrite !(bases_of_other _ "start_codon" new).
  - rewrite (bases_of_other "CDS" "stop_codon" new) by done.
    split; [done|].
    destruct Hshape as [(_ & l & -> & Hl & _)|[Htwo _]]; [|lia].
    apply Forall_cons in Htypes as [Hty _]. cbn [bases_of].
    rewrite Hty. cbn. lia.
Qed.

Lemma tally_emit_codons source name chrom strand geneName exonCount
    cdsStart cdsEnd first_codon last_codon k1 k2 b1 b2 :
  first_descriptor cdsStart cdsEnd k1 first_codon →
  last_descriptor cdsStart cdsEnd k2 last_codon →
  codon_complete first_codon = Ok b1 → codon_complete last_codon = Ok b2 →
  ((if String.eqb strand "-" then b1 else b2) = true →
   3 <= cdsEnd - cdsStart) →
  tally (emit_codons source name chrom strand geneName
           first_codon last_codon exonCount)
    0 (if (if String.eqb strand "-" then b1 else b2) then 3 else 0).
Proof.
  intros Hfirst Hlast Hb1 Hb2 Hlong. unfold emit_codons.
  destruct (String.eqb strand "-"); cbn [negb].
  - destruct (tally_write_codon source name chrom strand geneName
                "start_codon" exonCount cdsStart cdsEnd last_codon)
      as (b & Hb & Hstart); [right; eauto|by left|].
    assert (b = b2) as -> by congruence.
    eapply tally_lift_bind; [done|].
    rewrite andb_false_r in Hstart.
    replace 0 with (0 + 0) at 1 by done.
    replace (if b1 then 3 else 0) with (0 + if b1 then 3 else 0) by lia.
    apply tally_bind; [done|intros _].
    eapply tally_lift_bind; [done|].
    destruct b1.
    + destruct (tally_write_codon source name chrom strand geneName
                  "stop_codon" exonCount cdsStart cdsEnd first_codon)
        as (b & Hb' & Hstop); [left; eauto|right; auto|].
      assert (b = true) as -> by congruence. done.
    + apply tally_ret.
  - destruct (tally_write_codon source name chrom strand geneName
                "start_codon" exonCount cdsStart cdsEnd first_codon)
      as (b & Hb & Hstart); [left; eauto|by left|].
    assert (b = b1) as -> by congruence.
    eapply tally_lift_bind; [done|].
    rewrite andb_false_r in Hstart.
    replace 0 with (0 + 0) at 1 by done.
    replace (if b2 then 3 else 0) with (0 + if b2 then 3 else 0) by lia.
    apply tally_bind; [done|intros _].
    eapply tally_lift_bind; [done|].
    destruct b2.
    + destruct (tally_write_codon source name chrom strand geneName
                  "stop_codon" exonCount cdsStart cdsEnd last_codon)
        as (b & Hb' & Hstop); [right; eauto|right; auto|].
      assert (b = true) as -> by congruence. done.
    + apply tally_ret.
Qed.

Lemma overlap_as_difference exons a b :
  a <= b → Forall (fun se : Z * Z => se.1 <= se.2) exons →
  Zsum (map (fun se => overlap se.1 se.2 a b) exons)
  = bases_before b exons - bases_before a exons.
Proof.
  intros Hab. unfold bases_before.
  induction 1 as [|[s e] exons Hse _ IH]; cbn [map]; [done|].
  rewrite !Zsum_cons, IH. unfold overlap. cbn [fst snd] in *. lia.
Qed.

Lemma overlap_empty exons a b :
  b <= a → Zsum (map (fun se => overlap se.1 se.2 a b) exons) = 0.
Proof.
  intros Hba. induction exons as [|[s e] exons IH]; cbn [map]; [done|].
  rewrite Zsum_cons, IH. unfold overlap. cbn [fst snd]. lia.
Qed.

Lemma bases_before_mono exons a b :
  a <= b → bases_before a exons <= bases_before b exons.
Proof.
  intros Hab. unfold bases_before.
  induction exons as [|[s e] exons IH]; cbn [map]; [done|].
  rewrite !Zsum_cons. cbn [fst snd]. lia.
Qed.

Lemma ascending_lower_bound s e rest :
  ascending ((s, e) :: rest) →
  s < e ∧ Forall (fun se : Z * Z => e <= se.1 ∧ se.1 < se.2) rest.
Proof.
  revert s e. induction rest as [|[s1 e1] rest IH]; intros s e.
  - intros (Hse & _). by split.
  - intros (Hse & Hgap & Hasc). split; [done|].
    destruct (IH _ _ Hasc) as [Hse1 Hrest].
    apply Forall_cons_2; [cbn; lia|].
    eapply Forall_impl; [exact Hrest|]. cbn. intros [s2 e2]. cbn. lia.
Qed.

Lemma ascending_sorted exons :
  ascending exons → Forall (fun se : Z * Z => se.1 <= se.2) exons.
Proof.
  induction exons as [|[s e] rest IH]; [done|].
  intros Hasc. pose proof Hasc as (Hse & _ & Hrest).
  apply Forall_cons_2; [cbn; lia|by apply IH].
Qed.

(** For ascending exons the exon bases to the left of a position in exon
    [k] are its transcript coordinate. *)
Lemma bases_before_offset x :
  ∀ (exonStart exonEnd : list Z) (k : nat) s e,
    ascending (exon_intervals exonStart exonEnd) →
    exonStart !! k = Some s → exonEnd !! k = Some e → s <= x <= e →
    bases_before x (exon_intervals exonStart exonEnd)
    = Zsum (take k (exon_lengths exonStart exonEnd)) + (x - s).
Proof.
  unfold exon_intervals, exon_lengths, bases_before.
  induction exonStart as [|s0 ss IH]; intros [|e0 es] k s e Hasc Hs He Hx;
    try done.
  cbn [zip zip_with map] in *.
  destruct (ascending_lower_bound _ _ _ Hasc) as [Hse0 Hrest].
  rewrite Zsum_cons. cbn [fst snd]. destruct k as [|k].
  - cbn in Hs, He. injection Hs as ->. injection He as ->.
    cbn [take]. change (Zsum []) with 0.
    assert (Zsum (map (fun se : Z * Z => Z.max 0 (Z.min se.2 x - se.1))
                    (zip ss es)) = 0) as ->; [|lia].
    clear -Hrest Hx.
    induction Hrest as [|[s1 e1] rest Hh _ IH']; cbn [map]; [done|].
    rewrite Zsum_cons, IH'. cbn [fst snd] in *. lia.
  - cbn in Hs, He. cbn [take]. rewrite Zsum_cons.
    destruct Hasc as (_ & _ & Hasc).
    rewrite (IH es k s e Hasc Hs He Hx).
    assert (e0 <= s).
    { assert (Hin : zip ss es !! k = Some (s, e)).
      { apply lookup_zip_with_Some. by exists s, e. }
      by destruct (proj1 (Forall_lookup _ _) Hrest k _ Hin). }
    lia.
Qed.

Lemma intron_overlaps_nonneg cdsStart cdsEnd exons :
  0 <= intron_overlaps cdsStart cdsEnd exons.
Proof.
  induction exons as [|[s e] rest IH]; cbn [intron_overlaps]; [done|].
  destruct rest as [|[s' e'] rest']; [lia|]. unfold overlap. lia.
Qed.

(** Ascending exons hold no more coding bases than the CDS is long. *)
Lemma coding_bases_le_cds cdsStart cdsEnd exons :
  ascending exons → cdsStart <= cdsEnd →
  Zsum (map (fun se => overlap se.1 se.2 cdsStart cdsEnd) exons)
  <= cdsEnd - cdsStart.
Proof.
  intros Hasc Hcds. destruct exons as [|[s e] rest]; [cbn; lia|].
  destruct (last_is_Some ((s, e) :: rest)) as [_ [[sL eL] Hlast]]; [done|].
  destruct (exons_and_introns_tile cdsStart cdsEnd rest s e sL eL Hasc Hlast)
    as [_ Htile].
  pose proof (intron_overlaps_nonneg cdsStart cdsEnd ((s, e) :: rest)).
  assert (overlap s eL cdsStart cdsEnd <= cdsEnd - cdsStart)
    by (unfold overlap; lia).
  lia.
Qed.

Section Coverage.
Variables (txStart txEnd cdsStart cdsEnd exonCount : Z).
Variables (exonStart exonEnd : list Z).
Hypothesis Hcount : len exonStart = exonCount.
Hypothesis Hinv :
  record_invariants txStart txEnd cdsStart cdsEnd exonStart exonEnd.

Let exons := exon_intervals exonStart exonEnd.
Let total := Zsum (map (fun se => overlap se.1 se.2 cdsStart cdsEnd) exons).

Lemma bases_before_lies_in x (k : nat) :
  lies_in exonStart exonEnd x k →
  bases_before x exons = transcript_offset exonStart exonEnd k x.
Proof using Hinv.
  intros (s & e & Hs & He & Hse). destruct Hinv as (_ & Hasc & _).
  unfold exons. rewrite (bases_before_offset x _ _ k s e) by done.
  unfold transcript_offset. by rewrite (list_lookup_total_correct _ _ _ Hs).
Qed.

Lemma total_as_difference :
  total = bases_before cdsEnd exons - bases_before cdsStart exons.
Proof using Hinv.
  destruct Hinv as (_ & Hasc & _ & Hcds & _).
  unfold total. apply overlap_as_difference; [done|].
  by apply ascending_sorted.
Qed.

(** The trimmed CDS holds three coding bases less. *)
Lemma cds_after_trim_end p :
  move_pos txStart txEnd exonCount exonStart exonEnd cdsEnd (-3) = Ok p →
  3 <= total →
  Zsum (map (fun se => overlap se.1 se.2 cdsStart p) exons) = total - 3.
Proof using Hcount Hinv.
  intros Hmove Hthree.
  destruct (invariants_walkable _ _ _ _ _ _ _ Hcount Hinv) as [Hwf Hord].
  destruct (move_pos_walks_distance _ _ _ _ _ _ _ _ Hwf Hmove)
    as (k & [Hlies _] & k' & Hlies' & Hoff').
  pose proof (bases_before_lies_in _ _ Hlies) as Hend.
  pose proof (bases_before_lies_in _ _ Hlies') as Hp.
  pose proof total_as_difference as Htot.
  destruct Hinv as (_ & Hasc & _).
  destruct (Z.le_gt_cases cdsStart p) as [Hle|Hgt].
  - rewrite overlap_as_difference by (done || by apply ascending_sorted).
    lia.
  - rewrite overlap_empty by lia.
    pose proof (bases_before_mono exons p cdsStart). lia.
Qed.

Lemma cds_after_trim_start p :
  move_pos txStart txEnd exonCount exonStart exonEnd cdsStart 3 = Ok p →
  3 <= total →
  Zsum (map (fun se => overlap se.1 se.2 p cdsEnd) exons) = total - 3.
Proof using Hcount Hinv.
  intros Hmove Hthree.
  destruct (invariants_walkable _ _ _ _ _ _ _ Hcount Hinv) as [Hwf Hord].
  destruct (move_pos_walks_distance _ _ _ _ _ _ _ _ Hwf Hmove)
    as (k & [Hlies _] & k' & Hlies' & Hoff').
  pose proof (bases_before_lies_in _ _ Hlies) as Hstart.
  pose proof (bases_before_lies_in _ _ Hlies') as Hp.
  pose proof total_as_difference as Htot.
  destruct Hinv as (_ & Hasc & _).
  destruct (Z.le_gt_cases p cdsEnd) as [Hle|Hgt].
  - rewrite overlap_as_difference by (done || by apply ascending_sorted).
    lia.
  - rewrite overlap_empty by lia.
    pose proof (bases_before_mono exons cdsEnd p). lia.
Qed.

End Coverage.

Lemma tally_run_tail r geneName exonStart exonEnd frames
    first_codon last_codon cdsStart cdsEnd k1 k2 b1 b2 :
  bed_txStart r <= bed_txEnd r →
  exons_wf (bed_exonCount r) exonStart exonEnd →
  length frames = length exonStart →
  first_descriptor (bed_cdsStart r) (bed_cdsEnd r) k1 first_codon →
  last_descriptor (bed_cdsStart r) (bed_cdsEnd r) k2 last_codon →
  codon_complete first_codon = Ok b1 → codon_complete last_codon = Ok b2 →
  ((if String.eqb (bed_strand r) "-" then b1 else b2) = true →
   3 <= bed_cdsEnd r - bed_cdsStart r) →
  tally (run_tail r geneName exonStart exonEnd frames
           first_codon last_codon cdsStart cdsEnd)
    (Zsum (map (fun se => overlap se.1 se.2 cdsStart cdsEnd)
             (exon_intervals exonStart exonEnd)))
    (if (if String.eqb (bed_strand r) "-" then b1 else b2) then 3 else 0).
Proof.
  intros Htx Hwf Hfl Hfirst Hlast Hb1 Hb2 Hlong. unfold run_tail.
  pose proof Hwf as (Hls & Hle & _). unfold len in Hls, Hle.
  set (stop := if (if String.eqb (bed_strand r) "-" then b1 else b2)
               then 3 else 0).
  set (c := fun x : Z => overlap (exonStart !!! Z.to_nat x)
                           (exonEnd !!! Z.to_nat x) cdsStart cdsEnd).
  replace (Zsum (map (fun se => overlap se.1 se.2 cdsStart cdsEnd)
                   (exon_intervals exonStart exonEnd)))
    with (0 + (Zsum (map c (py_range 0 (bed_exonCount r) 1)) + 0)).
  2:{ rewrite py_range_up, <- overlaps_by_index by lia.
      replace (Z.to_nat (bed_exonCount r)) with (length exonStart) by lia.
      rewrite map_map, Z.add_0_l, Z.add_0_r. f_equal. apply map_ext.
      intros k. unfold c. by rewrite Nat2Z.id. }
  replace stop
    with (0 + (Zsum (map (fun _ : Z => 0) (py_range 0 (bed_exonCount r) 1))
               + stop)).
  2:{ assert (∀ l : list Z, Zsum (map (fun _ : Z => 0) l) = 0) as ->; [|lia].
      induction l as [|x l IH]; cbn [map]; [done|].
      by rewrite Zsum_cons, IH. }
  apply tally_bind.
  { by apply (tally_build_gtf_line _ _ _ _ _ "transcript"). }
  intros _. apply tally_bind.
  2:{ intros _. by eapply tally_emit_codons. }
  apply tally_for_io. rewrite py_range_up.
  apply Forall_fmap, Forall_forall. intros k Hk. cbn.
  apply list_elem_of_In, in_seq in Hk.
  destruct (wf_lookup _ _ _ Hwf k) as (s & e & Hs & He & Hse & _); [lia|].
  destruct (lookup_lt_is_Some_2 frames k) as [fr Hfr].
  { apply lookup_lt_Some in Hs. lia. }
  unfold c. rewrite Nat2Z.id.
  rewrite (list_lookup_total_correct _ _ _ Hs),
    (list_lookup_total_correct _ _ _ He).
  eapply tally_emit_exon; [done..|lia].
Qed.

(** The gene line holds neither CDS nor stop-codon bases. *)
Lemma tally_after_emit_gene r g (tail : io unit) c s w :
  bed_txStart r <= bed_txEnd r →
  tally tail c s →
  ∃ new w',
    (_ ← emit_gene "test" g (bed_chrom r) (bed_strand r)
           (bed_txStart r) (bed_txEnd r) ; tail) w = (Ok tt, w') ∧
    file w' = file w ++ new ∧
    bases_of "CDS" new = c ∧ bases_of "stop_codon" new = s.
Proof.
  intros Htx Htail. rewrite io_bind_eq, emit_gene_cases.
  replace (bed_txStart r <=? bed_txEnd r) with true by lia.
  destruct (has_key (GENES w) g).
  - destruct (Htail w) as (new & -> & Hc & Hs). by eexists new, _.
  - match goal with
    | |- context [tail ?w1] =>
        destruct (Htail w1) as (new & -> & Hc & Hs)
    end.
    eexists (_ :: new), _. cbn [file]. rewrite <- app_assoc.
    split_and!; [done|done|by cbn|by cbn].
Qed.

(** X22: the CDS lines and the stop codon add up to the coding bases.  For
    a well-formed record on the plus or the minus strand, [run] succeeds, and
    the number of bases on the CDS lines it writes plus the number of bases
    on its stop-codon lines is the running count of [exon_frames], the
    number of exon bases within [[cdsStart, cdsEnd)]; the stop-codon lines
    hold three bases or none.  This is an equality of counts and says
    nothing about where the stop-codon line lies. *)
Theorem cds_and_stop_codon_add_up_to_coding_bases :
  ∀ isoforms r w,
    well_formed_record isoforms r →
    bed_strand r = "+" ∨ bed_strand r = "-" →
    ∃ exonStart exonEnd new w',
      absolute_exons (bed_txStart r) (bed_starts r) (bed_sizes r)
      = Ok (exonStart, exonEnd) ∧
      run r isoforms w = (Ok tt, w') ∧ file w' = file w ++ new ∧
      running_count (bed_cdsStart r) (bed_cdsEnd r) exonStart exonEnd
        (bed_strand r)
      = Ok (bases_of "CDS" new + bases_of "stop_codon" new) ∧
      (bases_of "stop_codon" new = 0 ∨ bases_of "stop_codon" new = 3).
Proof.
  intros isoforms r w
    ([g Hg] & exonStart & exonEnd & s0 & eL & Habs & Hcount & Hpos &
     Hinv & Hhead & Hlast & Hs0 & HeL) Hstrand.
  exists exonStart, exonEnd.
  pose proof Hinv as (Hlen & Hasc & Htx1 & Htx2 & Htx3).
  destruct (invariants_walkable _ _ _ _ _ _ _ Hcount Hinv) as [Hwf Hord].
  destruct (exon_frames_loop_prefix (bed_cdsStart r) (bed_cdsEnd r)
              exonStart exonEnd (bed_strand r))
    as (frames & cds & Hloop & Hfl & _); [lia|].
  assert (Hframes : exon_frames (bed_cdsStart r) (bed_cdsEnd r)
                      exonStart exonEnd (bed_strand r) = Ok frames).
  { unfold exon_frames. by rewrite Hloop. }
  destruct (codon_searches_return frames (bed_strand r) (bed_cdsStart r)
              (bed_cdsEnd r) exonStart exonEnd)
    as (first_codon & last_codon & Hfirst & Hlastc); [done|lia| |].
  { intros ->. unfold len in Hcount. cbn in Hcount. lia. }
  pose proof (find_first_codon_descriptor _ _ _ _ _ _ _ Hfirst) as Hd1.
  pose proof (find_last_codon_descriptor _ _ _ _ _ _ _ Hlastc) as Hd2.
  destruct (succeeds_write_codon "test" (bed_name r) (bed_chrom r)
              (bed_strand r) g "start_codon" (bed_exonCount r)
              (bed_cdsStart r) (bed_cdsEnd r) first_codon)
    as (b1 & Hb1 & _); [left; eauto|].
  destruct (succeeds_write_codon "test" (bed_name r) (bed_chrom r)
              (bed_strand r) g "start_codon" (bed_exonCount r)
              (bed_cdsStart r) (bed_cdsEnd r) last_codon)
    as (b2 & Hb2 & _); [right; eauto|].
  pose proof (coding_bases_le_cds (bed_cdsStart r) (bed_cdsEnd r)
                (exon_intervals exonStart exonEnd) Hasc Htx2) as Hbound.
  rewrite running_count_is_exon_overlap by done.
  rewrite run_blocks. rewrite lift_bind. unfold lookup_isoform. rewrite Hg.
  rewrite lift_bind. replace (negb (bed_exonCount r =? 0)) with true by lia.
  rewrite Habs. rewrite lift_bind, Hframes. rewrite lift_bind, Hfirst.
  rewrite lift_bind, Hlastc.
  assert (Htxle : bed_txStart r <= bed_txEnd r) by lia.
  destruct Hstrand as [Hplus|Hminus].
  - assert (Hcs : trim_cdsStart (bed_strand r) (bed_txStart r) (bed_txEnd r)
                    (bed_exonCount r) exonStart exonEnd first_codon
                    (bed_cdsStart r) = Ok (bed_cdsStart r)).
    { unfold trim_cdsStart. by rewrite Hplus. }
    destruct (trim_cdsEnd_outcome _ _ _ _ _ _ _ _ _ Hcount Hpos Hinv Hframes
                s0 eL Hhead Hlast (conj Hs0 HeL) last_codon Hplus Hlastc)
      as [[Hc Hce]|(Hc & Hthree & p & Hmove & Hce)];
      rewrite lift_bind, Hce; rewrite lift_bind, Hcs.
    + assert (b2 = false) as -> by congruence.
      destruct (tally_after_emit_gene r g _ _ _ w Htxle
                  (tally_run_tail r g exonStart exonEnd frames first_codon
                     last_codon (bed_cdsStart r) (bed_cdsEnd r) _ _ b1 false
                     Htxle Hwf Hfl Hd1 Hd2 Hb1 Hc
                     ltac:(rewrite Hplus; cbn; done)))
        as (new & w' & -> & Hfile & Hcds & Hstop).
      exists new, w'. rewrite Hplus in Hstop. cbn in Hstop.
      split_and!; [done..| |by left]. f_equal. lia.
    + assert (b2 = true) as -> by congruence.
      destruct (tally_after_emit_gene r g _ _ _ w Htxle
                  (tally_run_tail r g exonStart exonEnd frames first_codon
                     last_codon (bed_cdsStart r) p _ _ b1 true
                     Htxle Hwf Hfl Hd1 Hd2 Hb1 Hc
                     ltac:(intros _; lia)))
        as (new & w' & -> & Hfile & Hcds & Hstop).
      exists new, w'. rewrite Hplus in Hstop. cbn in Hstop.
      rewrite (cds_after_trim_end _ _ _ _ _ _ _ Hcount Hinv p Hmove Hthree)
        in Hcds.
      split_and!; [done..| |by right]. f_equal. lia.
  - assert (Hce : trim_cdsEnd (bed_strand r) (bed_txStart r) (bed_txEnd r)
                    (bed_exonCount r) exonStart exonEnd last_codon
                    (bed_cdsEnd r) = Ok (bed_cdsEnd r)).
    { unfold trim_cdsEnd. by rewrite Hminus. }
    rewrite lift_bind, Hce.
    destruct (trim_cdsStart_outcome _ _ _ _ _ _ _ _ _ Hcount Hpos Hinv Hframes
                s0 eL Hhead Hlast (conj Hs0 HeL) first_codon Hminus Hfirst)
      as [[Hc Hcs]|(Hc & Hthree & p & Hmove & Hcs)];
      rewrite lift_bind, Hcs.
    + assert (b1 = false) as -> by congruence.
      destruct (tally_after_emit_gene r g _ _ _ w Htxle
                  (tally_run_tail r g exonStart exonEnd frames first_codon
                     last_codon (bed_cdsStart r) (bed_cdsEnd r) _ _ false b2
                     Htxle Hwf Hfl Hd1 Hd2 Hc Hb2
                     ltac:(rewrite Hminus; cbn; done)))
        as (new & w' & -> & Hfile & Hcds & Hstop).
      exists new, w'. rewrite Hminus in Hstop. cbn in Hstop.
      split_and!; [done..| |by left]. f_equal. lia.
    + assert (b1 = true) as -> by congruence.
      destruct (tally_after_emit_gene r g _ _ _ w Htxle
                  (tally_run_tail r g exonStart exonEnd frames first_codon
                     last_codon p (bed_cdsEnd r) _ _ true b2
                     Htxle Hwf Hfl Hd1 Hd2 Hc Hb2
                     ltac:(intros _; lia)))
        as (new & w' & -> & Hfile & Hcds & Hstop).
      exists new, w'. rewrite Hminus in Hstop. cbn in Hstop.
      rewrite (cds_after_trim_start _ _ _ _ _ _ _ Hcount Hinv p Hmove Hthree)
        in Hcds.
      split_and!; [done..| |by right]. f_equal. lia.
Qed.

Lemma cds_and_stop_codon_add_up_to_coding_bases_witness :
  let isoforms : gmap string string := {[ "tx1" := "g1" ]} in
  let r := BedRecord "chr1" 0 300 "tx1" "+" 20 251 2 [100; 100] [0; 200] in
  let w := World [] ∅ in
  well_formed_record isoforms r ∧
  (bed_strand r = "+" ∨ bed_strand r = "-") ∧
  ∃ exonStart exonEnd new w',
    absolute_exons (bed_txStart r) (bed_starts r) (bed_sizes r)
    = Ok (exonStart, exonEnd) ∧
    run r isoforms w = (Ok tt, w') ∧ file w' = file w ++ new ∧
    running_count (bed_cdsStart r) (bed_cdsEnd r) exonStart exonEnd
      (bed_strand r)
    = Ok (bases_of "CDS" new + bases_of "stop_codon" new) ∧
    (bases_of "stop_codon" new = 0 ∨ bases_of "stop_codon" new = 3).
Proof.
  intros isoforms r w.
  assert (Hr : well_formed_record isoforms r).
  { split; [by exists "g1"|].
    exists [0; 200], [100; 300], 0, 300.
    split_and!; try reflexivity; try (cbn; lia).
    unfold record_invariants. cbn. lia. }
  assert (Hs : bed_strand r = "+" ∨ bed_strand r = "-") by (by left).
  split; [exact Hr|]. split; [exact Hs|].
  exact (cds_and_stop_codon_add_up_to_coding_bases isoforms r w Hr Hs).
Defined.
